(** * Tic-tac-toe backend: match state machine and scripted opponent

    A shallow embedding of the game server's core
    ([Game], [handleDraw], [handleGameEnd], the move and timer handlers of
    the server file) and of the opponent logic of [botLogic.js]
    ([BotPlayer.determineOutcome], [evaluateBoard], [getStrategicMove],
    [getNextMove]), with the properties of the design specification
    stated and settled over it.

    Conventions of the embedding:
    - socket ids, game ids and lightning addresses are [string]s; a
      JavaScript object keyed by them is an association list in insertion
      order (these keys are never array indices, so [Object.keys] lists
      them in insertion order);
    - [null] and [undefined] references are [None];
    - [Date.now()] is an explicit [now : Z] (milliseconds), and a pending
      [setTimeout] handle is the instant at which it fires;
    - [Math.random()] is a rational in [0,1) read from a tape;
    - socket emissions and deferred calls are returned as a list of
      [effect]s. *)

From Stdlib Require Import ZArith List Lia Bool QArith Qround.
From stdpp Require Import base option list strings gmap.

Local Open Scope string_scope.
Local Open Scope list_scope.
Local Open Scope Z_scope.

(** ** Association lists for JavaScript objects keyed by strings *)

Module Obj.
Section Obj.
Context {V : Type}.

(** [o[k]] *)
Fixpoint get (k : string) (o : list (string * V)) : option V :=
  match o with
  | [] => None
  | (k', v) :: t => if String.eqb k' k then Some v else get k t
  end.

(** [o[k] = v]: an existing key keeps its position, a new one is added
    last. *)
Fixpoint set (k : string) (v : V) (o : list (string * V)) : list (string * V) :=
  match o with
  | [] => [(k, v)]
  | (k', v') :: t =>
      if String.eqb k' k then (k, v) :: t else (k', v') :: set k v t
  end.

(** [delete o[k]] *)
Fixpoint del (k : string) (o : list (string * V)) : list (string * V) :=
  match o with
  | [] => []
  | (k', v') :: t => if String.eqb k' k then t else (k', v') :: del k t
  end.

(** [Object.keys(o)] *)
Definition keys (o : list (string * V)) : list string := map fst o.

(** [Object.values(o)] *)
Definition values (o : list (string * V)) : list V := map snd o.
End Obj.
End Obj.

(** ** Board evaluator ([Game.checkWinner]) *)

Inductive mark := X | O.

(** A board cell as JavaScript sees it: [null], ['X'], ['O'], or
    [undefined] (a hole, or the symbol of a missing player record). *)
Inductive cell := Empty | Mark (m : mark) | Undef.

Definition mark_eqb (a b : mark) : bool :=
  match a, b with X, X | O, O => true | _, _ => false end.

(** [c1 === c2] on cells *)
Definition cell_eqb (a b : cell) : bool :=
  match a, b with
  | Empty, Empty | Undef, Undef => true
  | Mark m, Mark n => mark_eqb m n
  | _, _ => false
  end.

Lemma mark_eqb_eq a b : mark_eqb a b = true <-> a = b.
Proof. destruct a, b; simpl; split; congruence. Qed.

Lemma cell_eqb_eq a b : cell_eqb a b = true <-> a = b.
Proof.
  destruct a as [|m|], b as [|n|]; simpl; try (split; congruence).
  rewrite mark_eqb_eq. split; congruence.
Qed.

Lemma cell_eqb_refl a : cell_eqb a a = true.
Proof. by apply cell_eqb_eq. Qed.

(** [board[i]]: reading past the end of an array gives [undefined]. *)
Definition cell_at (b : list cell) (i : nat) : cell := nth i b Undef.

(** [Array(9).fill(null)] *)
Definition empty_board : list cell := repeat Empty 9.

Definition line : Type := nat * nat * nat.

Definition lines : list line :=
  [ (0, 1, 2); (3, 4, 5); (6, 7, 8);
    (0, 3, 6); (1, 4, 7); (2, 5, 8);
    (0, 4, 8); (2, 4, 6) ]%nat.

(** The value of the [winner] field returned by [checkWinner]: a mark
    with its line, ['draw'], or [null]. *)
Inductive verdict := Won (m : mark) (l : line) | Draw | Ongoing.

(** [board[a] && board[a] === board[b] && board[a] === board[c]] *)
Definition line_won (b : list cell) (l : line) : option mark :=
  let '(i, j, k) := l in
  match cell_at b i with
  | Mark m =>
      if cell_eqb (cell_at b i) (cell_at b j) && cell_eqb (cell_at b i) (cell_at b k)
      then Some m else None
  | _ => None
  end.

Fixpoint first_won (b : list cell) (ls : list line) : option (mark * line) :=
  match ls with
  | [] => None
  | l :: t =>
      match line_won b l with
      | Some m => Some (m, l)
      | None => first_won b t
      end
  end.

Definition is_null (c : cell) : bool :=
  match c with Empty => true | _ => false end.

Definition checkWinner (b : list cell) : verdict :=
  match first_won b lines with
  | Some (m, l) => Won m l
  | None => if forallb (fun c => negb (is_null c)) b then Draw else Ongoing
  end.

(** A line holds three identical marks. *)
Definition mono (b : list cell) (l : line) (m : mark) : Prop :=
  let '(i, j, k) := l in
  cell_at b i = Mark m /\ cell_at b j = Mark m /\ cell_at b k = Mark m.

Lemma line_won_mono b l m : line_won b l = Some m <-> mono b l m.
Proof.
  destruct l as [[i j] k]. unfold line_won, mono.
  destruct (cell_at b i) as [|m'|] eqn:Hi.
  - split; [discriminate | intros [? _]; discriminate].
  - destruct (cell_eqb (Mark m') (cell_at b j)) eqn:Hj;
      destruct (cell_eqb (Mark m') (cell_at b k)) eqn:Hk; simpl.
    + apply cell_eqb_eq in Hj, Hk. rewrite <- Hj, <- Hk.
      split; [intros [= ->]; auto | intros [[= ->] _]; auto].
    + split; [discriminate|]. intros (E & _ & Ek). injection E as ->.
      rewrite Ek, cell_eqb_refl in Hk. discriminate.
    + split; [discriminate|]. intros (E & Ej & _). injection E as ->.
      rewrite Ej, cell_eqb_refl in Hj. discriminate.
    + split; [discriminate|]. intros (E & Ej & _). injection E as ->.
      rewrite Ej, cell_eqb_refl in Hj. discriminate.
  - split; [discriminate | intros [? _]; discriminate].
Qed.

Lemma first_won_some b ls m l :
  first_won b ls = Some (m, l) -> In l ls /\ mono b l m.
Proof.
  induction ls as [|l0 t IH]; simpl; [discriminate|].
  destruct (line_won b l0) as [m0|] eqn:E.
  - intros [= -> ->]. split; [by left | by apply line_won_mono].
  - intros H. destruct (IH H). split; [by right | done].
Qed.

Lemma first_won_none b ls :
  first_won b ls = None <-> forall l m, In l ls -> ~ mono b l m.
Proof.
  induction ls as [|l0 t IH]; simpl.
  - split; [intros _ l m [] | done].
  - destruct (line_won b l0) as [m0|] eqn:E.
    + split; [discriminate|]. intros H. exfalso.
      apply (H l0 m0); [by left | by apply line_won_mono].
    + rewrite IH. split.
      * intros H l m [<-|Hin]; [|by apply H].
        intros Hm. apply line_won_mono in Hm. congruence.
      * intros H l m Hin. apply H. by right.
Qed.

Definition is_win (v : verdict) : Prop := exists m l, v = Won m l.

(** C6. For every board (in particular every 9-cell board),
    [Game.checkWinner] never reports both a winner and a draw; it reports
    a winner exactly when one of the eight standard lines holds three
    identical marks; and it reports a draw exactly when no such line exists
    and no cell is empty ([null]). *)
Theorem checkWinner_sound_complete (b : list cell) :
  ~ (is_win (checkWinner b) /\ checkWinner b = Draw)
  /\ (is_win (checkWinner b) <-> exists l m, In l lines /\ mono b l m)
  /\ (checkWinner b = Draw <->
        (forall l m, In l lines -> ~ mono b l m) /\ Forall (fun c => c <> Empty) b).
Proof.
  assert (Hall : forallb (fun c => negb (is_null c)) b = true
                 <-> Forall (fun c => c <> Empty) b).
  { rewrite forallb_forall, List.Forall_forall. split; intros H c Hc.
    - specialize (H c Hc). by destruct c.
    - specialize (H c Hc). by destruct c. }
  unfold checkWinner, is_win.
  destruct (first_won b lines) as [[m l]|] eqn:E.
  - apply first_won_some in E as [Hin Hm].
    repeat split.
    + intros [_ ?]; discriminate.
    + intros _. eauto.
    + eauto.
    + discriminate.
    + discriminate.
    + intros [Hno _]. exfalso. by apply (Hno l m).
  - pose proof (proj1 (first_won_none b lines) E) as Hno.
    repeat split.
    + destruct (forallb _ b); intros [(m & l & ?) _]; discriminate.
    + destruct (forallb _ b); intros (m & l & ?); discriminate.
    + intros (l & m & Hin & Hm). exfalso. by apply (Hno l m).
    + done.
    + destruct (forallb _ b) eqn:F; [by apply Hall | discriminate].
    + intros [_ HF]. apply Hall in HF. by rewrite HF.
Qed.

(** ** Effects: socket emissions and deferred calls *)

(** Payloads of the socket events the core emits (the fields the
    properties below talk about). *)
Inductive event :=
| nextTurn (turn : option string) (turnDeadline : option Z) (message : string)
| moveMade (position : Z) (symbol : option mark) (next : option string)
    (board : list cell) (turnDeadline : option Z) (message : string)
| boardUpdate (board : list cell) (lastMove : Z)
| error (message : string)
| gameEnd (message : string) (winnerSymbol : option mark) (winningLine : list nat)
    (autoContinue : bool)
| startGame (game : string) (symbol : option mark) (turn : option string)
    (board : list cell) (message : string) (turnDeadline : option Z)
| matchFound (opponentType : string) (startsIn : Z) (startAt : Z)
| waitingForOpponent.

(** Callbacks handed to [setTimeout]. *)
Inductive task :=
| BotPlays (game bot : string) (move : nat)
| BotKick (game bot : string)
| StartMatch (game : string)
| SpawnBot (socket : string)
| SpawnBotQueued (socket : string) (address : option string) (bet : Z)
| Evict (game : string)
| SendStart (socket game : string) (deadline : option Z). (* startGame, for a connected socket *)

Inductive effect :=
| Emit (socket : string) (e : event)          (* sock?.emit(...) *)
| EmitConnected (socket : string) (e : event) (* if (sock && sock.connected) sock.emit(...) *)
| EmitRoom (room : string) (e : event)        (* io.to(room).emit(...) *)
| MakeBotMove (game bot : string)             (* makeBotMove(game, bot) *)
| Payout (socket : option string) (amount : Z) (game : string) (address : option string)
| PayoutVia (candidates : list string) (fallback : option string) (amount : Z)
    (game : string) (address : option string)
    (* processPayout(sid, amount, game, address), where sid is the first of
       [candidates] whose socket is connected, and [fallback] if none is *)
| PlatformFee (amount : Z) (game : string)
| Later (delay : Z) (k : task).               (* setTimeout(k, delay) *)

(** JavaScript truthiness of an optional string. *)
Definition truthy (o : option string) : bool :=
  match o with
  | Some s => negb (String.eqb s "")
  | None => false
  end.

(** [a || b] on optional strings *)
Definition or_else (a b : option string) : option string :=
  if truthy a then a else b.

(** [a === b] on optional strings *)
Definition ostr_eqb (a b : option string) : bool :=
  match a, b with
  | Some x, Some y => String.eqb x y
  | None, None => true
  | _, _ => false
  end.

Lemma ostr_eqb_eq a b : ostr_eqb a b = true <-> a = b.
Proof.
  destruct a as [x|], b as [y|]; simpl; try (split; congruence).
  rewrite String.eqb_eq. split; congruence.
Qed.

Lemma ostr_eqb_refl a : ostr_eqb a a = true.
Proof. by apply ostr_eqb_eq. Qed.

(** [arr[i] = v] on an array: writing past the end extends it, leaving
    holes that read as [undefined]. *)
Fixpoint array_set (l : list cell) (i : nat) (v : cell) : list cell :=
  match i, l with
  | 0%nat, [] => [v]
  | 0%nat, _ :: t => v :: t
  | S i', [] => Undef :: array_set [] i' v
  | S i', h :: t => h :: array_set t i' v
  end.

(** ** The match ([class Game]) *)

Inductive Status := waiting | ready | playing | finished.

Definition Status_eqb (a b : Status) : bool :=
  match a, b with
  | waiting, waiting | ready, ready | playing, playing | finished, finished => true
  | _, _ => false
  end.

(** The [winner] field of a match: [null], ['draw'], or the result of
    looking the winning symbol's holder up. *)
Inductive Outcome := NoWinner | DrawGame | WonBy (who : option string).

Record Player := mkPlayer {
  socketId : string;
  lightningAddress : option string;
  isBot : bool;
  symbol : mark;
  playerReady : bool
}.

Module Game.

Record t := mk {
  id : string;
  betAmount : Z;
  players : list (string * Player);
  board : list cell;
  turn : option string;
  status : Status;
  winner : Outcome;
  winLine : list nat;
  turnTimer : option Z;
  isFirstTurn : bool;
  moveCount : nat;
  startingPlayer : option string;
  turnDeadlineAt : option Z
}.

(** [constructor(id, betAmount)] *)
Definition new (i : string) (bet : Z) : t :=
  mk i bet [] empty_board None waiting NoWinner [] None true 0 None None.

Definition set_players v g := mk (id g) (betAmount g) v (board g) (turn g) (status g)
  (winner g) (winLine g) (turnTimer g) (isFirstTurn g) (moveCount g) (startingPlayer g)
  (turnDeadlineAt g).
Definition set_board v g := mk (id g) (betAmount g) (players g) v (turn g) (status g)
  (winner g) (winLine g) (turnTimer g) (isFirstTurn g) (moveCount g) (startingPlayer g)
  (turnDeadlineAt g).
Definition set_turn v g := mk (id g) (betAmount g) (players g) (board g) v (status g)
  (winner g) (winLine g) (turnTimer g) (isFirstTurn g) (moveCount g) (startingPlayer g)
  (turnDeadlineAt g).
Definition set_status v g := mk (id g) (betAmount g) (players g) (board g) (turn g) v
  (winner g) (winLine g) (turnTimer g) (isFirstTurn g) (moveCount g) (startingPlayer g)
  (turnDeadlineAt g).
Definition set_winner v g := mk (id g) (betAmount g) (players g) (board g) (turn g) (status g)
  v (winLine g) (turnTimer g) (isFirstTurn g) (moveCount g) (startingPlayer g)
  (turnDeadlineAt g).
Definition set_winLine v g := mk (id g) (betAmount g) (players g) (board g) (turn g) (status g)
  (winner g) v (turnTimer g) (isFirstTurn g) (moveCount g) (startingPlayer g)
  (turnDeadlineAt g).
Definition set_turnTimer v g := mk (id g) (betAmount g) (players g) (board g) (turn g) (status g)
  (winner g) (winLine g) v (isFirstTurn g) (moveCount g) (startingPlayer g)
  (turnDeadlineAt g).
Definition set_isFirstTurn v g := mk (id g) (betAmount g) (players g) (board g) (turn g)
  (status g) (winner g) (winLine g) (turnTimer g) v (moveCount g) (startingPlayer g)
  (turnDeadlineAt g).
Definition set_moveCount v g := mk (id g) (betAmount g) (players g) (board g) (turn g)
  (status g) (winner g) (winLine g) (turnTimer g) (isFirstTurn g) v (startingPlayer g)
  (turnDeadlineAt g).
Definition set_startingPlayer v g := mk (id g) (betAmount g) (players g) (board g) (turn g)
  (status g) (winner g) (winLine g) (turnTimer g) (isFirstTurn g) (moveCount g) v
  (turnDeadlineAt g).
Definition set_turnDeadlineAt v g := mk (id g) (betAmount g) (players g) (board g) (turn g)
  (status g) (winner g) (winLine g) (turnTimer g) (isFirstTurn g) (moveCount g)
  (startingPlayer g) v.

(** [playerIds.find(id => id !== who)] *)
Definition other_than (who : option string) (g : t) : option string :=
  List.find (fun i => negb (ostr_eqb (Some i) who)) (Obj.keys (players g)).

(** [addPlayer(socketId, lightningAddress, isBot = false)]; [coin] is the
    outcome of [Math.random() < 0.5]. Returns the assigned symbol. *)
Definition addPlayer (sid : string) (addr : option string) (bot : bool)
    (coin : bool) (g : t) : mark * t :=
  let sym := if (length (Obj.keys (players g)) =? 0)%nat then X else O in
  let g1 := set_players (Obj.set sid (mkPlayer sid addr bot sym false) (players g)) g in
  let ids := Obj.keys (players g1) in
  if (length ids =? 2)%nat then
    let first := nth_error ids (if coin then 0 else 1) in
    (sym, set_startingPlayer first (set_turn first (set_status ready g1)))
  else (sym, g1).

(** [this.players[this.turn]?.symbol] *)
Definition currentPlayerSymbol (g : t) : option mark :=
  match turn g with
  | Some i => symbol <$> Obj.get i (players g)
  | None => None
  end.

(** [clearTurnTimer()] *)
Definition clearTurnTimer (g : t) : t := set_turnTimer None g.

(** [this.players[this.turn]?.isBot] *)
Definition turn_is_bot (g : t) : bool :=
  match turn g with
  | Some i => match Obj.get i (players g) with Some p => isBot p | None => false end
  | None => false
  end.

Definition turn_message (g : t) (pid : string) : string :=
  if ostr_eqb (turn g) (Some pid) then "Your move" else "Opponent's move".

(** [startTurnTimer()] at time [now]: re-arms the timer, publishes the
    deadline, announces the turn to the human participants and, when the
    mover is automated, asks for its move. *)
Definition startTurnTimer (now : Z) (g : t) : t * list effect :=
  let timeout := if isFirstTurn g then 8000 else 5000 in
  let g1 := set_turnDeadlineAt (Some (now + timeout))
              (set_turnTimer (Some (now + timeout)) (clearTurnTimer g)) in
  let announce :=
    flat_map (fun '(pid, p) =>
                if isBot p then []
                else [Emit pid (nextTurn (turn g1) (turnDeadlineAt g1) (turn_message g1 pid))])
             (players g1) in
  let bot := match turn g1 with
             | Some i => if turn_is_bot g1 then [MakeBotMove (id g1) i] else []
             | None => []
             end in
  (g1, announce ++ bot).

Inductive reason := not_playing | not_your_turn | bad_pos | occupied.

(** What [makeMove] returns. *)
Inductive result :=
| Rejected (r : reason)                                (* { ok: false, reason } *)
| IsDraw (nextStarter : option string)                 (* { ok: true, draw: true, nextStarter } *)
| IsWin (winnerId : option string) (l : line)          (* { ok: true, winner, winLine } *)
| Accepted.                                            (* { ok: true } *)

Definition ok (r : result) : bool :=
  match r with Rejected _ => false | _ => true end.

Definition line_cells (l : line) : list nat := let '(a, b, c) := l in [a; b; c].

(** [makeMove(socketId, position)] at time [now]. *)
Definition makeMove (now : Z) (sid : string) (position : Z) (g : t)
  : result * t * list effect :=
  if negb (Status_eqb (status g) playing) then (Rejected not_playing, g, [])
  else if negb (ostr_eqb (turn g) (Some sid)) then (Rejected not_your_turn, g, [])
  else if (position <? 0) || (position >? 8) then (Rejected bad_pos, g, [])
  else if negb (cell_eqb (cell_at (board g) (Z.to_nat position)) Empty)
  then (Rejected occupied, g, [])
  else
    let sym := match currentPlayerSymbol g with Some m => Mark m | None => Undef end in
    let g1 := set_moveCount (S (moveCount g))
                (set_isFirstTurn false
                   (set_board (array_set (board g) (Z.to_nat position) sym) g)) in
    match checkWinner (board g1) with
    | Draw =>
        let g2 := clearTurnTimer (set_status finished g1) in
        let otherPlayer := other_than (startingPlayer g2) g2 in
        (IsDraw otherPlayer, set_startingPlayer otherPlayer (set_winner DrawGame g2), [])
    | Won m l =>
        let g2 := clearTurnTimer (set_status finished g1) in
        let winnerId :=
          List.find (fun i => match Obj.get i (players g2) with
                              | Some p => mark_eqb (symbol p) m
                              | None => false
                              end) (Obj.keys (players g2)) in
        (IsWin winnerId l, set_winLine (line_cells l) (set_winner (WonBy winnerId) g2), [])
    | Ongoing =>
        let g2 := set_turn (other_than (turn g1) g1) g1 in
        let '(g3, effs) := startTurnTimer now g2 in
        (Accepted, g3, effs)
    end.

End Game.

(** ** Draw-triggered restart ([handleDraw], the part acting on the match) *)

(** The body of [handleDraw(gameId)] once [games[gameId]] has been found,
    at time [now]. ([updatePlayerHistory] only writes to the console.) *)
Definition handleDraw_on (now : Z) (g : Game.t) : Game.t * list effect :=
  let otherPlayer := Game.other_than (Game.startingPlayer g) g in
  let g1 := Game.set_startingPlayer (or_else otherPlayer (Game.startingPlayer g)) g in
  let g2 := Game.set_board empty_board g1 in
  let g3 := Game.set_status playing g2 in
  let g4 := Game.set_winner NoWinner g3 in
  let g5 := Game.set_winLine [] g4 in
  let g6 := Game.set_moveCount 0 g5 in
  let g7 := Game.set_isFirstTurn true g6 in
  let g8 := Game.set_turn (Game.startingPlayer g7) g7 in
  let g9 := Game.clearTurnTimer g8 in
  let '(g10, effs) := Game.startTurnTimer now g9 in
  let turnDeadline := Game.turnDeadlineAt g10 in
  let notify :=
    flat_map (fun '(pid, p) =>
                if truthy (lightningAddress p) then
                  [EmitConnected pid (gameEnd "It's a draw! New game starting..." None [] true);
                   Later 1000 (SendStart pid (Game.id g10) turnDeadline)]
                else [])
             (Game.players g10) in
  let botId := List.find (fun i => match Obj.get i (Game.players g10) with
                                   | Some p => isBot p
                                   | None => false
                                   end) (Obj.keys (Game.players g10)) in
  let kick := if truthy botId && ostr_eqb (Game.turn g10) botId
              then match botId with
                   | Some b => [Later 1500 (BotKick (Game.id g10) b)]
                   | None => []
                   end
              else [] in
  (g10, effs ++ notify ++ kick).

(** What every caller of [makeMove] does with an accepted move: a draw
    result is followed at once by [handleDraw]. *)
Definition play (now : Z) (sid : string) (position : Z) (g : Game.t) : Game.t :=
  let '(r, g1, _) := Game.makeMove now sid position g in
  match r with
  | Game.IsDraw _ => fst (handleDraw_on now g1)
  | _ => g1
  end.

(** A match between two participants, as it stands when the countdown has
    elapsed: both slots filled, status set to [playing], first timer armed. *)
Definition begin (now : Z) (g : Game.t) : Game.t :=
  fst (Game.startTurnTimer now (Game.set_status playing g)).

Definition fresh (gid : string) (bet : Z) (p1 : string) (a1 : option string) (b1 : bool)
    (p2 : string) (a2 : option string) (b2 : bool) (coin : bool) (now : Z) : Game.t :=
  let g1 := snd (Game.addPlayer p1 a1 b1 coin (Game.new gid bet)) in
  let g2 := snd (Game.addPlayer p2 a2 b2 coin g1) in
  begin now g2.

(** *** Rejections of [makeMove] *)

Definition rejection (sid : string) (position : Z) (g : Game.t) : option Game.reason :=
  if negb (Status_eqb (Game.status g) playing) then Some Game.not_playing
  else if negb (ostr_eqb (Game.turn g) (Some sid)) then Some Game.not_your_turn
  else if (position <? 0) || (position >? 8) then Some Game.bad_pos
  else if negb (cell_eqb (cell_at (Game.board g) (Z.to_nat position)) Empty)
  then Some Game.occupied
  else None.

Lemma Status_eqb_eq a b : Status_eqb a b = true <-> a = b.
Proof. destruct a, b; simpl; split; congruence. Qed.

Lemma startTurnTimer_fst now g :
  fst (Game.startTurnTimer now g) =
  Game.set_turnDeadlineAt (Some (now + (if Game.isFirstTurn g then 8000 else 5000)))
    (Game.set_turnTimer (Some (now + (if Game.isFirstTurn g then 8000 else 5000))) g).
Proof. by destruct g. Qed.

(** The four guards of [makeMove], in a goal whose hypothesis says
    that none of them fired. *)
Ltac pass_guards :=
  destruct (negb (Status_eqb _ _)); [discriminate|];
  destruct (negb (ostr_eqb _ _)); [discriminate|];
  destruct (_ || _); [discriminate|];
  destruct (negb (cell_eqb _ _)); [discriminate|].

Lemma makeMove_rejected now sid position g r :
  rejection sid position g = Some r ->
  Game.makeMove now sid position g = (Game.Rejected r, g, []).
Proof.
  unfold rejection, Game.makeMove.
  destruct (negb (Status_eqb _ _)); [congruence|].
  destruct (negb (ostr_eqb _ _)); [congruence|].
  destruct (_ || _); [congruence|].
  destruct (negb (cell_eqb _ _)); [congruence|discriminate].
Qed.

Lemma makeMove_accepted now sid position g :
  rejection sid position g = None ->
  Game.ok (fst (fst (Game.makeMove now sid position g))) = true.
Proof.
  unfold rejection, Game.makeMove.
  pass_guards.
  intros _. by destruct (checkWinner _).
Qed.

Lemma rejection_iff sid position g :
  is_Some (rejection sid position g) <->
  (Game.status g <> playing \/ Game.turn g <> Some sid \/
   position < 0 \/ 8 < position \/
   cell_at (Game.board g) (Z.to_nat position) <> Empty).
Proof.
  unfold rejection.
  destruct (Status_eqb (Game.status g) playing) eqn:Es; simpl.
  2:{ split; [|by eauto]. intros _. left. intros E.
      apply Status_eqb_eq in E. congruence. }
  apply Status_eqb_eq in Es.
  destruct (ostr_eqb (Game.turn g) (Some sid)) eqn:Et; simpl.
  2:{ split; [|by eauto]. intros _. right; left. intros E.
      apply ostr_eqb_eq in E. congruence. }
  apply ostr_eqb_eq in Et.
  destruct (position <? 0) eqn:E0; simpl.
  { split; [|by eauto]. intros _. do 2 right. left. lia. }
  destruct (position >? 8) eqn:E8; simpl.
  { split; [|by eauto]. intros _. do 3 right. left. lia. }
  destruct (cell_eqb (cell_at (Game.board g) (Z.to_nat position)) Empty) eqn:Ec; simpl.
  - apply cell_eqb_eq in Ec. split.
    + intros [? ?]; discriminate.
    + intros [?|[?|[?|[?|?]]]]; try done; lia.
  - split; [|by eauto]. intros _. do 4 right. intros E.
    rewrite E in Ec. discriminate.
Qed.

(** *** Counting marks *)

(** Number of cells of a board holding mark [m]. *)
Definition marks (m : mark) (b : list cell) : nat :=
  length (List.filter (fun c => cell_eqb c (Mark m)) b).

Definition flip (m : mark) : mark := match m with X => O | O => X end.

Lemma array_set_length b i v :
  (i < length b)%nat -> length (array_set b i v) = length b.
Proof.
  revert i. induction b as [|c b IH]; intros [|i] H; simpl in *; try lia.
  rewrite IH; lia.
Qed.

Lemma array_set_Forall (P : cell -> Prop) b i v :
  (i < length b)%nat -> P v -> Forall P b -> Forall P (array_set b i v).
Proof.
  revert i. induction b as [|c b IH]; intros [|i] H Hv HF; simpl in *; try lia.
  - inversion HF; subst. by constructor.
  - inversion HF; subst. constructor; [done|]. apply IH; [lia|done|done].
Qed.

Lemma cell_at_lt b i : cell_at b i <> Undef -> (i < length b)%nat.
Proof.
  unfold cell_at. intros H. destruct (Nat.lt_ge_cases i (length b)) as [|Hge]; [done|].
  by rewrite nth_overflow in H.
Qed.

Lemma marks_array_set m m' b i :
  cell_at b i = Empty ->
  marks m (array_set b i (Mark m')) =
  (marks m b + (if mark_eqb m' m then 1 else 0))%nat.
Proof.
  unfold marks, cell_at. revert i.
  induction b as [|c b IH]; intros [|i] H; simpl in *; try discriminate.
  - subst c. simpl. destruct (mark_eqb m' m); simpl; lia.
  - destruct (cell_eqb c (Mark m)); simpl; rewrite IH by done; lia.
Qed.

Lemma marks_empty_board m : marks m empty_board = 0%nat.
Proof. reflexivity. Qed.

(** *** A round between two given participants *)

Section Round.
Variables (p1 p2 : string) (P1 P2 : Player).
Hypothesis Hne : p1 <> p2.
Hypothesis HX : symbol P1 = X.
Hypothesis HO : symbol P2 = O.

Definition sym_of (s : string) : mark := if String.eqb s p1 then X else O.
Definition opp (s : string) : string := if String.eqb s p1 then p2 else p1.

Definition seated (s : string) : Prop := s = p1 \/ s = p2.

Lemma eqb_p1_p2 : String.eqb p1 p2 = false.
Proof. by apply String.eqb_neq. Qed.

Lemma eqb_p2_p1 : String.eqb p2 p1 = false.
Proof. apply String.eqb_neq. congruence. Qed.

Lemma opp_seated s : seated s -> seated (opp s).
Proof.
  unfold opp, seated. intros [->| ->].
  - rewrite String.eqb_refl. by right.
  - rewrite eqb_p2_p1. by left.
Qed.

Lemma sym_of_opp s : seated s -> sym_of (opp s) = flip (sym_of s).
Proof.
  unfold opp, sym_of, seated. intros [->| ->].
  - by rewrite String.eqb_refl, eqb_p2_p1.
  - by rewrite eqb_p2_p1, String.eqb_refl.
Qed.

Lemma find_other s :
  seated s ->
  List.find (fun i => negb (ostr_eqb (Some i) (Some s)))
    (Obj.keys [(p1, P1); (p2, P2)]) = Some (opp s).
Proof.
  unfold opp, seated. intros [->| ->]; simpl.
  - by rewrite !String.eqb_refl, eqb_p2_p1.
  - by rewrite eqb_p1_p2, eqb_p2_p1.
Qed.

Lemma other_than_seated g s :
  Game.players g = [(p1, P1); (p2, P2)] -> seated s ->
  Game.other_than (Some s) g = Some (opp s).
Proof. unfold Game.other_than. intros -> Hs. by apply find_other. Qed.

Lemma symbol_seated g s :
  Game.players g = [(p1, P1); (p2, P2)] -> seated s ->
  symbol <$> Obj.get s (Game.players g) = Some (sym_of s).
Proof.
  unfold sym_of, seated. intros -> [->| ->]; simpl.
  - rewrite !String.eqb_refl. simpl. by rewrite HX.
  - rewrite eqb_p1_p2, eqb_p2_p1, String.eqb_refl. simpl. by rewrite HO.
Qed.

(** The mover expected after [n] placements of a round started by [s]. *)
Definition mover (s : string) (n : nat) : string :=
  if Nat.even n then s else opp s.

(** The state invariant of a round. *)
Definition round_inv (g : Game.t) : Prop :=
  Game.players g = [(p1, P1); (p2, P2)] /\
  length (Game.board g) = 9%nat /\
  Forall (fun c => c <> Undef) (Game.board g) /\
  (Game.status g = playing \/ Game.status g = finished) /\
  exists s, Game.startingPlayer g = Some s /\ seated s /\
    marks (sym_of s) (Game.board g) =
      (marks (flip (sym_of s)) (Game.board g) + (if Nat.even (Game.moveCount g) then 0 else 1))%nat /\
    (marks X (Game.board g) + marks O (Game.board g))%nat = Game.moveCount g /\
    (Game.status g = playing -> Game.turn g = Some (mover s (Game.moveCount g))).

Lemma or_else_cases a b : or_else a b = a \/ or_else a b = b.
Proof. unfold or_else. destruct (truthy a); auto. Qed.

Lemma handleDraw_on_inv now g s :
  Game.players g = [(p1, P1); (p2, P2)] ->
  Game.startingPlayer g = Some s -> seated s ->
  round_inv (fst (handleDraw_on now g)).
Proof.
  intros Hp Hs Hseat. unfold handleDraw_on.
  rewrite Hs, (other_than_seated g s Hp Hseat).
  destruct (or_else_cases (Some (opp s)) (Some s)) as [E|E]; rewrite E; clear E;
    destruct g; simpl in *; subst;
    (repeat split; [by repeat constructor | by left |]).
  - exists (opp s). repeat split; auto using opp_seated.
  - exists s. repeat split; auto.
Qed.

Lemma mover_succ s n : seated s -> mover s (S n) = opp (mover s n).
Proof.
  intros Hs. unfold mover. rewrite Nat.even_succ, <- Nat.negb_even.
  destruct (Nat.even n); simpl; [done|].
  unfold opp. destruct Hs as [->| ->].
  - by rewrite String.eqb_refl, eqb_p2_p1.
  - by rewrite eqb_p2_p1, String.eqb_refl.
Qed.

Lemma mover_seated s n : seated s -> seated (mover s n).
Proof. unfold mover. destruct (Nat.even n); auto using opp_seated. Qed.

Lemma flip_flip m : flip (flip m) = m.
Proof. by destruct m. Qed.

Lemma marks_X_O m b : (marks X b + marks O b = marks m b + marks (flip m) b)%nat.
Proof. destruct m; simpl; lia. Qed.

(** Board bookkeeping after the legal placement of the mover's mark. *)
Lemma placement_counts s n b i :
  seated s -> cell_at b i = Empty ->
  marks (sym_of s) b = (marks (flip (sym_of s)) b + (if Nat.even n then 0 else 1))%nat ->
  (marks X b + marks O b)%nat = n ->
  let b' := array_set b i (Mark (sym_of (mover s n))) in
  marks (sym_of s) b' = (marks (flip (sym_of s)) b' + (if Nat.even (S n) then 0 else 1))%nat /\
  (marks X b' + marks O b')%nat = S n.
Proof.
  intros Hs Hc Hd Ht b'. subst b'.
  rewrite (marks_X_O (sym_of s)) in Ht.
  rewrite (marks_X_O (sym_of s)).
  rewrite !marks_array_set by done.
  rewrite Nat.even_succ, <- Nat.negb_even.
  unfold mover in *. revert Hd Ht. destruct (Nat.even n); simpl.
  - destruct (sym_of s); simpl; lia.
  - rewrite sym_of_opp by done. destruct (sym_of s); simpl; lia.
Qed.

Lemma play_inv now sid position g : round_inv g -> round_inv (play now sid position g).
Proof.
  intros Hinv. unfold play.
  destruct (rejection sid position g) as [r|] eqn:Hrej.
  { by rewrite (makeMove_rejected _ _ _ _ _ Hrej). }
  destruct Hinv as (Hp & Hlen & Hcells & Hst & s & Hs & Hseat & Hd & Ht & Hturn).
  unfold rejection in Hrej. unfold Game.makeMove.
  destruct (negb (Status_eqb _ _)) eqn:E1; [discriminate|].
  destruct (negb (ostr_eqb _ _)) eqn:E2; [discriminate|].
  destruct (_ || _) eqn:E3; [discriminate|].
  destruct (negb (cell_eqb _ _)) eqn:E4; [discriminate|]. clear Hrej.
  apply negb_false_iff in E1, E2, E4.
  apply Status_eqb_eq in E1. apply ostr_eqb_eq in E2. apply cell_eqb_eq in E4.
  specialize (Hturn E1).
  assert (Hi : (Z.to_nat position < length (Game.board g))%nat).
  { apply cell_at_lt. rewrite E4. discriminate. }
  assert (Hsym : Game.currentPlayerSymbol g = Some (sym_of (mover s (Game.moveCount g)))).
  { unfold Game.currentPlayerSymbol. rewrite Hturn.
    apply symbol_seated; [done | by apply mover_seated]. }
  rewrite Hsym.
  destruct (placement_counts s (Game.moveCount g) (Game.board g) (Z.to_nat position)
              Hseat E4 Hd Ht) as [Hd' Ht'].
  set (b' := array_set (Game.board g) (Z.to_nat position)
               (Mark (sym_of (mover s (Game.moveCount g))))) in *.
  assert (Hlen' : length b' = 9%nat) by (unfold b'; by rewrite array_set_length).
  assert (Hcells' : Forall (fun c => c <> Undef) b').
  { unfold b'. by apply array_set_Forall. }
  cbn [Game.board Game.set_moveCount Game.set_isFirstTurn Game.set_board].
  destruct (checkWinner b') as [m l| |] eqn:Hv.
  - (* a win: the match is finished *)
    destruct g; simpl in *. repeat split; auto.
    exists s. repeat split; auto. discriminate.
  - (* a draw: restart in place *)
    apply (handleDraw_on_inv now _ (opp s)).
    + by destruct g.
    + cbn. rewrite Hs. unfold Game.other_than. cbn. rewrite Hp.
      by apply find_other.
    + by apply opp_seated.
  - (* the round goes on *)
    match goal with
    | |- context [Game.other_than ?w ?x] =>
        replace (Game.other_than w x) with (Some (opp (mover s (Game.moveCount g))))
    end.
    2:{ symmetry. cbn [Game.turn Game.set_moveCount Game.set_isFirstTurn Game.set_board].
        rewrite Hturn. apply other_than_seated; [done | by apply mover_seated]. }
    match goal with
    | |- context [Game.startTurnTimer ?n ?x] =>
        pose proof (startTurnTimer_fst n x) as Hg3;
        destruct (Game.startTurnTimer n x) as [g3 effs]
    end.
    simpl in Hg3. subst g3. unfold round_inv. cbn.
    repeat split; auto.
    exists s. repeat split; auto.
    intros _. by rewrite mover_succ.
Qed.

End Round.

(** *** Reachable match states *)

(** States reachable from a fresh two-participant match by calls to
    [makeMove] (each draw being followed by its restart). *)
Inductive reachable : Game.t -> Prop :=
| reach_fresh gid bet p1 a1 b1 p2 a2 b2 coin now :
    p1 <> p2 -> reachable (fresh gid bet p1 a1 b1 p2 a2 b2 coin now)
| reach_play g now sid position :
    reachable g -> reachable (play now sid position g).

Lemma fresh_inv gid bet p1 a1 b1 p2 a2 b2 coin now :
  p1 <> p2 ->
  round_inv p1 p2 (mkPlayer p1 a1 b1 X false) (mkPlayer p2 a2 b2 O false)
    (fresh gid bet p1 a1 b1 p2 a2 b2 coin now).
Proof.
  intros Hne. apply String.eqb_neq in Hne.
  unfold fresh, begin. rewrite startTurnTimer_fst.
  unfold Game.addPlayer, Game.new. cbn. rewrite Hne.
  unfold round_inv, seated.
  destruct coin; cbn -[marks Nat.even String.eqb];
    (split; [done|]); (split; [done|]); (split; [by repeat constructor|]);
    (split; [by left|]).
  - exists p1. repeat split; auto.
  - exists p2. repeat split; auto.
Qed.

Lemma reachable_inv g :
  reachable g ->
  exists p1 p2 P1 P2,
    p1 <> p2 /\ symbol P1 = X /\ symbol P2 = O /\ round_inv p1 p2 P1 P2 g.
Proof.
  induction 1 as [gid bet p1 a1 b1 p2 a2 b2 coin now Hne
                 | g now sid position _ (p1 & p2 & P1 & P2 & Hne & HX & HO & Hinv)].
  - exists p1, p2, (mkPlayer p1 a1 b1 X false), (mkPlayer p2 a2 b2 O false).
    do 3 (split; [done|]). by apply fresh_inv.
  - exists p1, p2, P1, P2. do 3 (split; [done|]). by apply play_inv.
Qed.

Lemma cell_at_array_set b i v : cell_at (array_set b i v) i = v.
Proof.
  unfold cell_at. revert b. induction i as [|i IH]; intros [|c b]; simpl; auto.
Qed.

Lemma makeMove_board now sid position g :
  rejection sid position g = None ->
  Game.board (snd (fst (Game.makeMove now sid position g))) =
  array_set (Game.board g) (Z.to_nat position)
    (match Game.currentPlayerSymbol g with Some m => Mark m | None => Undef end).
Proof.
  unfold rejection, Game.makeMove.
  pass_guards.
  intros _. by destruct (checkWinner _).
Qed.

Lemma ok_not_rejected now sid position g :
  Game.ok (fst (fst (Game.makeMove now sid position g))) = true ->
  rejection sid position g = None.
Proof.
  destruct (rejection sid position g) as [r|] eqn:E; [|done].
  by rewrite (makeMove_rejected now _ _ _ _ E).
Qed.

Lemma rejection_none sid position g :
  rejection sid position g = None ->
  Game.status g = playing /\ Game.turn g = Some sid /\
  0 <= position <= 8 /\ cell_at (Game.board g) (Z.to_nat position) = Empty.
Proof.
  unfold rejection.
  destruct (negb (Status_eqb _ _)) eqn:E1; [discriminate|].
  destruct (negb (ostr_eqb _ _)) eqn:E2; [discriminate|].
  destruct (_ || _) eqn:E3; [discriminate|].
  destruct (negb (cell_eqb _ _)) eqn:E4; [discriminate|]. intros _.
  apply negb_false_iff in E1, E2, E4.
  apply Status_eqb_eq in E1. apply ostr_eqb_eq in E2. apply cell_eqb_eq in E4.
  apply orb_false_iff in E3 as [? ?]. repeat split; auto; lia.
Qed.

(** C7. In every match state reachable from a fresh match through
    [makeMove] and draw-triggered restarts: the board has nine cells, each
    of them empty, X or O; the marks of the two sides differ by at most one
    and the surplus, if any, is held by the mark of the slot that started
    the current round ([startingPlayer]); the move counter equals the
    number of marks; and an accepted move made when an even number [2n] of
    marks is on the board, the (2n+1)-th of the round, is made by the
    starting mover with its own mark, while one made at an odd count is
    made by the other slot with the other mark. *)
Theorem reachable_round_invariant (g : Game.t) :
  reachable g ->
  length (Game.board g) = 9%nat /\
  Forall (fun c => c = Empty \/ c = Mark X \/ c = Mark O) (Game.board g) /\
  exists s m,
    Game.startingPlayer g = Some s /\
    symbol <$> Obj.get s (Game.players g) = Some m /\
    marks m (Game.board g) =
      (marks (flip m) (Game.board g) + (if Nat.even (Game.moveCount g) then 0 else 1))%nat /\
    (marks (flip m) (Game.board g) <= marks m (Game.board g) <= S (marks (flip m) (Game.board g)))%nat /\
    Game.moveCount g = (marks X (Game.board g) + marks O (Game.board g))%nat /\
    forall now sid position,
      Game.ok (fst (fst (Game.makeMove now sid position g))) = true ->
      let placed := cell_at (Game.board (snd (fst (Game.makeMove now sid position g))))
                      (Z.to_nat position) in
      if Nat.even (Game.moveCount g)
      then sid = s /\ placed = Mark m
      else sid <> s /\ placed = Mark (flip m).
Proof.
  intros Hr.
  destruct (reachable_inv g Hr) as (p1 & p2 & P1 & P2 & Hne & HX & HO & Hinv).
  destruct Hinv as (Hp & Hlen & Hcells & Hst & s & Hs & Hseat & Hd & Ht & Hturn).
  split; [done|]. split.
  { eapply List.Forall_impl; [|exact Hcells]. intros [|[]|]; simpl; auto. done. }
  exists s, (sym_of p1 s). split; [done|].
  split; [by apply (symbol_seated p1 p2 P1 P2)|].
  split; [done|]. split.
  { rewrite Hd. destruct (Nat.even _); lia. }
  split; [done|].
  intros now sid position Hok placed. subst placed.
  apply ok_not_rejected in Hok.
  rewrite (makeMove_board _ _ _ _ Hok), cell_at_array_set.
  apply rejection_none in Hok as (Hpl & Hsid & _ & _).
  specialize (Hturn Hpl).
  unfold Game.currentPlayerSymbol. rewrite Hsid.
  assert (Hm : sid = mover p1 p2 s (Game.moveCount g)) by congruence.
  rewrite (symbol_seated p1 p2 P1 P2 Hne HX HO g sid Hp)
    by (rewrite Hm; by apply mover_seated).
  rewrite Hm. unfold mover. destruct (Nat.even (Game.moveCount g)); [done|].
  split.
  - unfold opp. destruct Hseat as [->| ->].
    + rewrite String.eqb_refl. congruence.
    + rewrite (eqb_p2_p1 p1 p2 Hne). done.
  - by rewrite (sym_of_opp p1 p2 Hne).
Qed.

(** A drawn round between two humans, then two moves of the next one. *)
Definition sample_match : Game.t :=
  fold_left (fun g '(s, p) => play 2000 s p g)
    [("alice", 0); ("bob", 1); ("alice", 2); ("bob", 4); ("alice", 3);
     ("bob", 5); ("alice", 7); ("bob", 6); ("alice", 8); ("alice", 4); ("bob", 0)]
    (fresh "game_1" 50 "alice" (Some "alice@speed.app") false
       "bob" (Some "bob@speed.app") false true 1000).

Lemma sample_match_reachable : reachable sample_match.
Proof.
  unfold sample_match. simpl fold_left.
  repeat apply reach_play. apply reach_fresh. discriminate.
Qed.

Lemma reachable_round_invariant_witness :
  reachable sample_match /\
  length (Game.board sample_match) = 9%nat /\
  marks X (Game.board sample_match) = 1%nat /\
  marks O (Game.board sample_match) = 1%nat.
Proof.
  split; [exact sample_match_reachable|].
  pose proof (reachable_round_invariant sample_match sample_match_reachable) as H.
  split; [exact (proj1 H)|]. by vm_compute.
Defined.

(** *** The starter after a draw *)

Lemma makeMove_draw now sid position g o g1 effs :
  Game.makeMove now sid position g = (Game.IsDraw o, g1, effs) ->
  Game.players g1 = Game.players g /\
  Game.startingPlayer g1 = Game.other_than (Game.startingPlayer g) g /\
  o = Game.startingPlayer g1 /\ Game.status g1 = finished /\ effs = [].
Proof.
  unfold Game.makeMove.
  pass_guards.
  destruct (checkWinner _); try discriminate.
  intros [= <- <- <-]. by destruct g.
Qed.

Lemma opp_opp p1 p2 s : p1 <> p2 -> seated p1 p2 s -> opp p1 p2 (opp p1 p2 s) = s.
Proof.
  intros Hne. unfold opp. intros [->| ->].
  - by rewrite String.eqb_refl, (eqb_p2_p1 p1 p2 Hne).
  - by rewrite (eqb_p2_p1 p1 p2 Hne), String.eqb_refl.
Qed.

(** C3 (what the code does). When an accepted move of a two-participant
    match produces a draw, [makeMove] hands the starting-mover role to the
    other slot and [handleDraw], which every caller runs next, hands it
    back: the next round is started by the slot that started the round
    just finished. The board is cleared, the move counter and first-turn
    flag are reset, the match is [playing] again and the deadline of the
    new round is armed with the first-turn allowance. *)
Theorem draw_restart_same_starter
    (p1 p2 : string) (P1 P2 : Player) (now now' : Z) (sid : string) (position : Z)
    (g g1 : Game.t) (o : option string) (effs : list effect) (s : string) :
  p1 <> p2 -> p1 <> "" -> p2 <> "" ->
  Game.players g = [(p1, P1); (p2, P2)] ->
  Game.startingPlayer g = Some s -> s = p1 \/ s = p2 ->
  Game.makeMove now sid position g = (Game.IsDraw o, g1, effs) ->
  let g2 := fst (handleDraw_on now' g1) in
  Game.startingPlayer g1 = Some (opp p1 p2 s) /\
  Game.startingPlayer g2 = Some s /\
  Game.turn g2 = Some s /\
  Game.board g2 = empty_board /\
  Game.moveCount g2 = 0%nat /\
  Game.isFirstTurn g2 = true /\
  Game.status g2 = playing /\
  Game.turnTimer g2 = Some (now' + 8000) /\
  Game.turnDeadlineAt g2 = Some (now' + 8000).
Proof.
  intros Hne Hn1 Hn2 Hp Hs Hseat Hmv g2.
  destruct (makeMove_draw _ _ _ _ _ _ _ Hmv) as (Hp1 & Hs1 & _ & _ & _).
  rewrite Hs, (other_than_seated p1 p2 P1 P2 Hne g s Hp Hseat) in Hs1.
  split; [done|]. subst g2. unfold handleDraw_on.
  rewrite Hs1.
  rewrite (other_than_seated p1 p2 P1 P2 Hne g1 (opp p1 p2 s))
    by (rewrite ?Hp1; auto using opp_seated).
  rewrite (opp_opp p1 p2 s Hne Hseat).
  assert (Htr : or_else (Some s) (Some (opp p1 p2 s)) = Some s).
  { unfold or_else, truthy.
    destruct (String.eqb_spec s ""); [|done].
    destruct Hseat; congruence. }
  rewrite Htr. by destruct g1.
Qed.

(** The drawn round of [sample_match], up to the last move but one. *)
Definition before_draw : Game.t :=
  Eval vm_compute in
    fold_left (fun g '(s, p) => play 2000 s p g)
      [("alice", 0); ("bob", 1); ("alice", 2); ("bob", 4); ("alice", 3);
       ("bob", 5); ("alice", 7); ("bob", 6)]
      (fresh "game_1" 50 "alice" (Some "alice@speed.app") false
         "bob" (Some "bob@speed.app") false true 1000).

Lemma draw_restart_same_starter_witness :
  let '(r, g1, _) := Game.makeMove 3000 "alice" 8 before_draw in
  r = Game.IsDraw (Some "bob") /\
  Game.startingPlayer before_draw = Some "alice" /\
  Game.startingPlayer (fst (handleDraw_on 3000 g1)) = Some "alice" /\
  Game.turn (fst (handleDraw_on 3000 g1)) = Some "alice".
Proof.
  destruct (Game.makeMove 3000 "alice" 8 before_draw) as [[r g1] effs] eqn:E.
  assert (Hr : r = Game.IsDraw (Some "bob")) by (vm_compute in E; congruence).
  subst r.
  pose proof (draw_restart_same_starter "alice" "bob"
                (mkPlayer "alice" (Some "alice@speed.app") false X false)
                (mkPlayer "bob" (Some "bob@speed.app") false O false)
                3000 3000 "alice" 8 before_draw g1 (Some "bob") effs "alice"
                ltac:(discriminate) ltac:(discriminate) ltac:(discriminate)
                eq_refl eq_refl (or_introl eq_refl) E) as H.
  split; [done|]. split; [reflexivity|].
  exact (conj (proj1 (proj2 H)) (proj1 (proj2 (proj2 H)))).
Defined.

(** ** Outcome scripter ([BotPlayer.determineOutcome]) *)

Inductive token := W | L.

Definition PATTERN_50_SATS : list token := [W; L; W; W; L; L; L; W; L].
Definition PATTERN_300_PLUS : list token := [L; W; L; W; L; L; W; L; W].

(** An entry of [playerHistory]. *)
Record History := mkHistory {
  patternIndex50 : nat;
  patternIndex300 : nat;
  gamesPlayed : nat
}.

(** An entry of [betHistory]. *)
Record BetInfo := mkBetInfo {
  lastBet : option Z;
  lastResult : option token;
  gameCount : nat;
  consecutiveSameBet : nat
}.

(** The two module-level maps of [botLogic.js], keyed by lightning
    address. *)
Record Store := mkStore {
  playerHistory : gmap string History;
  betHistory : gmap string BetInfo
}.

Definition empty_store : Store := mkStore ∅ ∅.

(** The [pattern] field of the [bot_outcome_determined] log entry; the two
    random exits log nothing. *)
Inductive label := p50_sats | p300_plus_revenge | p300_plus | unlogged.

Record decision := mkDecision {
  mustWin : bool;   (* the value returned, stored as [shouldWin] *)
  via : label
}.

(** [outcome === 'W'] where [outcome] may be [undefined] *)
Definition is_W (o : option token) : bool :=
  match o with Some W => true | _ => false end.

(** [a < b] on rationals, as a boolean *)
Definition Qltb (a b : Q) : bool := negb (Qle_bool b a).

(** [PATTERN[i % PATTERN.length]] *)
Definition pattern_at (p : list token) (i : nat) : option token :=
  nth_error p (i mod length p).

(** [determineOutcome()] for a bot created with [opponentAddress] and
    [betAmount]; [r] is the value [Math.random()] yields if it is called. *)
Definition determineOutcome (opponentAddress : option string) (betAmount : Z) (r : Q)
    (st : Store) : decision * Store :=
  match opponentAddress with
  | None => (mkDecision (Qltb (1 # 2) r) unlogged, st)
  | Some a =>
      if String.eqb a "" then (mkDecision (Qltb (1 # 2) r) unlogged, st)
      else
        let ph := match playerHistory st !! a with
                  | Some _ => playerHistory st
                  | None => <[a := mkHistory 0 0 0]> (playerHistory st)
                  end in
        let history := default (mkHistory 0 0 0) (ph !! a) in
        if betAmount =? 50 then
          let outcome := pattern_at PATTERN_50_SATS (patternIndex50 history) in
          let history' := mkHistory (S (patternIndex50 history)) (patternIndex300 history)
                            (S (gamesPlayed history)) in
          (mkDecision (is_W outcome) p50_sats,
           mkStore (<[a := history']> ph) (betHistory st))
        else if 300 <=? betAmount then
          let bh := match betHistory st !! a with
                    | Some _ => betHistory st
                    | None => <[a := mkBetInfo None None 0 0]> (betHistory st)
                    end in
          let betInfo := default (mkBetInfo None None 0 0) (bh !! a) in
          if match lastBet betInfo with Some b => b =? betAmount | None => false end
             && match lastResult betInfo with Some L => true | _ => false end
             && (gameCount betInfo =? 1)%nat
          then
            let betInfo' := mkBetInfo (lastBet betInfo) (Some W) (S (gameCount betInfo))
                              (consecutiveSameBet betInfo) in
            (mkDecision false p300_plus_revenge, mkStore ph (<[a := betInfo']> bh))
          else
            let outcome := pattern_at PATTERN_300_PLUS (patternIndex300 history) in
            let history' := mkHistory (patternIndex50 history) (S (patternIndex300 history))
                              (S (gamesPlayed history)) in
            let betInfo' := mkBetInfo (Some betAmount) (Some (if is_W outcome then W else L))
                              (S (gameCount betInfo)) (consecutiveSameBet betInfo) in
            (mkDecision (is_W outcome) p300_plus,
             mkStore (<[a := history']> ph) (<[a := betInfo']> bh))
        else (mkDecision (Qltb (1 # 2) r) unlogged, mkStore ph (betHistory st))
  end.

(** A request for a decision: the opponent's address, the wager, and the
    random draw available to the call. *)
Record request := mkRequest {
  req_address : option string;
  req_bet : Z;
  req_random : Q
}.

(** Successive decisions, each paired with its request. *)
Fixpoint decide_all (reqs : list request) (st : Store) : list (request * decision) :=
  match reqs with
  | [] => []
  | q :: t =>
      let '(d, st') := determineOutcome (req_address q) (req_bet q) (req_random q) st in
      (q, d) :: decide_all t st'
  end.

(** The wager-tier buckets and their scripts. *)
Inductive bucket := sats50 | sats300plus.

Definition in_bucket (b : bucket) (bet : Z) : bool :=
  match b with
  | sats50 => bet =? 50
  | sats300plus => 300 <=? bet
  end.

Definition script (b : bucket) : list token :=
  match b with
  | sats50 => PATTERN_50_SATS
  | sats300plus => PATTERN_300_PLUS
  end.

Definition is_revenge (d : decision) : bool :=
  match via d with p300_plus_revenge => true | _ => false end.

(** The cursor of identity [a] in the script of bucket [b]. *)
Definition cursor (b : bucket) (a : string) (st : Store) : nat :=
  match playerHistory st !! a with
  | Some h => match b with
              | sats50 => patternIndex50 h
              | sats300plus => patternIndex300 h
              end
  | None => 0
  end.

(** A decision of identity [a] in bucket [b] that is not a rematch
    override. *)
Definition scripted (b : bucket) (a : string) (qd : request * decision) : bool :=
  ostr_eqb (req_address (fst qd)) (Some a)
  && in_bucket b (req_bet (fst qd))
  && negb (is_revenge (snd qd)).

(** The [n] verdicts the script of [b] prescribes from cursor [c] on. *)
Definition cycled (b : bucket) (c n : nat) : list bool :=
  map (fun k => is_W (pattern_at (script b) (c + k))) (seq 0 n).

(** *** The script is followed cyclically *)

Lemma cycled_S b c n :
  cycled b c (S n) = is_W (pattern_at (script b) c) :: cycled b (S c) n.
Proof.
  unfold cycled. simpl. rewrite Nat.add_0_r. f_equal.
  rewrite <- seq_shift, map_map. apply map_ext. intros k.
  by rewrite Nat.add_succ_r.
Qed.

(** One decision, seen from the cursor of identity [a] in bucket [b]: a
    scripted decision reads the token under the cursor and advances it;
    any other decision leaves the cursor alone. *)
Lemma determineOutcome_cursor b a q st :
  a <> "" ->
  let '(d, st') := determineOutcome (req_address q) (req_bet q) (req_random q) st in
  if scripted b a (q, d)
  then mustWin d = is_W (pattern_at (script b) (cursor b a st))
       /\ cursor b a st' = S (cursor b a st)
  else cursor b a st' = cursor b a st.
Proof.
  intros Ha. destruct q as [[a'|] bet r]; unfold determineOutcome, scripted; simpl.
  2:{ done. }
  destruct (String.eqb_spec a' "") as [->|Ha'].
  { destruct a; [done | by simpl]. }
  destruct (String.eqb_spec a' a) as [->|Hne].
  - (* the identity itself *)
    unfold cursor.
    destruct (bet =? 50) eqn:E50.
    { assert ((300 <=? bet) = false) by lia.
      destruct b; simpl; rewrite ?E50, ?H; simpl;
        destruct (playerHistory st !! a) as [h|] eqn:Eh; simpl;
        simplify_map_eq; done. }
    destruct (300 <=? bet) eqn:E300.
    2:{ destruct b; simpl; rewrite ?E50, ?E300; simpl;
          destruct (playerHistory st !! a) as [h|] eqn:Eh; simpl;
          simplify_map_eq; done. }
    match goal with
    | |- context [if ?c then (mkDecision false p300_plus_revenge, _) else _] =>
        destruct c
    end.
    + destruct b; simpl; rewrite ?E50, ?E300; simpl;
        destruct (playerHistory st !! a) as [h|] eqn:Eh; simpl;
        simplify_map_eq; done.
    + destruct b; simpl; rewrite ?E50, ?E300; simpl;
        destruct (playerHistory st !! a) as [h|] eqn:Eh; simpl;
        simplify_map_eq; done.
  - (* another identity *)
    simpl. unfold cursor.
    destruct (bet =? 50); [|destruct (300 <=? bet);
      [match goal with
       | |- context [if ?c then (mkDecision false p300_plus_revenge, _) else _] =>
           destruct c
       end|]];
      simpl; destruct (playerHistory st !! a') as [h|] eqn:Eh; simpl;
      simplify_map_eq; done.
Qed.

Lemma decide_all_cycled b a reqs st :
  a <> "" ->
  map (fun qd => mustWin (snd qd)) (List.filter (scripted b a) (decide_all reqs st)) =
  cycled b (cursor b a st) (length (List.filter (scripted b a) (decide_all reqs st))).
Proof.
  intros Ha. revert st. induction reqs as [|q t IH]; intros st; simpl; [done|].
  pose proof (determineOutcome_cursor b a q st Ha) as Hstep.
  destruct (determineOutcome _ _ _ st) as [d st']. simpl.
  destruct (scripted b a (q, d)); simpl.
  - destruct Hstep as [Hd Hc]. rewrite cycled_S, IH, Hc, Hd. done.
  - rewrite IH, Hstep. done.
Qed.

Lemma cycled_nth b c n k :
  (k < n)%nat -> nth_error (cycled b c n) k = Some (is_W (pattern_at (script b) (c + k))).
Proof.
  intros Hk. unfold cycled.
  rewrite nth_error_map, nth_error_seq.
  destruct (Nat.ltb_spec k n); [done | lia].
Qed.

Lemma script_length b : length (script b) = 9%nat.
Proof. by destruct b. Qed.

(** C1. For every tracked identity [a] (a non-empty lightning address) and
    either bucket, in any sequence of decisions made from the initial
    store - whatever other identities, wagers and rematch overrides are
    interleaved - the [N]-th decision of [a] in that bucket that is not a
    rematch override returns the token at position [(N-1) mod 9] of the
    bucket's script ([k] below is [N-1]); so the tenth repeats the first.
    An override does not advance the cursor. *)
Theorem script_followed_cyclically (b : bucket) (a : string) (reqs : list request)
    (k : nat) (q : request) (d : decision) :
  a <> "" ->
  nth_error (List.filter (scripted b a) (decide_all reqs empty_store)) k = Some (q, d) ->
  mustWin d = is_W (nth_error (script b) (k mod 9))
  /\ nth_error (script b) ((k + 9) mod 9) = nth_error (script b) (k mod 9).
Proof.
  intros Ha Hk. split.
  - pose proof (decide_all_cycled b a reqs empty_store Ha) as H.
    assert (Hlt : (k < length (List.filter (scripted b a) (decide_all reqs empty_store)))%nat).
    { apply nth_error_Some. by rewrite Hk. }
    apply (f_equal (fun l => nth_error l k)) in H.
    rewrite nth_error_map, Hk, cycled_nth in H by done. simpl in H.
    injection H as ->. unfold pattern_at. by rewrite script_length.
  - f_equal. replace (k + 9)%nat with (k + 1 * 9)%nat by lia.
    by rewrite Nat.Div0.mod_add.
Qed.

Definition alice : option string := Some "alice@speed.app".
Definition bob : option string := Some "bob@speed.app".

(** Six decisions: alice at 300 three times (the second is the rematch
    override), bob at 50, alice at 50, alice at 300 again. *)
Definition sample_requests : list request :=
  [ mkRequest alice 300 0; mkRequest alice 300 0; mkRequest alice 300 0;
    mkRequest bob 50 0; mkRequest alice 50 0; mkRequest alice 300 0 ].

Lemma script_followed_cyclically_witness :
  "alice@speed.app" <> "" /\
  map (fun qd => via (snd qd)) (decide_all sample_requests empty_store) =
    [p300_plus; p300_plus_revenge; p300_plus; p50_sats; p50_sats; p300_plus] /\
  nth_error (List.filter (scripted sats300plus "alice@speed.app")
               (decide_all sample_requests empty_store)) 2 =
    Some (mkRequest alice 300 0, mkDecision false p300_plus) /\
  false = is_W (nth_error (script sats300plus) (2 mod 9)).
Proof.
  split; [discriminate|]. split; [by vm_compute|].
  assert (H : nth_error (List.filter (scripted sats300plus "alice@speed.app")
                           (decide_all sample_requests empty_store)) 2 =
              Some (mkRequest alice 300 0, mkDecision false p300_plus))
    by (by vm_compute).
  split; [exact H|].
  exact (proj1 (script_followed_cyclically sats300plus "alice@speed.app"
                  sample_requests 2 _ _ ltac:(discriminate) H)).
Defined.

(** *** The rematch override *)

(** A high-tier decision of identity [a]. *)
Definition high_tier (a : string) (qd : request * decision) : bool :=
  ostr_eqb (req_address (fst qd)) (Some a) && (300 <=? req_bet (fst qd)).

(** Where the override sits among the high-tier decisions of one
    identity, given their wagers in order: at the second one, if it
    repeats the wager of the first. *)
Definition rematch_slots (bets : list Z) : list bool :=
  match bets with
  | b0 :: b1 :: rest => false :: (b0 =? b1) :: map (fun _ => false) rest
  | _ => map (fun _ => false) bets
  end.

(** What [betHistory] knows of an identity: nothing yet, one high-tier
    decision (a scripted [L] at wager [b0]), or more. *)
Inductive phase := Fresh | Once (b0 : Z) | Settled.

Definition in_phase (a : string) (st : Store) (ph : phase) : Prop :=
  match ph with
  | Fresh => betHistory st !! a = None /\ cursor sats300plus a st = 0%nat
  | Once b0 =>
      exists bi, betHistory st !! a = Some bi /\ gameCount bi = 1%nat /\
                 lastResult bi = Some L /\ lastBet bi = Some b0
  | Settled => exists bi, betHistory st !! a = Some bi /\ (2 <= gameCount bi)%nat
  end.

Definition next_phase (ph : phase) (bet : Z) : phase :=
  match ph with Fresh => Once bet | _ => Settled end.

Definition fires (ph : phase) (bet : Z) : bool :=
  match ph with Once b0 => b0 =? bet | _ => false end.

Fixpoint overrides (ph : phase) (bets : list Z) : list bool :=
  match bets with
  | [] => []
  | b :: t => fires ph b :: overrides (next_phase ph b) t
  end.

Lemma overrides_later bets : overrides Settled bets = map (fun _ => false) bets.
Proof. induction bets as [|b t IH]; simpl; [done | by rewrite IH]. Qed.

Lemma overrides_fresh bets : overrides Fresh bets = rematch_slots bets.
Proof.
  destruct bets as [|b0 [|b1 rest]]; simpl; try done.
  by rewrite overrides_later.
Qed.

(** One decision, seen from the phase of identity [a]. *)
Lemma determineOutcome_phase a ph q st :
  a <> "" -> in_phase a st ph ->
  let '(d, st') := determineOutcome (req_address q) (req_bet q) (req_random q) st in
  if high_tier a (q, d)
  then in_phase a st' (next_phase ph (req_bet q))
       /\ is_revenge d = fires ph (req_bet q)
       /\ (is_revenge d = true -> mustWin d = false)
       /\ (ph = Fresh -> d = mkDecision false p300_plus)
  else in_phase a st' ph.
Proof.
  intros Ha Hph. destruct q as [[a'|] bet r]; unfold determineOutcome, high_tier; simpl.
  2:{ done. }
  destruct (String.eqb_spec a' "") as [->|Ha'].
  { destruct a; [done | by simpl]. }
  destruct (String.eqb_spec a' a) as [->|Hne].
  - (* the identity itself *)
    destruct (bet =? 50) eqn:E50.
    { assert ((300 <=? bet) = false) as -> by lia. simpl.
      destruct ph as [|b0|]; simpl in *; unfold cursor in *; simpl;
        destruct (playerHistory st !! a) as [h|] eqn:Eh; simpl;
        simplify_map_eq; done. }
    destruct (300 <=? bet) eqn:E300; simpl.
    2:{ destruct ph as [|b0|]; simpl in *; unfold cursor in *; simpl;
          destruct (playerHistory st !! a) as [h|] eqn:Eh; simpl;
          simplify_map_eq; done. }
    destruct ph as [|b0|]; simpl in *.
    + (* first high-tier decision *)
      destruct Hph as [Hb Hc]. rewrite Hb. simplify_map_eq.
      unfold cursor in *. simpl.
      destruct (playerHistory st !! a) as [h|] eqn:Eh; simplify_map_eq;
        rewrite ?Hc; (repeat split; try done); eexists; by simplify_map_eq.
    + (* second high-tier decision *)
      destruct Hph as (bi & Hb & Hg & Hr & Hl). rewrite Hb. simplify_map_eq.
      rewrite ?Hl, ?Hr, ?Hg. simpl. rewrite ?andb_true_r.
      destruct (b0 =? bet) eqn:Eb; simpl.
      * repeat split; try done. eexists. simplify_map_eq. split; [done|]. simpl. lia.
      * repeat split; try done. eexists. simplify_map_eq. split; [done|]. simpl. lia.
    + (* later ones *)
      destruct Hph as (bi & Hb & Hg). rewrite Hb. simplify_map_eq.
      assert ((gameCount bi =? 1)%nat = false) as -> by (apply Nat.eqb_neq; lia).
      rewrite andb_false_r. simpl.
      repeat split; try done. eexists. simplify_map_eq. split; [done|]. simpl. lia.
  - (* another identity *)
    simpl.
    assert (Hkeep : forall st' : Store,
               betHistory st' !! a = betHistory st !! a ->
               playerHistory st' !! a = playerHistory st !! a ->
               in_phase a st' ph).
    { intros st' Hb Hp. destruct ph; simpl in *; unfold cursor in *;
        rewrite ?Hb, ?Hp; done. }
    destruct (bet =? 50); [|destruct (300 <=? bet);
      [match goal with
       | |- context [if ?c then (mkDecision false p300_plus_revenge, _) else _] =>
           destruct c
       end|]];
      apply Hkeep; simpl;
      destruct (playerHistory st !! a') as [h|] eqn:Eh;
      destruct (betHistory st !! a') as [bi|] eqn:Eb; simpl;
      by simplify_map_eq.
Qed.

Lemma decide_all_overrides a ph reqs st :
  a <> "" -> in_phase a st ph ->
  let his := List.filter (high_tier a) (decide_all reqs st) in
  map (fun qd => is_revenge (snd qd)) his = overrides ph (map (fun qd => req_bet (fst qd)) his)
  /\ Forall (fun qd => is_revenge (snd qd) = true -> mustWin (snd qd) = false) his
  /\ (ph = Fresh -> forall q d, nth_error his 0 = Some (q, d) -> d = mkDecision false p300_plus).
Proof.
  intros Ha. revert ph st. induction reqs as [|q t IH]; intros ph st Hph; simpl.
  { repeat split; [constructor | intros _ q d; discriminate]. }
  pose proof (determineOutcome_phase a ph q st Ha Hph) as Hstep.
  destruct (determineOutcome _ _ _ st) as [d st']. simpl.
  destruct (high_tier a (q, d)); simpl.
  - destruct Hstep as (Hph' & Hf & Hm & H0).
    destruct (IH _ _ Hph') as (IH1 & IH2 & _).
    rewrite Hf, IH1. repeat split; [by constructor|].
    intros Hfresh q' d' [= <- <-]. by apply H0.
  - by apply IH.
Qed.

(** C2 (as the code has it). Among the decisions of a tracked identity at
    wagers of 300 or more, counted across all such wagers from the initial
    store: the first is always the scripted token [L] (returned as
    [mustWin = false]); the rematch override fires exactly at the second
    one, and only if it repeats the wager of the first; it returns
    [mustWin = false] - the automated opponent is told to lose; it never
    fires again, and a second decision at another wager does not trigger
    it. *)
Theorem rematch_override_once (a : string) (reqs : list request) :
  a <> "" ->
  let his := List.filter (high_tier a) (decide_all reqs empty_store) in
  map (fun qd => is_revenge (snd qd)) his
    = rematch_slots (map (fun qd => req_bet (fst qd)) his)
  /\ Forall (fun qd => is_revenge (snd qd) = true -> mustWin (snd qd) = false) his
  /\ (forall q d, nth_error his 0 = Some (q, d) -> d = mkDecision false p300_plus).
Proof.
  intros Ha his.
  destruct (decide_all_overrides a Fresh reqs empty_store Ha) as (H1 & H2 & H3).
  { split; [apply lookup_empty | done]. }
  fold his in H1, H2, H3. rewrite overrides_fresh in H1.
  split; [exact H1|]. split; [exact H2|]. by apply H3.
Qed.

Lemma rematch_override_once_witness :
  "alice@speed.app" <> "" /\
  map (fun qd => is_revenge (snd qd))
    (List.filter (high_tier "alice@speed.app") (decide_all sample_requests empty_store))
  = [false; true; false; false].
Proof.
  split; [discriminate|].
  rewrite (proj1 (rematch_override_once "alice@speed.app" sample_requests
                    ltac:(discriminate))).
  by vm_compute.
Defined.

(** The claim of the specification fails on the code: after a first
    high-tier decision that is a scripted loss, the next decision at the
    same wager is the override and returns [mustWin = false], not [true];
    and after a change of wager the return to the first wager is an
    ordinary scripted decision. *)
Lemma rematch_returns_false :
  map snd (decide_all [mkRequest alice 300 0; mkRequest alice 300 0] empty_store)
    = [mkDecision false p300_plus; mkDecision false p300_plus_revenge]
  /\ map snd (decide_all [mkRequest alice 300 0; mkRequest alice 500 0;
                          mkRequest alice 300 0] empty_store)
    = [mkDecision false p300_plus; mkDecision true p300_plus; mkDecision false p300_plus].
Proof. split; by vm_compute. Qed.

(** ** The automated opponent ([class BotPlayer]) *)

(** *** Random draws *)

(** Computations that call [Math.random()]: they read a tape of draws from
    a position on and return the position reached. *)
Definition Rand (A : Type) : Type := (nat -> Q) -> nat -> A * nat.

Definition ret {A} (x : A) : Rand A := fun _ n => (x, n).

Definition bind {A B} (m : Rand A) (f : A -> Rand B) : Rand B :=
  fun t n => let '(a, n') := m t n in f a t n'.

Notation "x <- m ;; k" := (bind m (fun x => k))
  (at level 100, m at level 99, k at level 100, only parsing).

(** [Math.random()] *)
Definition random : Rand Q := fun t n => (t n, S n).

(** [Math.floor(Math.random() * len)] *)
Definition random_index (len : nat) : Rand nat :=
  r <- random ;; ret (Z.to_nat (Qfloor (r * inject_Z (Z.of_nat len)))).

(** [arr[Math.floor(Math.random() * arr.length)]] *)
Definition pick (arr : list nat) : Rand (option nat) :=
  i <- random_index (length arr) ;; ret (nth_error arr i).

(** Every draw of the tape lies in [0,1). *)
Definition in_range (t : nat -> Q) : Prop := forall n, (0 <= t n)%Q /\ (t n < 1)%Q.

(** [a || b] on cell indices: [null], [undefined] and [0] are falsy. *)
Definition or_move (a : option nat) (b : Rand (option nat)) : Rand (option nat) :=
  match a with
  | Some (S i) => ret (Some (S i))
  | _ => b
  end.

(** *** Move selection *)

(** [board.map((cell, i) => cell === null ? i : -1).filter(i => i !== -1)] *)
Definition available (board : list cell) : list nat :=
  List.filter (fun i => is_null (cell_at board i)) (seq 0 (length board)).

(** The test of [evaluateBoard] on one line for mark [m]: two cells hold
    [m] and one is [null]; the result is [line[values.indexOf(null)]]. *)
Definition critical_cell (m : mark) (board : list cell) (l : line) : option nat :=
  let '(a, b, c) := l in
  let values := [cell_at board a; cell_at board b; cell_at board c] in
  if (length (List.filter (fun v => cell_eqb v (Mark m)) values) =? 2)%nat
     && existsb is_null values
  then if is_null (cell_at board a) then Some a
       else if is_null (cell_at board b) then Some b
       else Some c
  else None.

Fixpoint first_critical (m : mark) (board : list cell) (ls : list line) : option nat :=
  match ls with
  | [] => None
  | l :: t =>
      match critical_cell m board l with
      | Some i => Some i
      | None => first_critical m board t
      end
  end.

(** [evaluateBoard(board)]: a cell completing a line of ['O'], else a cell
    blocking a line of ['X'], else [null]. *)
Definition evaluateBoard (board : list cell) : option nat :=
  match first_critical O board lines with
  | Some i => Some i
  | None => first_critical X board lines
  end.

(** [getStrategicMove(board)] *)
Definition getStrategicMove (board : list cell) : Rand (option nat) :=
  match evaluateBoard board with
  | Some i => ret (Some i)
  | None =>
      if is_null (cell_at board 4) then ret (Some 4%nat)
      else
        let corners := List.filter (fun i => is_null (cell_at board i)) [0; 2; 6; 8]%nat in
        if (0 <? length corners)%nat then pick corners
        else
          let edges := List.filter (fun i => is_null (cell_at board i)) [1; 3; 5; 7]%nat in
          if (0 <? length edges)%nat then pick edges
          else ret None
  end.

(** [makeNoobMove(board)] *)
Definition makeNoobMove (board : list cell) : Rand (option nat) :=
  let avail := available board in
  let rest :=
    r2 <- random ;;
    if Qltb r2 (6 # 10) then pick avail
    else s <- getStrategicMove board ;; or_move s (pick avail) in
  r1 <- random ;;
  if Qltb r1 (5 # 10) then
    match evaluateBoard board with
    | Some winMove =>
        let otherMoves := List.filter (fun m => negb (m =? winMove)%nat) avail in
        if (0 <? length otherMoves)%nat then pick otherMoves else rest
    | None => rest
    end
  else rest.

(** The loop of [makeSillyMistake]: at the first line where X has two
    cells and one is free, and some other free cell exists, play one of
    those other cells. *)
Fixpoint silly_scan (board : list cell) (avail : list nat) (ls : list line)
  : Rand (option nat) :=
  match ls with
  | [] => pick avail
  | l :: t =>
      match critical_cell X board l with
      | Some blockMove =>
          let nonBlockMoves := List.filter (fun m => negb (m =? blockMove)%nat) avail in
          if (0 <? length nonBlockMoves)%nat then pick nonBlockMoves
          else silly_scan board avail t
      | None => silly_scan board avail t
      end
  end.

(** [makeSillyMistake(board)] *)
Definition makeSillyMistake (board : list cell) : Rand (option nat) :=
  silly_scan board (available board) lines.

Module BotPlayer.

Record t := mk {
  gameId : string;
  betAmount : Z;
  opponentAddress : option string;
  moveHistory : list (nat * list cell);
  thinkingTime : Z;
  shouldWin : bool;
  drawCount : nat;
  maxDrawsBeforeEnd : nat
}.

Definition set_drawCount v b := mk (gameId b) (betAmount b) (opponentAddress b)
  (moveHistory b) (thinkingTime b) (shouldWin b) v (maxDrawsBeforeEnd b).
Definition set_thinkingTime v b := mk (gameId b) (betAmount b) (opponentAddress b)
  (moveHistory b) v (shouldWin b) (drawCount b) (maxDrawsBeforeEnd b).

(** [generateThinkingTime()] *)
Definition generateThinkingTime : Rand Z :=
  r <- random ;; ret (Qfloor (r * 3000) + 2000).

(** [constructor(gameId, betAmount, opponentAddress)], threading the
    scripter's store. [determineOutcome] receives the next draw of the
    tape and consumes it only on its random exits. *)
Definition new (gid : string) (bet : Z) (addr : option string) (st : Store)
  : Rand (t * Store) :=
  think <- generateThinkingTime ;;
  fun tape n =>
    let '(d, st') := determineOutcome addr bet (tape n) st in
    let n1 := match via d with unlogged => S n | _ => n end in
    let maxDraws := if mustWin d
                    then (Z.to_nat (Qfloor (tape n1 * 2)) + 3)%nat
                    else (Z.to_nat (Qfloor (tape n1 * 4)) + 2)%nat in
    ((mk gid bet addr [] think (mustWin d) 0 maxDraws, st'), S n1).

(** [checkPotentialDraw(board)]: counts a call, not a drawn game. *)
Definition checkPotentialDraw (board : list cell) (b : t) : bool * t :=
  let filledCells := length (List.filter (fun c => negb (is_null c)) board) in
  if (5 <=? filledCells)%nat then (true, set_drawCount (S (drawCount b)) b)
  else (false, b).

(** [getNextMove(board, moveCount)] *)
Definition getNextMove (board : list cell) (b : t) : Rand (option nat * t) :=
  let avail := available board in
  if (length avail =? 0)%nat then ret (None, b)
  else
    let '(isDraw, b1) := checkPotentialDraw board b in
    if isDraw && (maxDrawsBeforeEnd b1 <=? drawCount b1)%nat then
      if shouldWin b1 then
        winningMove <- getStrategicMove board ;;
        m <- or_move winningMove (ret (nth_error avail 0)) ;;
        ret (m, b1)
      else
        m <- makeSillyMistake board ;; ret (m, b1)
    else if shouldWin b1 then
      r <- random ;;
      if Qltb r (9 # 10) then
        s <- getStrategicMove board ;;
        m <- or_move s (pick avail) ;;
        ret (m, b1)
      else
        m <- pick avail ;; ret (m, b1)
    else
      r <- random ;;
      if Qltb r (4 # 10) then
        s <- getStrategicMove board ;;
        m <- or_move s (pick avail) ;;
        ret (m, b1)
      else
        m <- makeNoobMove board ;; ret (m, b1).

End BotPlayer.

(** *** A match of the opponent against a human on a bare board *)

(** The human (X) plays the cells of [moves] in turn, each answered by the
    session's [getNextMove] (O); play stops at an illegal human move or
    when the board is decided. Returns the last board. *)
Fixpoint duel (moves : list nat) (board : list cell) (b : BotPlayer.t)
    (tape : nat -> Q) (n : nat) : list cell :=
  match moves with
  | [] => board
  | h :: rest =>
      if negb (is_null (cell_at board h)) then board
      else
        let board1 := array_set board h (Mark X) in
        match checkWinner board1 with
        | Ongoing =>
            let '((m, b'), n') := BotPlayer.getNextMove board1 b tape n in
            match m with
            | Some i =>
                let board2 := array_set board1 i (Mark O) in
                match checkWinner board2 with
                | Ongoing => duel rest board2 b' tape n'
                | _ => board2
                end
            | None => board1
            end
        | _ => board1
        end
  end.

(** *** Legality of the selected cell *)

Lemma random_index_lt len t n :
  in_range t -> (0 < len)%nat ->
  exists i, random_index len t n = (i, S n) /\ (i < len)%nat.
Proof.
  intros Ht Hlen. unfold random_index, bind, random, ret.
  eexists. split; [reflexivity|].
  destruct (Ht n) as [H0 H1].
  set (x := (t n * inject_Z (Z.of_nat len))%Q).
  assert (Hlen' : (0 < inject_Z (Z.of_nat len))%Q).
  { change 0%Q with (inject_Z 0). rewrite <- Zlt_Qlt. lia. }
  assert (Hx0 : (0 <= x)%Q).
  { unfold x. apply Qmult_le_0_compat; [done | by apply Qlt_le_weak]. }
  assert (Hx1 : (x < inject_Z (Z.of_nat len))%Q).
  { unfold x. rewrite <- (Qmult_1_l (inject_Z (Z.of_nat len))) at 2.
    by apply Qmult_lt_compat_r. }
  assert (Hf0 : 0 <= Qfloor x).
  { change 0 with (Qfloor (inject_Z 0)) at 1. by apply Qfloor_resp_le. }
  assert (Hf1 : Qfloor x < Z.of_nat len).
  { rewrite Zlt_Qlt. eapply Qle_lt_trans; [apply Qfloor_le | exact Hx1]. }
  lia.
Qed.

Lemma pick_In arr t n :
  in_range t -> arr <> [] ->
  exists x, pick arr t n = (Some x, S n) /\ In x arr.
Proof.
  intros Ht Harr. unfold pick, bind.
  destruct (random_index_lt (length arr) t n Ht) as (i & -> & Hi).
  { destruct arr; [done | simpl; lia]. }
  unfold ret. destruct (nth_error arr i) as [x|] eqn:E.
  - exists x. split; [done|]. by apply nth_error_In in E.
  - apply nth_error_None in E. lia.
Qed.

(** Uniformity of the draw: index [k] is selected exactly for the draws
    of the interval [[k/len, (k+1)/len)], so each index of the array has
    the same share of [0,1). *)
Lemma random_index_interval len k t n :
  (inject_Z (Z.of_nat k) <= t n * inject_Z (Z.of_nat len))%Q ->
  (t n * inject_Z (Z.of_nat len) < inject_Z (Z.of_nat k + 1))%Q ->
  random_index len t n = (k, S n).
Proof.
  intros Hlo Hhi. unfold random_index, bind, random, ret. f_equal.
  set (x := (t n * inject_Z (Z.of_nat len))%Q) in *.
  assert (H1 : Z.of_nat k <= Qfloor x).
  { rewrite <- (Qfloor_Z (Z.of_nat k)). by apply Qfloor_resp_le. }
  assert (H2 : Qfloor x < Z.of_nat k + 1).
  { rewrite Zlt_Qlt. eapply Qle_lt_trans; [apply Qfloor_le | exact Hhi]. }
  lia.
Qed.

(** A cell index that is [null] on the board. *)
Definition free (board : list cell) (i : nat) : Prop := cell_at board i = Empty.

Lemma is_null_free board i : is_null (cell_at board i) = true <-> free board i.
Proof. unfold free. destruct (cell_at board i); simpl; split; congruence. Qed.

Lemma available_free board i : In i (available board) -> free board i.
Proof.
  unfold available. rewrite List.filter_In. intros [_ H]. by apply is_null_free.
Qed.

Lemma free_available board i : free board i -> In i (available board).
Proof.
  intros H. unfold available. rewrite List.filter_In. split.
  - apply in_seq. split; [lia|]. simpl. apply cell_at_lt.
    unfold free in H. rewrite H. discriminate.
  - by apply is_null_free.
Qed.

(** A result that is either no move or a free cell. *)
Definition free_or_none (board : list cell) (m : option nat) : Prop :=
  match m with Some i => free board i | None => True end.

Lemma filter_free_In board l x :
  In x (List.filter (fun i => is_null (cell_at board i)) l) -> free board x.
Proof. rewrite List.filter_In. intros [_ H]. by apply is_null_free. Qed.

Lemma length_pos_ne {A} (l : list A) : (0 <? length l)%nat = true -> l <> [].
Proof. destruct l; simpl; [discriminate | done]. Qed.

Lemma critical_cell_free m board l i :
  critical_cell m board l = Some i -> free board i.
Proof.
  destruct l as [[a b] c]. unfold critical_cell.
  destruct (_ && _) eqn:E; [|discriminate].
  apply andb_true_iff in E as [_ E]. simpl in E.
  destruct (is_null (cell_at board a)) eqn:Ea.
  { intros [= <-]. by apply is_null_free. }
  destruct (is_null (cell_at board b)) eqn:Eb.
  { intros [= <-]. by apply is_null_free. }
  simpl in E. rewrite orb_false_r in E.
  intros [= <-]. by apply is_null_free.
Qed.

Lemma first_critical_free m board ls i :
  first_critical m board ls = Some i -> free board i.
Proof.
  induction ls as [|l t IH]; simpl; [discriminate|].
  destruct (critical_cell m board l) as [j|] eqn:E; [|done].
  intros [= <-]. by apply critical_cell_free in E.
Qed.

Lemma evaluateBoard_free board i : evaluateBoard board = Some i -> free board i.
Proof.
  unfold evaluateBoard.
  destruct (first_critical O board lines) as [j|] eqn:E.
  - intros [= <-]. by apply first_critical_free in E.
  - apply first_critical_free.
Qed.

Lemma getStrategicMove_free board t n :
  in_range t ->
  free_or_none board (fst (getStrategicMove board t n)).
Proof.
  intros Ht. unfold getStrategicMove.
  destruct (evaluateBoard board) as [i|] eqn:E.
  { simpl. by apply evaluateBoard_free. }
  destruct (is_null (cell_at board 4)) eqn:E4.
  { simpl. by apply is_null_free. }
  match goal with |- context [pick ?cs] => set (corners := cs) end.
  destruct (0 <? length corners)%nat eqn:Ec.
  { destruct (pick_In corners t n Ht (length_pos_ne _ Ec)) as (x & -> & Hx).
    simpl. by apply filter_free_In in Hx. }
  match goal with |- context [pick ?es] => set (edges := es) end.
  destruct (0 <? length edges)%nat eqn:Ee; [|done].
  destruct (pick_In edges t n Ht (length_pos_ne _ Ee)) as (x & -> & Hx).
  simpl. by apply filter_free_In in Hx.
Qed.

Lemma available_ne board : (length (available board) =? 0)%nat = false -> available board <> [].
Proof. destruct (available board); simpl; [discriminate | done]. Qed.

Lemma or_move_free board s (alt : Rand (option nat)) t n :
  free_or_none board s ->
  (exists x, fst (alt t n) = Some x /\ free board x) ->
  exists x, fst (or_move s alt t n) = Some x /\ free board x.
Proof.
  intros Hs Halt. destruct s as [[|i]|]; simpl; auto.
  exists (S i). by split.
Qed.

Lemma pick_available_free board t n :
  in_range t -> available board <> [] ->
  exists x, fst (pick (available board) t n) = Some x /\ free board x.
Proof.
  intros Ht Ha. destruct (pick_In _ t n Ht Ha) as (x & -> & Hx).
  exists x. split; [done | by apply available_free].
Qed.

(** Whatever the target, mode and draws, [getNextMove] of a must-win
    session answers with a free cell as long as one exists. *)
Lemma getNextMove_legal board b t n :
  in_range t -> BotPlayer.shouldWin b = true ->
  (exists i, free board i) ->
  exists x, fst (fst (BotPlayer.getNextMove board b t n)) = Some x /\ free board x.
Proof.
  intros Ht Hw [i0 Hi0]. unfold BotPlayer.getNextMove.
  assert (Hne : available board <> []).
  { intros E. apply free_available in Hi0. rewrite E in Hi0. destruct Hi0. }
  destruct (length (available board) =? 0)%nat eqn:El.
  { destruct (available board); [done | discriminate]. }
  assert (Hbot : BotPlayer.shouldWin (snd (BotPlayer.checkPotentialDraw board b)) = true).
  { unfold BotPlayer.checkPotentialDraw. by destruct (5 <=? _)%nat. }
  destruct (BotPlayer.checkPotentialDraw board b) as [isDraw b1]. simpl in Hbot.
  rewrite Hbot.
  destruct (isDraw && _).
  - (* forced mode *)
    unfold bind.
    pose proof (getStrategicMove_free board t n Ht) as Hs.
    destruct (getStrategicMove board t n) as [s n1]. simpl in Hs.
    destruct (or_move_free board s (ret (nth_error (available board) 0)) t n1 Hs)
      as (x & Hx & Hfree).
    { destruct (available board) as [|a l] eqn:Ea; [done|]. simpl.
      exists a. split; [done|]. apply available_free. rewrite Ea. by left. }
    destruct (or_move s _ t n1) as [m n2]. simpl in *. eauto.
  - unfold bind, random.
    destruct (Qltb (t n) (9 # 10)).
    + pose proof (getStrategicMove_free board t (S n) Ht) as Hs.
      destruct (getStrategicMove board t (S n)) as [s n1]. simpl in Hs.
      destruct (or_move_free board s (pick (available board)) t n1 Hs
                  (pick_available_free board t n1 Ht Hne)) as (x & Hx & Hfree).
      destruct (or_move s _ t n1) as [m n2]. simpl in *. eauto.
    + destruct (pick_available_free board t (S n) Ht Hne) as (x & Hx & Hfree).
      destruct (pick (available board) t (S n)) as [m n2]. simpl in *. eauto.
Qed.

(** *** Win-or-block heuristic *)

Lemma cell_at_array_set_ne b i j v :
  i <> j -> cell_at (array_set b i v) j = cell_at b j.
Proof.
  unfold cell_at. revert b j.
  induction i as [|i IH]; intros [|c b] [|j] H; simpl; try done.
  - by destruct j.
  - rewrite IH by lia. by destruct j.
  - apply IH. lia.
Qed.

(** Cell [i] of line [l] is free and the two other cells of [l] hold
    [m]: placing [m] at [i] completes the line. *)
Definition threat (m : mark) (board : list cell) (l : line) (i : nat) : Prop :=
  In i (Game.line_cells l) /\ free board i /\ mono (array_set board i (Mark m)) l m.

Lemma critical_cell_spec m board a b c i :
  a <> b -> a <> c -> b <> c ->
  critical_cell m board (a, b, c) = Some i <-> threat m board (a, b, c) i.
Proof.
  intros Hab Hac Hbc. unfold threat, free, mono. simpl. split.
  - unfold critical_cell.
    destruct (cell_at board a) as [|ma|] eqn:Ea;
      destruct (cell_at board b) as [|mb|] eqn:Eb;
      destruct (cell_at board c) as [|mc|] eqn:Ec;
      try destruct ma; try destruct mb; try destruct mc; destruct m;
      simpl; try discriminate; intros [= <-];
      rewrite ?cell_at_array_set, ?cell_at_array_set_ne, ?Ea, ?Eb, ?Ec by congruence;
      tauto.
  - intros ([<-|[<-|[<-|[]]]] & Hf & H1 & H2 & H3);
      repeat match goal with
             | H : cell_at (array_set _ ?i _) ?j = _ |- _ =>
                 first [ rewrite cell_at_array_set_ne in H by congruence
                       | clear H ]
             end;
      unfold critical_cell;
      repeat match goal with H : cell_at board _ = _ |- _ => rewrite H; clear H end;
      by destruct m.
Qed.

Lemma lines_distinct a b c : In (a, b, c) lines -> a <> b /\ a <> c /\ b <> c.
Proof.
  simpl. intros H.
  repeat (destruct H as [[= <- <- <-]|H]; [lia|]). destruct H.
Qed.

Lemma first_critical_some m board ls i :
  (forall l, In l ls -> In l lines) ->
  first_critical m board ls = Some i -> exists l, In l ls /\ threat m board l i.
Proof.
  induction ls as [|l t IH]; intros Hsub; simpl; [discriminate|].
  destruct (critical_cell m board l) as [j|] eqn:E.
  - intros [= <-]. exists l. split; [by left|].
    destruct l as [[a b] c].
    destruct (lines_distinct a b c) as (? & ? & ?); [apply Hsub; by left|].
    by apply critical_cell_spec.
  - intros H. destruct IH as (l' & Hin & Hth); auto.
    { intros l' Hl'. apply Hsub. by right. }
    exists l'. split; [by right | done].
Qed.

Lemma first_critical_none m board ls :
  (forall l, In l ls -> In l lines) ->
  first_critical m board ls = None -> forall l j, In l ls -> ~ threat m board l j.
Proof.
  induction ls as [|l t IH]; intros Hsub; simpl; [intros _ l j []|].
  destruct (critical_cell m board l) as [i|] eqn:E; [discriminate|].
  intros H l' j [<-|Hin] Hth.
  - destruct l as [[a b] c].
    destruct (lines_distinct a b c) as (? & ? & ?); [apply Hsub; by left|].
    apply critical_cell_spec in Hth; auto. congruence.
  - revert Hth. apply IH; auto. intros l0 Hl0. apply Hsub. by right.
Qed.

(** [evaluateBoard] takes an immediate win of O if there is one, else
    blocks an immediate win of X if there is one, else returns [null]. *)
Lemma evaluateBoard_spec board :
  match evaluateBoard board with
  | Some c =>
      (exists l, In l lines /\ threat O board l c)
      \/ ((forall l j, In l lines -> ~ threat O board l j)
          /\ exists l, In l lines /\ threat X board l c)
  | None => forall m l j, In l lines -> ~ threat m board l j
  end.
Proof.
  unfold evaluateBoard.
  destruct (first_critical O board lines) as [c|] eqn:EO.
  { left. by apply first_critical_some in EO. }
  pose proof (first_critical_none O board lines (fun _ H => H) EO) as HO.
  destruct (first_critical X board lines) as [c|] eqn:EX.
  { right. split; [done|]. by apply first_critical_some in EX. }
  pose proof (first_critical_none X board lines (fun _ H => H) EX) as HX.
  intros [|]; auto.
Qed.

(** The condition under which [getNextMove] leaves normal play: at least
    five cells are filled and the call counter, once incremented, has
    reached the session's threshold. *)
Definition forced (board : list cell) (b : BotPlayer.t) : bool :=
  (5 <=? length (List.filter (fun c => negb (is_null c)) board))%nat
  && (BotPlayer.maxDrawsBeforeEnd b <=? S (BotPlayer.drawCount b))%nat.

Lemma available_head board : free board 0 -> nth_error (available board) 0 = Some 0%nat.
Proof.
  intros H. unfold available.
  assert (Hl : (0 < length board)%nat).
  { apply cell_at_lt. unfold free in H. rewrite H. discriminate. }
  destruct (length board) as [|k]; [lia|]. simpl.
  apply is_null_free in H. by rewrite H.
Qed.

Lemma getNextMove_critical board b t n c :
  BotPlayer.shouldWin b = true ->
  evaluateBoard board = Some c ->
  (forced board b = true \/ (Qltb (t n) (9 # 10) = true /\ c <> 0%nat)) ->
  fst (fst (BotPlayer.getNextMove board b t n)) = Some c.
Proof.
  intros Hw Hc Hmode. unfold BotPlayer.getNextMove.
  pose proof (evaluateBoard_free board c Hc) as Hfree.
  destruct (length (available board) =? 0)%nat eqn:El.
  { apply free_available in Hfree. destruct (available board); [done | discriminate]. }
  unfold forced in Hmode. unfold BotPlayer.checkPotentialDraw.
  destruct (5 <=? _)%nat; simpl in *; rewrite Hw.
  - destruct (BotPlayer.maxDrawsBeforeEnd b <=? S (BotPlayer.drawCount b))%nat.
    + unfold bind, getStrategicMove. rewrite Hc. simpl.
      destruct c as [|c]; simpl; [by apply available_head | done].
    + destruct Hmode as [?|[Hr Hc0]]; [done|].
      unfold bind, random. rewrite Hr. unfold getStrategicMove. rewrite Hc. simpl.
      destruct c as [|c]; [done | done].
  - destruct Hmode as [?|[Hr Hc0]]; [done|].
    unfold bind, random. rewrite Hr. unfold getStrategicMove. rewrite Hc. simpl.
    destruct c as [|c]; [done | done].
Qed.

(** C8 (as the code has it). A must-win session, on any board with a free
    cell and with draws in [0,1), always answers with a free cell. Its
    heuristic [evaluateBoard] finds the cell completing a line of O when
    one exists, else a cell blocking a line of X when one exists, and
    nothing exactly when neither exists; the session plays that cell in
    forced mode (at least five cells filled and the call counter at its
    threshold) and, in normal play, on the branch taken when the draw is
    below 0.9, provided the cell is not cell 0. Nothing more is
    guaranteed: there is no search of the game tree. *)
Theorem must_win_session_heuristic (board : list cell) (b : BotPlayer.t)
    (t : nat -> Q) (n : nat) :
  in_range t -> BotPlayer.shouldWin b = true -> (exists i, free board i) ->
  let mv := fst (fst (BotPlayer.getNextMove board b t n)) in
  (exists x, mv = Some x /\ free board x)
  /\ (forall c, evaluateBoard board = Some c ->
        ((exists l, In l lines /\ threat O board l c)
         \/ ((forall l j, In l lines -> ~ threat O board l j)
             /\ exists l, In l lines /\ threat X board l c))
        /\ (forced board b = true \/ (Qltb (t n) (9 # 10) = true /\ c <> 0%nat) ->
            mv = Some c))
  /\ (evaluateBoard board = None -> forall m l j, In l lines -> ~ threat m board l j).
Proof.
  intros Ht Hw Hfree mv. split; [by apply getNextMove_legal|].
  pose proof (evaluateBoard_spec board) as Hspec.
  split.
  - intros c Hc. rewrite Hc in Hspec. split; [done|].
    intros Hmode. by apply getNextMove_critical.
  - intros Hn. by rewrite Hn in Hspec.
Qed.

(** A must-win session with threshold 3. *)
Definition must_win_bot : BotPlayer.t :=
  BotPlayer.mk "game_1" 300 alice [] 2000 true 0 3.

(** A tape whose draws are all 0: every [random < 0.9] test succeeds and
    every random index is 0. *)
Definition zero_tape : nat -> Q := fun _ => 0%Q.

Lemma zero_tape_in_range : in_range zero_tape.
Proof. intros k. split; [apply Qle_refl | reflexivity]. Qed.

Lemma must_win_session_heuristic_witness :
  let board := [Mark X; Empty; Mark O; Empty; Mark O; Empty; Mark X; Empty; Mark X] in
  evaluateBoard board = Some 7%nat /\
  fst (fst (BotPlayer.getNextMove board must_win_bot zero_tape 0%nat)) = Some 7%nat.
Proof.
  intros board.
  assert (He : evaluateBoard board = Some 7%nat) by reflexivity.
  split; [exact He|].
  refine (proj2 (proj1 (proj2 (must_win_session_heuristic board must_win_bot zero_tape 0%nat
            zero_tape_in_range eq_refl (ex_intro _ 1%nat eq_refl))) 7%nat He) _).
  right. split; [reflexivity | discriminate].
Defined.

(** The claim of the specification fails on the code: a must-win session
    that takes its strategic branch at every turn loses to the legal
    corner play 0, 8, 6, 3 - the human forks it and completes the line
    0-3-6. *)
Lemma must_win_session_loses :
  duel [0; 8; 6; 3]%nat empty_board must_win_bot zero_tape 0
    = [Mark X; Empty; Mark O; Mark X; Mark O; Empty; Mark X; Mark O; Mark X]
  /\ checkWinner (duel [0; 8; 6; 3]%nat empty_board must_win_bot zero_tape 0)
    = Won X (0, 3, 6)%nat.
Proof. split; by vm_compute. Qed.

(** ** The server: registries, matchmaking and handlers *)

(** An entry of the [players] registry (socket id -> participant). *)
(** The members every plain object inherits from [Object.prototype]. The
    registries are plain objects ([const games = {}]), so for these keys
    [games[k]] is truthy (a function, or the prototype itself) even when
    no match is registered under [k]. *)
Definition inherited (k : string) : bool :=
  existsb (String.eqb k)
    ["constructor"; "__proto__"; "hasOwnProperty"; "isPrototypeOf";
     "propertyIsEnumerable"; "toLocaleString"; "toString"; "valueOf";
     "__defineGetter__"; "__defineSetter__"; "__lookupGetter__"; "__lookupSetter__"].

Record Meta := mkMeta {
  meta_address : option string;
  meta_bet : Z;
  meta_paid : bool;
  meta_isBot : bool;
  meta_game : option string
}.

Module Server.

Record t := mk {
  games : list (string * Game.t);          (* const games = {} *)
  players : list (string * Meta);          (* const players = {} *)
  activeBots : gmap string BotPlayer.t;    (* const activeBots = new Map() *)
  botSpawnTimers : list string;            (* sockets with a pending spawn timer *)
  waitingQueue : list string;              (* sockets queued by attemptMatchOrEnqueue *)
  store : Store                            (* playerHistory and betHistory *)
}.

Definition init : t := mk [] [] ∅ [] [] empty_store.

Definition set_games v s := mk v (players s) (activeBots s) (botSpawnTimers s)
  (waitingQueue s) (store s).
Definition set_players v s := mk (games s) v (activeBots s) (botSpawnTimers s)
  (waitingQueue s) (store s).
Definition set_activeBots v s := mk (games s) (players s) v (botSpawnTimers s)
  (waitingQueue s) (store s).
Definition set_botSpawnTimers v s := mk (games s) (players s) (activeBots s) v
  (waitingQueue s) (store s).
Definition set_waitingQueue v s := mk (games s) (players s) (activeBots s)
  (botSpawnTimers s) v (store s).
Definition set_store v s := mk (games s) (players s) (activeBots s) (botSpawnTimers s)
  (waitingQueue s) v.

(** The sockets of the [players] registry registered under address
    [addr]. *)
Definition sockets_of (addr : option string) (s : t) : list string :=
  Obj.keys (List.filter (fun '(_, m) => ostr_eqb (meta_address m) addr) (players s)).

(** [handleGameEnd(gameId, winnerId)] as it is in force: of the two
    function declarations of that name in the server file, the later one
    replaces the earlier. (The streak, leaderboard, achievement and
    mystery-box observers it notifies keep their own state and are left
    out.) *)
Definition handleGameEnd (gid : string) (winnerId : option string) (s : t)
  : t * list effect :=
  match Obj.get gid (games s) with
  | None => (s, [])
  | Some game0 =>
      let game := Game.clearTurnTimer (Game.set_status finished game0) in
      let winner := match winnerId with
                    | Some w => Obj.get w (Game.players game)
                    | None => None
                    end in
      let winnerSymbol := symbol <$> winner in
      let winningLine := Game.winLine game in
      let announce :=
        flat_map
          (fun '(pid, p) =>
             let msg := match winnerSymbol with
                        | None => "It's a draw!"
                        | Some ws => if mark_eqb (symbol p) ws then "You win!" else "You lose"
                        end in
             let payload := gameEnd msg winnerSymbol winningLine false in
             Emit pid payload ::
             (if truthy (lightningAddress p)
              then map (fun sid => Emit sid payload) (sockets_of (lightningAddress p) s)
              else []))
          (Game.players game) in
      let settle :=
        if negb (match winner with Some p => isBot p | None => false end)
        then
          let winnerAddr := match winner with
                            | Some p => lightningAddress p
                            | None => None
                            end in
          [PayoutVia (if truthy winnerAddr then sockets_of winnerAddr s else [])
             winnerId (Game.betAmount game) gid winnerAddr]
        else [PlatformFee (Game.betAmount game * 2 * 5 / 100) gid] in
      (set_games (Obj.set gid game (games s)) s,
       announce ++ settle ++ [Later 30000 (Evict gid)])
  end.

(** The earlier declaration of [handleGameEnd], which never runs: this is
    the one that removes the session from [activeBots]. ([recordGameResult]
    makes sure the opponent has a [playerHistory] entry; the statistics of
    [botStats] are left out.) *)
Definition handleGameEnd_shadowed (gid : string) (winnerId : option string) (s : t)
  : t * list effect :=
  match Obj.get gid (games s) with
  | None => (s, [])
  | Some game0 =>
      let game := Game.clearTurnTimer (Game.set_status finished game0) in
      let s1 := set_games (Obj.set gid game (games s)) s in
      let s2 :=
        match activeBots s1 !! gid with
        | Some bot =>
            let humanId := List.find (fun i => match Obj.get i (Game.players game) with
                                               | Some p => negb (isBot p)
                                               | None => false
                                               end) (Obj.keys (Game.players game)) in
            let st := store s1 in
            let st' :=
              match humanId, BotPlayer.opponentAddress bot with
              | Some h, Some a =>
                  if String.eqb h "" || String.eqb a "" then st
                  else match playerHistory st !! a with
                       | Some _ => st
                       | None => mkStore (<[a := mkHistory 0 0 0]> (playerHistory st))
                                   (betHistory st)
                       end
              | _, _ => st
              end in
            set_activeBots (delete gid (activeBots s1)) (set_store st' s1)
        | None => s1
        end in
      let botInGame := existsb (fun '(_, p) => isBot p) (Game.players game) in
      let winner := match winnerId with
                    | Some w => Obj.get w (Game.players game)
                    | None => None
                    end in
      let settle :=
        if negb botInGame && truthy winnerId && (0 <? Game.betAmount game)
           && truthy (match winner with Some p => lightningAddress p | None => None end)
        then [Payout (match winner with Some p => lightningAddress p | None => None end)
                (Game.betAmount game) gid None]
        else [] in
      let s3 := set_players
                  (fold_left (fun ps pid => Obj.del pid ps)
                     (Obj.keys (Game.players game)) (players s2)) s2 in
      (s3, settle ++ [Later 5000 (Evict gid)])
  end.

(** [handleDraw(gameId)] *)
Definition handleDraw (now : Z) (gid : string) (s : t) : t * list effect :=
  match Obj.get gid (games s) with
  | None => (s, [])
  | Some game =>
      let '(game', effs) := handleDraw_on now game in
      (set_games (Obj.set gid game' (games s)) s, effs)
  end.

(** What the three callers of [makeMove] do with its result:
    [if (result.winner) handleGameEnd(...) else if (result.draw) handleDraw(...)]. *)
Definition after_move (now : Z) (gid : string) (r : Game.result) (s : t)
  : t * list effect :=
  match r with
  | Game.IsWin w _ => if truthy w then handleGameEnd gid w s else (s, [])
  | Game.IsDraw _ => handleDraw now gid s
  | _ => (s, [])
  end.

(** The participant of [game] a socket acts for: the first one whose id is
    the socket's, or whose lightning address is that of the socket's
    registry entry. *)
Definition acting_player (socket : string) (game : Game.t) (s : t) : option string :=
  List.find (fun pid =>
               String.eqb pid socket
               || match Obj.get socket (players s), Obj.get pid (Game.players game) with
                  | Some m, Some p => ostr_eqb (lightningAddress p) (meta_address m)
                  | _, _ => false
                  end)
            (Obj.keys (Game.players game)).

Definition rejection_message (r : Game.reason) (game : Game.t) : string :=
  match r with
  | Game.not_playing =>
      if Status_eqb (Game.status game) finished then "Game already finished"
      else "Game not started"
  | Game.not_your_turn => "Not your turn"
  | Game.bad_pos => "Invalid position"
  | Game.occupied => "Position already taken"
  end.

(** [socket.on('makeMove', { gameId, position })] for socket [socket]. *)
Definition onMakeMove (now : Z) (socket gid : string) (position : Z) (s : t)
  : t * list effect :=
  match Obj.get gid (games s) with
  | None =>
      (* [games[gameId]] of an inherited member is not a match and has no
         [players]: [Object.entries(game.players)] throws, the exception is
         logged by the process and nothing is emitted *)
      if inherited gid then (s, [])
      else (s, [Emit socket (error "Game not found")])
  | Some game =>
      match acting_player socket game s with
      | None => (s, [Emit socket (error "Not your turn")])
      | Some pid =>
          if negb (truthy (Some pid)) || negb (ostr_eqb (Game.turn game) (Some pid))
          then (s, [Emit socket (error "Not your turn")])
          else
            let '(r, game', effs) := Game.makeMove now pid position game in
            match r with
            | Game.Rejected why => (s, [Emit socket (error (rejection_message why game))])
            | _ =>
                let s1 := set_games (Obj.set gid game' (games s)) s in
                let otherPlayerId :=
                  List.find (fun i => negb (String.eqb i pid)
                                      && match Obj.get i (Game.players game') with
                                         | Some p => negb (isBot p)
                                         | None => false
                                         end)
                            (Obj.keys (Game.players game')) in
                let moveData :=
                  moveMade position (symbol <$> Obj.get pid (Game.players game'))
                    (Game.turn game') (Game.board game') (Game.turnDeadlineAt game')
                    (if ostr_eqb (Game.turn game') otherPlayerId
                     then "Your move" else "Opponent's move") in
                let notify :=
                  EmitRoom (Game.id game') moveData ::
                  match otherPlayerId with
                  | Some i => if truthy otherPlayerId then [EmitConnected i moveData] else []
                  | None => []
                  end ++
                  [EmitRoom (Game.id game') (boardUpdate (Game.board game') position)] in
                let '(s2, effs') := after_move now gid r s1 in
                (s2, effs ++ notify ++ effs')
            end
      end
  end.

(** [Game.handleTimeout()], run when the turn timer of match [gid] fires.
    It lives at this level because it calls [handleGameEnd], [handleDraw]
    and [makeBotMove]. *)
Definition handleTimeout (now : Z) (gid : string) (s : t) : Rand (t * list effect) :=
  match Obj.get gid (games s) with
  | None => ret (s, [])
  | Some game =>
      if negb (Status_eqb (Game.status game) playing) then ret (s, [])
      else
        let currentPlayer := match Game.turn game with
                             | Some i => Obj.get i (Game.players game)
                             | None => None
                             end in
        match Game.turn game, currentPlayer with
        | Some currentPlayerId, Some cp =>
            if isBot cp then
              let availableMoves := available (Game.board game) in
              if (0 <? length availableMoves)%nat then
                mv <- pick availableMoves ;;
                match mv with
                | None => ret (s, [MakeBotMove (Game.id game) currentPlayerId])
                | Some move =>
                    let '(r, game', effs) :=
                      Game.makeMove now currentPlayerId (Z.of_nat move) game in
                    let s1 := set_games (Obj.set gid game' (games s)) s in
                    let humanPlayerId :=
                      List.find (fun i => match Obj.get i (Game.players game') with
                                          | Some p => negb (isBot p)
                                          | None => false
                                          end) (Obj.keys (Game.players game')) in
                    let moveData :=
                      moveMade (Z.of_nat move) (Some (symbol cp)) (Game.turn game')
                        (Game.board game') (Game.turnDeadlineAt game')
                        (if ostr_eqb (Game.turn game') humanPlayerId
                         then "Your move" else "Opponent's move") in
                    let notify :=
                      if Game.ok r then
                        EmitRoom (Game.id game') moveData ::
                        match humanPlayerId with
                        | Some h => if truthy humanPlayerId then [EmitConnected h moveData] else []
                        | None => []
                        end ++
                        [EmitRoom (Game.id game') (boardUpdate (Game.board game') (Z.of_nat move))]
                      else [] in
                    let '(s2, effs') :=
                      match r with
                      | Game.IsWin w _ =>
                          if truthy w then handleGameEnd (Game.id game') w s1
                          else if Game.turn_is_bot game'
                               then (s1, match Game.turn game' with
                                         | Some i => [MakeBotMove (Game.id game') i]
                                         | None => []
                                         end)
                               else (s1, [])
                      | Game.IsDraw _ => handleDraw now (Game.id game') s1
                      | _ =>
                          if Game.turn_is_bot game'
                          then (s1, match Game.turn game' with
                                    | Some i => [MakeBotMove (Game.id game') i]
                                    | None => []
                                    end)
                          else (s1, [])
                      end in
                    ret (s2, effs ++ notify ++ effs')
                end
              else ret (s, [])
            else
              ret (handleGameEnd (Game.id game) (Game.other_than (Game.turn game) game) s)
        | _, _ =>
            ret (handleGameEnd (Game.id game) (Game.other_than (Game.turn game) game) s)
        end
  end.

(** [addPlayer] with its coin read from the tape: [Math.random()] is
    called only when the second slot has just been filled. *)
Definition addPlayer (sid : string) (addr : option string) (bot : bool) (g : Game.t)
  : Rand (mark * Game.t) :=
  let filled := Obj.keys (Obj.set sid (mkPlayer sid addr bot X false) (Game.players g)) in
  if (length filled =? 2)%nat
  then r <- random ;; ret (Game.addPlayer sid addr bot (Qltb r (1 # 2)) g)
  else ret (Game.addPlayer sid addr bot true g).

Definition one_slot_at (bet : Z) (kg : string * Game.t) : bool :=
  (length (Obj.keys (Game.players (snd kg))) =? 1)%nat && (Game.betAmount (snd kg) =? bet).

Definition announce_match (kind : string) (now : Z) (g : Game.t) : list effect :=
  flat_map (fun '(pid, p) =>
              if isBot p then [] else [Emit pid (matchFound kind 5 (now + 5000))])
           (Game.players g).

(** The [payment.confirmed] branch of the webhook, from the point where
    the paying socket has been identified: the participant is marked paid
    and joins a waiting match of the same wager, or a new match [newId]
    ([game_<now>]); a match left with one slot arms the bot-spawn timer
    with [delay]. *)
Definition onPaymentConfirmed (now : Z) (newId socketId : string) (delay : Z) (s : t)
  : Rand (t * list effect) :=
  match Obj.get socketId (players s) with
  | None => ret (s, [])
  | Some me =>
      let me' := mkMeta (meta_address me) (meta_bet me) true (meta_isBot me) (meta_game me) in
      let s1 := set_players (Obj.set socketId me' (players s)) s in
      let '(gid, game, s2) :=
        match List.find (one_slot_at (meta_bet me)) (games s1) with
        | Some (k, g) => (k, g, s1)
        | None =>
            let g := Game.new newId (meta_bet me) in
            (newId, g, set_games (Obj.set newId g (games s1)) s1)
        end in
      joined <- addPlayer socketId (meta_address me) false game ;;
      let game' := snd joined in
      let s3 := set_games (Obj.set gid game' (games s2)) s2 in
      if (length (Obj.keys (Game.players game')) =? 2)%nat then
        ret (s3, map (fun pid => Emit pid (matchFound "player" 5 (now + 5000)))
                   (Obj.keys (Game.players game'))
                 ++ [Later 5000 (StartMatch gid)])
      else
        ret (set_botSpawnTimers (socketId :: botSpawnTimers s3) s3,
             [Emit socketId waitingForOpponent; Later delay (SpawnBot socketId)])
  end.

(** The bot-spawn timer callback armed by the webhook: if the socket is
    still alone in a match, a session is created for that match and the
    automated opponent [botId] is attached to it. *)
Definition spawnBot (now : Z) (socketId botId : string) (botAddress : option string)
    (s : t) : Rand (t * list effect) :=
  match List.find (fun '(_, g) =>
                     match Obj.get socketId (Game.players g) with
                     | Some _ => (length (Obj.keys (Game.players g)) =? 1)%nat
                     | None => false
                     end) (games s),
        Obj.get socketId (players s) with
  | Some (gid, currentGame), Some me =>
      made <- BotPlayer.new (Game.id currentGame) (Game.betAmount currentGame)
                (meta_address me) (store s) ;;
      let '(bot, st') := made in
      let s1 := set_store st'
                  (set_activeBots (<[Game.id currentGame := bot]> (activeBots s)) s) in
      joined <- addPlayer botId botAddress true currentGame ;;
      let game' := snd joined in
      let s2 := set_games (Obj.set gid game' (games s1)) s1 in
      let s3 := set_players
                  (Obj.set botId
                     (mkMeta botAddress (Game.betAmount game') true true (Some (Game.id game')))
                     (players s2)) s2 in
      let s4 := set_botSpawnTimers
                  (List.filter (fun k => negb (String.eqb k socketId)) (botSpawnTimers s3)) s3 in
      ret (s4, announce_match "player" now game' ++ [Later 5000 (StartMatch gid)])
  | _, _ => ret (s, [])
  end.

(** The end of the countdown: the match starts. *)
Definition startMatch (now : Z) (gid : string) (s : t) : t * list effect :=
  match Obj.get gid (games s) with
  | None => (s, [])
  | Some game =>
      let '(game', effs) := Game.startTurnTimer now (Game.set_status playing game) in
      let starts :=
        flat_map (fun '(pid, p) =>
                    if isBot p then []
                    else [EmitConnected pid
                            (startGame (Game.id game') (Some (symbol p)) (Game.turn game')
                               (Game.board game') (Game.turn_message game' pid)
                               (Game.turnDeadlineAt game'))])
                 (Game.players game') in
      let kick := match Game.turn game' with
                  | Some i => if Game.turn_is_bot game' then [Later 500 (BotKick gid i)] else []
                  | None => []
                  end in
      (set_games (Obj.set gid game' (games s)) s, effs ++ starts ++ kick)
  end.

(** The bot-spawn timer callback armed by [attemptMatchOrEnqueue] (the
    manual payment check): a new match [newId] is made for the queued
    socket and an automated opponent, and no session is created. *)
Definition spawnBotQueued (now : Z) (newId socketId botId : string)
    (address botAddress : option string) (bet : Z) (s : t) : Rand (t * list effect) :=
  if existsb (String.eqb socketId) (waitingQueue s) then
    let s1 := set_waitingQueue
                (List.filter (fun k => negb (String.eqb k socketId)) (waitingQueue s)) s in
    j1 <- addPlayer socketId address false (Game.new newId bet) ;;
    j2 <- addPlayer botId botAddress true (snd j1) ;;
    let game := snd j2 in
    let s2 := set_games (Obj.set newId game (games s1)) s1 in
    let s3 := set_botSpawnTimers
                (List.filter (fun k => negb (String.eqb k socketId)) (botSpawnTimers s2)) s2 in
    ret (s3, [Emit socketId (matchFound "bot" 5 (now + 5000)); Later 5000 (StartMatch newId)])
  else ret (s, []).

(** [POST /api/bots/force-spawn]: a session without a match. *)
Definition forceSpawn (gid : string) (bet : Z) (playerAddress : option string) (s : t)
  : Rand t :=
  made <- BotPlayer.new gid bet playerAddress (store s) ;;
  let '(bot, st') := made in
  ret (set_store st' (set_activeBots (<[gid := bot]> (activeBots s)) s)).

(** [delete games[gameId]], the eviction scheduled by [handleGameEnd]. *)
Definition evict (gid : string) (s : t) : t := set_games (Obj.del gid (games s)) s.

(** [makeBotMove(gameId, botId)]: the session chooses its move now and
    plays it after a think time. *)
Definition makeBotMove (now : Z) (gid botId : string) (s : t) : Rand (t * list effect) :=
  match Obj.get gid (games s), activeBots s !! gid with
  | Some game, Some bot =>
      if negb (Status_eqb (Game.status game) playing) then ret (s, [])
      else
        chosen <- BotPlayer.getNextMove (Game.board game) bot ;;
        let '(move, bot1) := chosen in
        match move with
        | None => ret (set_activeBots (<[gid := bot1]> (activeBots s)) s, [])
        | Some mv =>
            r1 <- random ;;
            r2 <- random ;;
            let hardMax := match Game.turnDeadlineAt game with
                           | Some d => Z.max 250 (d - now - 1400)
                           | None => 2500
                           end in
            let maxDelay := Z.min hardMax 2500 in
            let minDelay := Z.min 450 maxDelay in
            let span := Z.max 0 (maxDelay - minDelay) in
            let delay := minDelay + Qfloor (r1 * r2 * inject_Z span) in
            let bot2 := BotPlayer.set_thinkingTime delay bot1 in
            ret (set_activeBots (<[gid := bot2]> (activeBots s)) s,
                 [Later delay (BotPlays gid botId mv)])
        end
  | _, _ => ret (s, [])
  end.

(** The delayed callback of [makeBotMove]. *)
Definition botPlays (now : Z) (gid botId : string) (move : nat) (s : t) : t * list effect :=
  match Obj.get gid (games s) with
  | None => (s, [])
  | Some game =>
      if negb (Status_eqb (Game.status game) playing)
         || negb (ostr_eqb (Game.turn game) (Some botId))
      then (s, [])
      else
        let '(r, game', effs) := Game.makeMove now botId (Z.of_nat move) game in
        if Game.ok r then
          let s1 := set_games (Obj.set gid game' (games s)) s in
          let humanPlayerId :=
            List.find (fun i => match Obj.get i (Game.players game') with
                                | Some p => negb (isBot p)
                                | None => false
                                end) (Obj.keys (Game.players game')) in
          let moveData :=
            moveMade (Z.of_nat move) (symbol <$> Obj.get botId (Game.players game'))
              (Game.turn game') (Game.board game') (Game.turnDeadlineAt game')
              (if ostr_eqb (Game.turn game') humanPlayerId
               then "Your move" else "Opponent's move") in
          let notify :=
            EmitRoom gid moveData ::
            match humanPlayerId with
            | Some h => if truthy humanPlayerId then [EmitConnected h moveData] else []
            | None => []
            end ++
            [EmitRoom gid (boardUpdate (Game.board game') (Z.of_nat move))] in
          let '(s2, effs') :=
            match r with
            | Game.IsWin w _ =>
                if truthy w then handleGameEnd gid w s1
                else if Game.turn_is_bot game'
                     then (s1, match Game.turn game' with
                               | Some i => [MakeBotMove gid i]
                               | None => []
                               end)
                     else (s1, [])
            | Game.IsDraw _ => handleDraw now gid s1
            | _ =>
                if Game.turn_is_bot game'
                then (s1, match Game.turn game' with
                          | Some i => [MakeBotMove gid i]
                          | None => []
                          end)
                else (s1, [])
            end in
          (s2, effs ++ notify ++ effs')
        else (s, [])
  end.

End Server.

(** ** Rejected moves *)

(** The guard of [makeMove] that fails first. *)
Definition fails_with (why : Game.reason) (sid : string) (position : Z) (g : Game.t) : Prop :=
  match why with
  | Game.not_playing => Game.status g <> playing
  | Game.not_your_turn => Game.status g = playing /\ Game.turn g <> Some sid
  | Game.bad_pos =>
      Game.status g = playing /\ Game.turn g = Some sid /\ (position < 0 \/ 8 < position)
  | Game.occupied =>
      Game.status g = playing /\ Game.turn g = Some sid /\ 0 <= position <= 8 /\
      cell_at (Game.board g) (Z.to_nat position) <> Empty
  end.

Lemma rejection_fails_with sid position g why :
  rejection sid position g = Some why <-> fails_with why sid position g.
Proof.
  unfold rejection.
  destruct (Status_eqb (Game.status g) playing) eqn:Es; simpl.
  2:{ assert (Game.status g <> playing).
      { intros E. apply Status_eqb_eq in E. congruence. }
      destruct why; simpl; split; try done; try congruence; tauto. }
  apply Status_eqb_eq in Es.
  destruct (ostr_eqb (Game.turn g) (Some sid)) eqn:Et; simpl.
  2:{ assert (Game.turn g <> Some sid).
      { intros E. apply ostr_eqb_eq in E. congruence. }
      destruct why; simpl; split; try done; try congruence; tauto. }
  apply ostr_eqb_eq in Et.
  destruct ((position <? 0) || (position >? 8)) eqn:Ep; simpl.
  { assert (position < 0 \/ 8 < position).
    { apply orb_true_iff in Ep as [?|?]; lia. }
    destruct why; simpl; split; try done; try congruence; try tauto.
    intros (_ & _ & ? & _). lia. }
  apply orb_false_iff in Ep as [? ?].
  destruct (cell_eqb (cell_at (Game.board g) (Z.to_nat position)) Empty) eqn:Ec; simpl.
  - apply cell_eqb_eq in Ec.
    destruct why; simpl; split; try done; try congruence; try tauto.
    intros (_ & _ & ?). lia.
  - assert (cell_at (Game.board g) (Z.to_nat position) <> Empty).
    { intros E. rewrite E in Ec. discriminate. }
    destruct why; simpl; split; try done; try congruence; try tauto.
    + intros (_ & _ & ?). lia.
    + intros _. repeat split; auto; lia.
Qed.

Lemma makeMove_cases now sid position g :
  match rejection sid position g with
  | Some why => Game.makeMove now sid position g = (Game.Rejected why, g, [])
  | None => Game.ok (fst (fst (Game.makeMove now sid position g))) = true
  end.
Proof.
  destruct (rejection sid position g) eqn:E.
  - by apply makeMove_rejected.
  - by apply makeMove_accepted.
Qed.

Lemma onMakeMove_rejected now socket gid position s game pid :
  Obj.get gid (Server.games s) = Some game ->
  Server.acting_player socket game s = Some pid ->
  Game.ok (fst (fst (Game.makeMove now pid position game))) = false ->
  exists msg, Server.onMakeMove now socket gid position s = (s, [Emit socket (error msg)]).
Proof.
  intros Hg Hp Hrej. unfold Server.onMakeMove. rewrite Hg, Hp.
  destruct (_ || _); [by eexists|].
  pose proof (makeMove_cases now pid position game) as Hc.
  destruct (rejection pid position game) as [why|]; [|congruence].
  rewrite Hc. by eexists.
Qed.

(** C4. [Game.makeMove(actorSlot, cellIndex)] rejects exactly when the
    match is not [playing], or the acting slot does not hold the turn, or
    the index is outside 0..8, or the cell is not empty; the reason
    returned is that of the first guard that fails; a rejection leaves
    every field of the match as it was and emits nothing. In the socket
    handler a rejected move changes nothing on the server and produces one
    emission only, an [error] event on the acting socket. *)
Theorem makeMove_rejects_exactly (now : Z) (sid : string) (position : Z) (g : Game.t) :
  let res := Game.makeMove now sid position g in
  (Game.ok (fst (fst res)) = false <->
     Game.status g <> playing \/ Game.turn g <> Some sid \/
     position < 0 \/ 8 < position \/
     cell_at (Game.board g) (Z.to_nat position) <> Empty)
  /\ (forall why, fst (fst res) = Game.Rejected why <-> fails_with why sid position g)
  /\ (Game.ok (fst (fst res)) = false -> snd (fst res) = g /\ snd res = [])
  /\ (forall s socket gid,
        Obj.get gid (Server.games s) = Some g ->
        Server.acting_player socket g s = Some sid ->
        Game.ok (fst (fst res)) = false ->
        exists msg,
          Server.onMakeMove now socket gid position s = (s, [Emit socket (error msg)])).
Proof.
  intros res. subst res.
  pose proof (makeMove_cases now sid position g) as Hc.
  pose proof (rejection_iff sid position g) as Hiff.
  pose proof (rejection_fails_with sid position g) as Hwhy.
  destruct (rejection sid position g) as [why0|] eqn:E.
  - rewrite Hc. simpl. repeat split; auto.
    + intros _. apply Hiff. eauto.
    + intros [= <-]. by apply Hwhy.
    + intros H. apply Hwhy in H. congruence.
    + intros s socket gid Hg Hp _.
      apply (onMakeMove_rejected now socket gid position s g sid Hg Hp).
      by rewrite Hc.
  - repeat split.
    + congruence.
    + intros H. apply Hiff in H as [? ?]. discriminate.
    + intros H. rewrite H in Hc. discriminate.
    + intros H. apply Hwhy in H. discriminate.
    + congruence.
    + congruence.
    + intros s socket gid _ _ H. congruence.
Qed.

Lemma makeMove_rejects_exactly_witness :
  let srv := Server.set_games [("game_1", before_draw)] Server.init in
  Server.onMakeMove 3000 "bob" "game_1" 8 srv = (srv, [Emit "bob" (error "Not your turn")])
  /\ exists msg,
       Server.onMakeMove 3000 "alice" "game_1" 0 srv = (srv, [Emit "alice" (error msg)]).
Proof.
  intros srv. split; [by vm_compute|].
  refine (proj2 (proj2 (proj2 (makeMove_rejects_exactly 3000 "alice" 0 before_draw)))
            srv "alice" "game_1" _ _ _); by vm_compute.
Defined.

(** ** Turn timeouts *)

Lemma get_set_same {V} k (v : V) o : Obj.get k (Obj.set k v o) = Some v.
Proof.
  induction o as [|[k' v'] o IH]; simpl.
  - by rewrite String.eqb_refl.
  - destruct (String.eqb k' k) eqn:E; simpl.
    + by rewrite String.eqb_refl.
    + by rewrite E.
Qed.

(** The shape of an accepted move. *)
Lemma makeMove_accept_shape now sid position g :
  rejection sid position g = None ->
  let b' := array_set (Game.board g) (Z.to_nat position)
              (match Game.currentPlayerSymbol g with Some m => Mark m | None => Undef end) in
  exists r g1 effs,
    Game.makeMove now sid position g = (r, g1, effs) /\
    Game.board g1 = b' /\ Game.id g1 = Game.id g /\
    match checkWinner b' with
    | Draw => (exists o, r = Game.IsDraw o) /\ Game.status g1 = finished
    | Won m l => (exists w, r = Game.IsWin w l) /\ Game.status g1 = finished
    | Ongoing => r = Game.Accepted /\ Game.status g1 = playing /\
                 Game.turn g1 = Game.other_than (Game.turn g) g
    end.
Proof.
  intros Hrej b'. pose proof (rejection_none _ _ _ Hrej) as (Hst & _).
  unfold rejection in Hrej. unfold Game.makeMove.
  pass_guards.
  cbn [Game.board Game.set_moveCount Game.set_isFirstTurn Game.set_board]. fold b'.
  destruct (checkWinner b') as [m l| |].
  - do 3 eexists. split; [reflexivity|]. destruct g; simpl. eauto 6.
  - do 3 eexists. split; [reflexivity|]. destruct g; simpl. eauto 6.
  - match goal with
    | |- context [Game.startTurnTimer ?n ?x] =>
        pose proof (startTurnTimer_fst n x) as Hg3;
        destruct (Game.startTurnTimer n x) as [g3 effs]
    end.
    simpl in Hg3. subst g3.
    do 3 eexists. split; [reflexivity|]. destruct g; simpl in *. subst. auto.
Qed.

(** On a board without a completed line, a line completed by a placement
    is a line of the mark placed. *)
Lemma win_by_placement b i m m' l :
  checkWinner b = Ongoing ->
  checkWinner (array_set b i (Mark m)) = Won m' l ->
  m' = m /\ In l lines /\ mono (array_set b i (Mark m)) l m.
Proof.
  unfold checkWinner. intros Hb Hw.
  destruct (first_won b lines) as [[? ?]|] eqn:Eb; [discriminate|].
  destruct (first_won (array_set b i (Mark m)) lines) as [[m0 l0]|] eqn:Ew.
  2:{ destruct (forallb _ (array_set _ _ _)); discriminate. }
  injection Hw as -> ->.
  apply first_won_some in Ew as [Hin Hm].
  assert (m' = m); [|subst; auto].
  destruct l as [[x y] z]. simpl in Hm. destruct Hm as (Hx & Hy & Hz).
  destruct (Nat.eq_dec i x) as [->|Nx].
  { rewrite cell_at_array_set in Hx. congruence. }
  destruct (Nat.eq_dec i y) as [->|Ny].
  { rewrite cell_at_array_set in Hy. congruence. }
  destruct (Nat.eq_dec i z) as [->|Nz].
  { rewrite cell_at_array_set in Hz. congruence. }
  rewrite cell_at_array_set_ne in Hx, Hy, Hz by done.
  exfalso. apply (proj1 (first_won_none b lines) Eb (x, y, z) m' Hin). by repeat split.
Qed.

Lemma handleDraw_on_fields now g :
  Game.board (fst (handleDraw_on now g)) = empty_board /\
  Game.status (fst (handleDraw_on now g)) = playing.
Proof. unfold handleDraw_on. by destruct g. Qed.

Lemma addPlayer_board sid addr bot coin g :
  Game.board (snd (Game.addPlayer sid addr bot coin g)) = Game.board g.
Proof. unfold Game.addPlayer. by destruct (length _ =? 2)%nat. Qed.

(** In a reachable match that is [playing], the board has no completed
    line and is not full: the premises of the timeout analysis below hold
    whenever a turn timer can fire. *)
Lemma reachable_playing_ongoing g :
  reachable g -> Game.status g = playing -> checkWinner (Game.board g) = Ongoing.
Proof.
  induction 1 as [gid bet p1 a1 b1 p2 a2 b2 coin now Hne | g now sid position Hr IH].
  - intros _. unfold fresh, begin. rewrite startTurnTimer_fst. cbn.
    by rewrite !addPlayer_board.
  - unfold play. destruct (rejection sid position g) as [why|] eqn:E.
    { by rewrite (makeMove_rejected now _ _ _ _ E). }
    destruct (makeMove_accept_shape now sid position g E)
      as (r & g1 & effs & Hmk & Hb & _ & Hcase).
    rewrite Hmk. revert Hcase.
    destruct (checkWinner (array_set _ _ _)) as [m l| |] eqn:Ecw.
    + intros [[w ->] Hfin] Hst. congruence.
    + intros [[o ->] _] _. by rewrite (proj1 (handleDraw_on_fields now g1)).
    + intros (-> & _ & _) _. by rewrite Hb.
Qed.

Lemma handleGameEnd_game gid w s g :
  Obj.get gid (Server.games s) = Some g ->
  Obj.get gid (Server.games (fst (Server.handleGameEnd gid w s)))
    = Some (Game.clearTurnTimer (Game.set_status finished g)).
Proof.
  intros Hg. unfold Server.handleGameEnd. rewrite Hg. simpl. apply get_set_same.
Qed.

Lemma available_pos board : (exists i, free board i) -> (0 <? length (available board))%nat = true.
Proof.
  intros [i Hi]. apply free_available in Hi.
  destruct (available board); [destruct Hi | done].
Qed.

Lemma ongoing_free b : checkWinner b = Ongoing -> exists i, free b i.
Proof.
  unfold checkWinner. destruct (first_won b lines) as [[? ?]|]; [discriminate|].
  destruct (forallb _ b) eqn:E; [discriminate|]. intros _.
  assert (H : exists c, In c b /\ is_null c = true).
  { clear -E. induction b as [|c b IH]; simpl in E; [discriminate|].
    destruct (is_null c) eqn:Ec; simpl in E.
    - exists c. split; [by left | done].
    - destruct (IH E) as (c' & ? & ?). exists c'. split; [by right | done]. }
  destruct H as (c & Hin & Hc).
  destruct (In_nth b c Undef Hin) as (i & _ & Hi).
  exists i. unfold free, cell_at. rewrite Hi. by destruct c.
Qed.

(** [Object.keys(this.players).find(id => this.players[id].symbol === winner)],
    the seat [makeMove] records as winner of a line of mark [m]. *)
Definition symbol_holder (m : mark) (g : Game.t) : option string :=
  List.find (fun i => match Obj.get i (Game.players g) with
                      | Some p => mark_eqb (symbol p) m
                      | None => false
                      end) (Obj.keys (Game.players g)).

(** Seat [who], seated as [P], is the only seat holding its mark. *)
Definition sole_holder (who : string) (P : Player) (g : Game.t) : Prop :=
  forall q Q, Obj.get q (Game.players g) = Some Q -> symbol Q = symbol P -> q = who.

Lemma get_some_key {V} k (v : V) o : Obj.get k o = Some v -> In k (Obj.keys o).
Proof.
  unfold Obj.keys. induction o as [|[k0 v0] o IH]; simpl; [discriminate|].
  destruct (String.eqb_spec k0 k) as [->|]; [by left|].
  intros H. right. by apply IH.
Qed.

Lemma symbol_holder_sole who P g :
  Obj.get who (Game.players g) = Some P -> sole_holder who P g ->
  symbol_holder (symbol P) g = Some who.
Proof.
  intros HP Hsole. unfold symbol_holder.
  destruct (List.find _ _) as [q|] eqn:E.
  - apply List.find_some in E as [_ Hq].
    destruct (Obj.get q (Game.players g)) as [Q|] eqn:EQ; [|discriminate].
    apply mark_eqb_eq in Hq. by rewrite (Hsole q Q EQ Hq).
  - pose proof (List.find_none _ _ E who (get_some_key _ _ _ HP)) as Hn.
    cbv beta in Hn. rewrite HP in Hn.
    assert (Ht : mark_eqb (symbol P) (symbol P) = true) by by apply mark_eqb_eq.
    congruence.
Qed.

Lemma reachable_sole_holder g who P :
  reachable g -> Obj.get who (Game.players g) = Some P -> sole_holder who P g.
Proof.
  intros Hr HP.
  destruct (reachable_inv g Hr) as (p1 & p2 & P1 & P2 & Hne & HX & HO & Hinv).
  destruct Hinv as (Hp & _).
  assert (Hseat : forall k K, Obj.get k (Game.players g) = Some K ->
                          (k = p1 /\ K = P1) \/ (k = p2 /\ K = P2)).
  { intros k K HK. rewrite Hp in HK. simpl in HK.
    destruct (String.eqb_spec p1 k) as [E|E]; [left; split; congruence|].
    destruct (String.eqb_spec p2 k) as [E'|E']; [right; split; congruence | discriminate]. }
  intros q Q HQ Hsym.
  destruct (Hseat who P HP) as [[-> ->]|[-> ->]];
    destruct (Hseat q Q HQ) as [[-> ->]|[-> ->]]; congruence.
Qed.

(** The winner recorded by a winning move. *)
Lemma makeMove_win_recorded now sid position g m l :
  rejection sid position g = None ->
  checkWinner (array_set (Game.board g) (Z.to_nat position)
                 (match Game.currentPlayerSymbol g with
                  | Some m => Mark m
                  | None => Undef
                  end)) = Won m l ->
  exists g1,
    Game.makeMove now sid position g = (Game.IsWin (symbol_holder m g) l, g1, []) /\
    Game.winner g1 = WonBy (symbol_holder m g).
Proof.
  intros Hrej Hcw. unfold rejection in Hrej. unfold Game.makeMove.
  pass_guards.
  cbn [Game.board Game.set_moveCount Game.set_isFirstTurn Game.set_board].
  rewrite Hcw. eexists. split; [reflexivity|]. by destruct g.
Qed.

Lemma timeout_human now gid s game who P t n :
  Obj.get gid (Server.games s) = Some game -> Game.id game = gid ->
  Game.status game = playing -> Game.turn game = Some who ->
  Obj.get who (Game.players game) = Some P -> isBot P = false ->
  Server.handleTimeout now gid s t n
    = (Server.handleGameEnd gid (Game.other_than (Some who) game) s, n).
Proof.
  intros Hg Hid Hst Ht HP Hb. unfold Server.handleTimeout.
  by rewrite Hg, Hst, Ht, HP, Hb, Hid.
Qed.

Lemma timeout_bot now gid s game who P t n :
  Obj.get gid (Server.games s) = Some game -> Game.id game = gid ->
  Game.status game = playing -> Game.turn game = Some who ->
  Obj.get who (Game.players game) = Some P -> isBot P = true ->
  in_range t -> length (Game.board game) = 9%nat ->
  checkWinner (Game.board game) = Ongoing ->
  exists move,
    fst (pick (available (Game.board game)) t n) = Some move /\
    free (Game.board game) move /\
    snd (Server.handleTimeout now gid s t n) = S n /\
    let board1 := array_set (Game.board game) move (Mark (symbol P)) in
    exists game',
      Obj.get gid (Server.games (fst (fst (Server.handleTimeout now gid s t n)))) = Some game' /\
      match checkWinner board1 with
      | Ongoing => Game.board game' = board1 /\ Game.status game' = playing /\
                   Game.turn game' = Game.other_than (Some who) game
      | Draw => Game.board game' = empty_board /\ Game.status game' = playing
      | Won m l => m = symbol P /\ Game.board game' = board1 /\
                   Game.status game' = finished /\
                   Game.winner game' = WonBy (symbol_holder (symbol P) game) /\
                   (sole_holder who P game -> Game.winner game' = WonBy (Some who))
      end.
Proof.
  intros Hg Hid Hst Ht HP Hb Hr Hlen Hon.
  pose proof (ongoing_free _ Hon) as Hfree.
  assert (Hne : available (Game.board game) <> []).
  { destruct Hfree as [i Hi]. apply free_available in Hi.
    intros E. rewrite E in Hi. destruct Hi. }
  destruct (pick_In _ t n Hr Hne) as (move & Hpick & Hin).
  apply available_free in Hin.
  exists move. rewrite Hpick. split; [done|]. split; [done|].
  assert (Hmv : (move < 9)%nat).
  { rewrite <- Hlen. apply cell_at_lt. unfold free in Hin. rewrite Hin. discriminate. }
  assert (Hrej : rejection who (Z.of_nat move) game = None).
  { destruct (rejection who (Z.of_nat move) game) eqn:E; [|done].
    assert (Hs : is_Some (rejection who (Z.of_nat move) game)) by (rewrite E; eauto).
    apply rejection_iff in Hs. rewrite Nat2Z.id in Hs.
    destruct Hs as [?|[?|[?|[?|?]]]]; try done; lia. }
  assert (Hsym : Game.currentPlayerSymbol game = Some (symbol P)).
  { unfold Game.currentPlayerSymbol. by rewrite Ht, HP. }
  destruct (makeMove_accept_shape now who (Z.of_nat move) game Hrej)
    as (r & g1 & effs1 & Hmk & Hb1 & Hid1 & Hcase).
  rewrite Hsym, Nat2Z.id in Hb1, Hcase.
  unfold Server.handleTimeout.
  rewrite Hg, Hst, Ht, HP, Hb.
  change (negb (Status_eqb playing playing)) with false. cbv iota.
  rewrite (available_pos _ Hfree). unfold bind, ret. rewrite Hpick.
  rewrite Hmk. cbv zeta.
  set (s1 := Server.set_games (Obj.set gid g1 (Server.games s)) s).
  assert (Hs1 : Obj.get (Game.id g1) (Server.games s1) = Some g1).
  { rewrite Hid1, Hid. apply get_set_same. }
  rewrite Hid1, Hid in *.
  match goal with
  | |- context [let '(s2, effs') := ?X in _] => destruct X as [s2 effs'] eqn:E2
  end.
  simpl. split; [done|].
  revert Hcase. rewrite Ht.
  destruct (checkWinner (array_set (Game.board game) move (Mark (symbol P))))
    as [m l| |] eqn:Ecw.
  - intros [[w ->] Hfin].
    destruct (win_by_placement _ _ _ _ _ Hon Ecw) as (-> & _ & _).
    assert (Hwin : Game.winner g1 = WonBy (symbol_holder (symbol P) game)).
    { destruct (makeMove_win_recorded now who (Z.of_nat move) game (symbol P) l Hrej)
        as (g1' & Hmk' & Hw').
      { by rewrite Hsym, Nat2Z.id. }
      rewrite Hmk in Hmk'. by injection Hmk' as _ <-. }
    assert (Hsole : sole_holder who P game ->
                    Game.winner g1 = WonBy (Some who)).
    { intros Hs. by rewrite Hwin, (symbol_holder_sole who P game HP Hs). }
    destruct (truthy w).
    + exists (Game.clearTurnTimer (Game.set_status finished g1)).
      split.
      * rewrite <- (handleGameEnd_game gid w s1 g1 Hs1). by rewrite E2.
      * by destruct g1.
    + exists g1. split; [|done].
      destruct (Game.turn_is_bot g1); injection E2 as <- _; done.
  - intros [[o ->] Hfin].
    unfold Server.handleDraw in E2. rewrite Hs1 in E2.
    pose proof (handleDraw_on_fields now g1) as Hf.
    destruct (handleDraw_on now g1) as [g2 e2]. injection E2 as <- _.
    exists g2. split; [apply get_set_same | done].
  - intros (-> & Hpl & Htn).
    exists g1. split; [|done].
    destruct (Game.turn_is_bot g1); injection E2 as <- _; done.
Qed.

(** C5 (as the code has it). When the turn timer of a [playing] match
    fires: if the mover is human, the timeout is handled as the end of the
    match with the other slot as winner - no draw from the tape, no move,
    board and move counter untouched, status [finished]; if the mover is
    automated (on a nine-cell board with no completed line), one free cell
    is drawn at random from the free cells and the automated side's mark
    is placed there as an ordinary move: the turn passes to the other
    slot, or the round restarts after a draw, or - when the placement
    completes a line of the automated side - the match is [finished] and
    the winner recorded is the first seat holding that side's mark: the
    automated side itself whenever it is the only seat holding its mark,
    as it is in every match reachable from a fresh one. The automated
    side never forfeits. *)
Theorem timeout_outcome (now : Z) (gid : string) (s : Server.t) (game : Game.t)
    (who : string) (P : Player) (t : nat -> Q) (n : nat) :
  Obj.get gid (Server.games s) = Some game -> Game.id game = gid ->
  Game.status game = playing -> Game.turn game = Some who ->
  Obj.get who (Game.players game) = Some P ->
  (isBot P = false ->
     Server.handleTimeout now gid s t n
       = (Server.handleGameEnd gid (Game.other_than (Some who) game) s, n)
     /\ exists game',
          Obj.get gid (Server.games (fst (fst (Server.handleTimeout now gid s t n))))
            = Some game' /\
          Game.status game' = finished /\ Game.board game' = Game.board game /\
          Game.moveCount game' = Game.moveCount game)
  /\ (isBot P = true -> in_range t -> length (Game.board game) = 9%nat ->
      checkWinner (Game.board game) = Ongoing ->
      exists move,
        fst (pick (available (Game.board game)) t n) = Some move /\
        free (Game.board game) move /\
        snd (Server.handleTimeout now gid s t n) = S n /\
        let board1 := array_set (Game.board game) move (Mark (symbol P)) in
        exists game',
          Obj.get gid (Server.games (fst (fst (Server.handleTimeout now gid s t n))))
            = Some game' /\
          match checkWinner board1 with
          | Ongoing => Game.board game' = board1 /\ Game.status game' = playing /\
                       Game.turn game' = Game.other_than (Some who) game
          | Draw => Game.board game' = empty_board /\ Game.status game' = playing
          | Won m l => m = symbol P /\ Game.board game' = board1 /\
                       Game.status game' = finished /\
                       Game.winner game' = WonBy (symbol_holder (symbol P) game) /\
                       (sole_holder who P game ->
                        Game.winner game' = WonBy (Some who))
          end)
  /\ (reachable game -> sole_holder who P game).
Proof.
  intros Hg Hid Hst Ht HP. split; [|split].
  - intros Hb. rewrite (timeout_human now gid s game who P t n) by done.
    split; [done|]. simpl.
    exists (Game.clearTurnTimer (Game.set_status finished game)).
    split; [by apply handleGameEnd_game | by destruct game].
  - intros Hb Hr Hlen Hon. by apply (timeout_bot now gid s game who P t n).
  - intros Hreach. by apply reachable_sole_holder.
Qed.

(** A match of alice (X) against an automated opponent (O) in which the
    opponent holds cells 0 and 1 and is on turn. *)
Definition bot_match : Game.t :=
  Eval vm_compute in
    fold_left (fun g '(s, p) => play 2000 s p g)
      [("alice", 3); ("bot_1", 0); ("alice", 4); ("bot_1", 1); ("alice", 6)]
      (fresh "game_1" 300 "alice" alice false
         "bot_1" (Some "ace7@speed.app") true true 1000).

Lemma bot_match_reachable : reachable bot_match.
Proof.
  assert (E : bot_match =
              fold_left (fun g '(s, p) => play 2000 s p g)
                [("alice", 3); ("bot_1", 0); ("alice", 4); ("bot_1", 1); ("alice", 6)]
                (fresh "game_1" 300 "alice" alice false
                   "bot_1" (Some "ace7@speed.app") true true 1000))
    by (by vm_compute).
  rewrite E. simpl fold_left. repeat apply reach_play. apply reach_fresh. discriminate.
Qed.

Definition bot_match_server : Server.t :=
  Server.set_games [("game_1", bot_match)] Server.init.

Lemma timeout_outcome_witness :
  Game.turn bot_match = Some "bot_1" /\
  exists move,
    free (Game.board bot_match) move /\
    exists game',
      Obj.get "game_1"
        (Server.games (fst (fst (Server.handleTimeout 9000 "game_1" bot_match_server
                                   zero_tape 0%nat)))) = Some game' /\
      Game.status game' = finished /\
      Game.winner game' = WonBy (Some "bot_1").
Proof.
  split; [reflexivity|].
  pose proof (timeout_outcome 9000 "game_1" bot_match_server bot_match "bot_1"
                (mkPlayer "bot_1" (Some "ace7@speed.app") true O false)
                zero_tape 0%nat eq_refl eq_refl eq_refl eq_refl eq_refl)
    as (_ & Hbot & Hsole).
  destruct (Hbot eq_refl zero_tape_in_range eq_refl eq_refl)
    as (move & Hpick & Hfree & _ & game' & Hget & Hcase).
  exists move. split; [exact Hfree|]. exists game'. split; [exact Hget|].
  assert (Hm : move = 2%nat) by (vm_compute in Hpick; congruence).
  subst move.
  destruct Hcase as (_ & _ & Hfin & _ & Hwin).
  split; [exact Hfin | exact (Hwin (Hsole bot_match_reachable))].
Defined.

(** The claim of the specification fails on the code: the timeout of an
    automated mover does not always leave the match running. Here its
    random placement (cell 2) completes the line 0-1-2 and the match is
    finished. *)
Lemma bot_timeout_can_end_match :
  Game.status bot_match = playing /\
  Game.turn bot_match = Some "bot_1" /\
  (Game.status <$>
     Obj.get "game_1"
       (Server.games (fst (fst (Server.handleTimeout 9000 "game_1" bot_match_server
                                  zero_tape 0%nat))))) = Some finished /\
  (Game.winner <$>
     Obj.get "game_1"
       (Server.games (fst (fst (Server.handleTimeout 9000 "game_1" bot_match_server
                                  zero_tape 0%nat))))) = Some (WonBy (Some "bot_1")).
Proof. repeat split; by vm_compute. Qed.

(** ** Lifetime of the opponent's session *)

Lemma handleGameEnd_activeBots gid w s :
  Server.activeBots (fst (Server.handleGameEnd gid w s)) = Server.activeBots s.
Proof. unfold Server.handleGameEnd. by destruct (Obj.get gid (Server.games s)). Qed.

Lemma handleGameEnd_shadowed_activeBots gid w s g :
  Obj.get gid (Server.games s) = Some g ->
  Server.activeBots (fst (Server.handleGameEnd_shadowed gid w s)) !! gid = None.
Proof.
  intros Hg. unfold Server.handleGameEnd_shadowed. rewrite Hg. simpl.
  destruct (Server.activeBots s !! gid) eqn:E; simpl.
  - apply lookup_delete_eq.
  - done.
Qed.

(** C9 (what the code does). The [handleGameEnd] in force finishes the
    match and leaves its session in [activeBots]; the session is still
    there after the match has been evicted. The declaration it replaces
    is the one that would have removed it. *)
Theorem session_survives_game_end (gid : string) (w : option string) (s : Server.t)
    (g : Game.t) (bot : BotPlayer.t) :
  Obj.get gid (Server.games s) = Some g ->
  Server.activeBots s !! gid = Some bot ->
  let s' := fst (Server.handleGameEnd gid w s) in
  (Game.status <$> Obj.get gid (Server.games s')) = Some finished
  /\ Server.activeBots s' !! gid = Some bot
  /\ Server.activeBots (Server.evict gid s') !! gid = Some bot
  /\ Server.activeBots (fst (Server.handleGameEnd_shadowed gid w s)) !! gid = None.
Proof.
  intros Hg Hb s'. subst s'.
  rewrite (handleGameEnd_game gid w s g Hg).
  split; [by destruct g|].
  unfold Server.evict. simpl. rewrite handleGameEnd_activeBots.
  repeat split; try done. by apply (handleGameEnd_shadowed_activeBots gid w s g).
Qed.

(** A server on which alice has asked for a match at 300 sats. *)
Definition lobby : Server.t :=
  Server.set_players [("alice", mkMeta alice 300 false false None)] Server.init.

(** alice pays, waits alone, and the spawn timer attaches an automated
    opponent; the countdown elapses (alice holds the first turn); alice
    lets her turn time out. *)
Definition after_join : Server.t :=
  Eval vm_compute in
    fst (fst (Server.onPaymentConfirmed 1000 "game_1000" "alice" 15000 lobby zero_tape 0%nat)).

Definition after_spawn : Server.t :=
  Eval vm_compute in
    fst (fst (Server.spawnBot 16000 "alice" "bot_1" (Some "ace7@speed.app")
                after_join zero_tape 0%nat)).

Definition after_start : Server.t :=
  Eval vm_compute in fst (Server.startMatch 21000 "game_1000" after_spawn).

Definition after_timeout : Server.t :=
  Eval vm_compute in
    fst (fst (Server.handleTimeout 29000 "game_1000" after_start zero_tape 0%nat)).

Lemma session_survives_game_end_witness :
  (Game.status <$> Obj.get "game_1000" (Server.games after_start)) = Some playing /\
  (Game.status <$> Obj.get "game_1000" (Server.games after_timeout)) = Some finished /\
  is_Some (Server.activeBots after_timeout !! "game_1000") /\
  Obj.get "game_1000" (Server.games (Server.evict "game_1000" after_timeout)) = None /\
  is_Some (Server.activeBots (Server.evict "game_1000" after_timeout) !! "game_1000").
Proof.
  split; [reflexivity|]. split; [reflexivity|].
  destruct (Server.activeBots after_start !! "game_1000") as [bot|] eqn:Eb;
    [|by vm_compute in Eb].
  destruct (Obj.get "game_1000" (Server.games after_start)) as [g|] eqn:Eg;
    [|by vm_compute in Eg].
  pose proof (session_survives_game_end "game_1000" (Some "bot_1") after_start g bot Eg Eb)
    as (_ & H1 & H2 & _).
  assert (Hs : after_timeout = fst (Server.handleGameEnd "game_1000" (Some "bot_1") after_start))
    by (by vm_compute).
  rewrite Hs. split; [by rewrite H1|]. split; [by vm_compute|]. by rewrite H2.
Defined.

(** The bot-spawn path of [attemptMatchOrEnqueue] attaches an automated
    opponent without creating a session, and the test endpoint creates a
    session without a match. *)
Lemma session_without_match_and_conversely :
  let queued := Server.set_waitingQueue ["alice"] lobby in
  let s := fst (fst (Server.spawnBotQueued 16000 "game_7" "alice" "bot_1" alice
                      (Some "ace7@speed.app") 300 queued zero_tape 0%nat)) in
  (existsb (fun '(_, p) => isBot p) <$> (Game.players <$> Obj.get "game_7" (Server.games s)))
    = Some true
  /\ Server.activeBots s !! "game_7" = None
  /\ let s2 := fst (Server.forceSpawn "test_1" 50 (Some "test@speed.app") lobby zero_tape 0%nat) in
     is_Some (Server.activeBots s2 !! "test_1") /\ Obj.get "test_1" (Server.games s2) = None.
Proof.
  intros queued s. split; [by vm_compute|]. split; [by vm_compute|].
  intros s2. split; [|by vm_compute]. vm_compute. eauto.
Qed.

(** ** Marks of the two slots *)

(** A human who joins a new match and an automated opponent attached next
    hold X and O, in that order. *)
Lemma bot_attached_marks gid bet h a botId botAddress coin1 coin2 :
  h <> botId ->
  Game.players
    (snd (Game.addPlayer botId botAddress true coin2
            (snd (Game.addPlayer h a false coin1 (Game.new gid bet)))))
  = [(h, mkPlayer h a false X false); (botId, mkPlayer botId botAddress true O false)].
Proof.
  intros Hne. apply String.eqb_neq in Hne.
  unfold Game.addPlayer, Game.new. cbn. by rewrite Hne.
Qed.

(** alice pays a second invoice before the spawn timer fires: the webhook
    finds her own waiting match and adds her to it again. *)
Definition after_second_payment : Server.t :=
  Eval vm_compute in
    fst (fst (Server.onPaymentConfirmed 5000 "game_5000" "alice" 15000 after_join
                zero_tape 0%nat)).

Definition after_spawn_twice_paid : Server.t :=
  Eval vm_compute in
    fst (fst (Server.spawnBot 16000 "alice" "bot_1" (Some "ace7@speed.app")
                after_second_payment zero_tape 0%nat)).

(** C10 (what the code does). On the ordinary path the human holds X in
    the first slot and the automated opponent O in the second; but the
    webhook does not check whether the paying socket already sits in a
    match, so after a second payment the human's slot is rewritten with O
    and the automated opponent, attached next, holds O as well. *)
Theorem slot_marks_after_repeated_join :
  (Game.players <$> Obj.get "game_1000" (Server.games after_spawn))
    = Some [("alice", mkPlayer "alice" alice false X false);
            ("bot_1", mkPlayer "bot_1" (Some "ace7@speed.app") true O false)]
  /\ (Game.players <$> Obj.get "game_1000" (Server.games after_spawn_twice_paid))
    = Some [("alice", mkPlayer "alice" alice false O false);
            ("bot_1", mkPlayer "bot_1" (Some "ace7@speed.app") true O false)].
Proof. split; reflexivity. Qed.

(** The same-mark seating in play: after the start, alice 0, the
    automated opponent 1, alice 3, and the automated opponent on turn. *)
Definition same_mark_match : Server.t :=
  Eval vm_compute in
    let started := fst (Server.startMatch 21000 "game_1000" after_spawn_twice_paid) in
    match Obj.get "game_1000" (Server.games started) with
    | Some g =>
        Server.set_games
          [("game_1000",
            fold_left (fun g '(s, p) => play 22000 s p g)
              [("alice", 0); ("bot_1", 1); ("alice", 3)] g)] started
    | None => started
    end.

(** With both seats holding O the timeout of the automated mover can
    complete a line of O (here 0-1-2) that is recorded for, and paid out
    to, the human seated first: the automated side is sure to be the
    winner of its own line only when no other seat holds its mark. *)
Lemma same_mark_timeout_records_first_seat :
  (Game.turn <$> Obj.get "game_1000" (Server.games same_mark_match)) = Some (Some "bot_1") /\
  (Game.winner <$>
     Obj.get "game_1000"
       (Server.games (fst (fst (Server.handleTimeout 30000 "game_1000" same_mark_match
                                  zero_tape 0%nat))))) = Some (WonBy (Some "alice")) /\
  In (PayoutVia ["alice"] (Some "alice") 300 "game_1000" alice)
     (snd (fst (Server.handleTimeout 30000 "game_1000" same_mark_match zero_tape 0%nat))).
Proof. repeat split; vm_compute; tauto. Qed.

(** * Further properties of the match *)

(** ** Who wins a move *)

Lemma marks_le_length b : (marks X b + marks O b <= length b)%nat.
Proof.
  unfold marks. induction b as [|c b IH]; simpl; [lia|].
  destruct c as [|[]|]; simpl; lia.
Qed.

Lemma marks_lt_length b i :
  free b i -> (marks X b + marks O b < length b)%nat.
Proof.
  unfold marks, free, cell_at. revert i.
  induction b as [|c b IH]; intros [|i] H; simpl in *; try discriminate.
  - subst c. simpl. pose proof (marks_le_length b). unfold marks in *. lia.
  - specialize (IH i H). destruct c as [|[]|]; simpl; lia.
Qed.

(** X1. In a reachable match a round has at most nine placements, and
    while the match is [playing] at most eight: the move counter never
    exceeds the number of cells, and a playing board always has a free
    cell. *)
Theorem moveCount_bounded (g : Game.t) :
  reachable g ->
  (Game.moveCount g <= 9)%nat
  /\ (Game.status g = playing ->
      (Game.moveCount g <= 8)%nat /\ exists i, (i < 9)%nat /\ free (Game.board g) i).
Proof.
  intros Hr.
  destruct (reachable_inv g Hr) as (p1 & p2 & P1 & P2 & _ & _ & _ & Hinv).
  destruct Hinv as (_ & Hlen & _ & _ & s & _ & _ & _ & Ht & _).
  split.
  - rewrite <- Ht, <- Hlen. apply marks_le_length.
  - intros Hst.
    destruct (ongoing_free _ (reachable_playing_ongoing g Hr Hst)) as [i Hi].
    pose proof (marks_lt_length _ i Hi) as Hlt.
    split; [lia|]. exists i. split; [|done].
    rewrite <- Hlen. apply cell_at_lt. unfold free in Hi. rewrite Hi. discriminate.
Qed.

Lemma moveCount_bounded_witness :
  reachable sample_match /\ (Game.moveCount sample_match <= 8)%nat.
Proof.
  split; [exact sample_match_reachable|].
  exact (proj1 (proj2 (moveCount_bounded sample_match sample_match_reachable) eq_refl)).
Defined.

(** X2. In a reachable match a move that wins, wins for its mover: the
    winner returned and recorded is the acting slot, the line recorded is
    one of the eight lines and holds the mover's mark, and the match is
    [finished] with its timer cleared. No move makes the other slot win. *)
Theorem winner_is_mover (g g1 : Game.t) (now : Z) (sid : string) (position : Z)
    (w : option string) (l : line) (effs : list effect) :
  reachable g ->
  Game.makeMove now sid position g = (Game.IsWin w l, g1, effs) ->
  w = Some sid /\ Game.winner g1 = WonBy (Some sid) /\
  Game.winLine g1 = Game.line_cells l /\ In l lines /\
  (exists m, symbol <$> Obj.get sid (Game.players g) = Some m /\ mono (Game.board g1) l m) /\
  Game.status g1 = finished /\ Game.turnTimer g1 = None /\ effs = [].
Proof.
  intros Hr Hmv.
  destruct (reachable_inv g Hr) as (p1 & p2 & P1 & P2 & Hne & HX & HO & Hinv).
  destruct Hinv as (Hp & Hlen & Hcells & Hst & s & Hs & Hseat & Hd & Ht & Hturn).
  assert (Hok : Game.ok (fst (fst (Game.makeMove now sid position g))) = true)
    by (by rewrite Hmv).
  apply ok_not_rejected in Hok.
  destruct (rejection_none _ _ _ Hok) as (Hpl & Hsid & _ & Hfree).
  pose proof (reachable_playing_ongoing g Hr Hpl) as Hon.
  specialize (Hturn Hpl).
  assert (Hseat' : seated p1 p2 sid).
  { assert (sid = mover p1 p2 s (Game.moveCount g)) as -> by congruence.
    by apply mover_seated. }
  pose proof (symbol_seated p1 p2 P1 P2 Hne HX HO g sid Hp Hseat') as Hsym.
  assert (Hcur : Game.currentPlayerSymbol g = Some (sym_of p1 sid)).
  { unfold Game.currentPlayerSymbol. by rewrite Hsid. }
  revert Hmv. unfold rejection in Hok. unfold Game.makeMove.
  pass_guards. rewrite Hcur.
  cbn [Game.board Game.set_moveCount Game.set_isFirstTurn Game.set_board].
  destruct (checkWinner (array_set _ _ _)) as [m l0| |] eqn:Ecw; try discriminate.
  destruct (win_by_placement _ _ _ _ _ Hon Ecw) as (-> & Hin & Hmono).
  assert (Hfind : List.find (fun i => match Obj.get i [(p1, P1); (p2, P2)] with
                                      | Some p => mark_eqb (symbol p) (sym_of p1 sid)
                                      | None => false
                                      end) (Obj.keys [(p1, P1); (p2, P2)]) = Some sid).
  { unfold sym_of. destruct Hseat' as [->| ->]; simpl.
    - by rewrite !String.eqb_refl, HX.
    - rewrite !String.eqb_refl, (eqb_p1_p2 p1 p2 Hne), (eqb_p2_p1 p1 p2 Hne), HX, HO.
      by simpl. }
  cbn [Game.players Game.clearTurnTimer Game.set_status Game.set_turnTimer
       Game.set_moveCount Game.set_isFirstTurn Game.set_board].
  rewrite Hp, Hfind. rewrite Hp in Hsym.
  intros [= <- <- <- <-]. cbn [Game.winner Game.winLine Game.status Game.turnTimer
    Game.board Game.set_winLine Game.set_winner].
  repeat split; auto.
  exists (sym_of p1 sid). split; [exact Hsym | exact Hmono].
Qed.

Lemma winner_is_mover_witness :
  exists g1 effs,
    Game.makeMove 9000 "bot_1" 2 bot_match = (Game.IsWin (Some "bot_1") (0, 1, 2)%nat, g1, effs)
    /\ Game.winner g1 = WonBy (Some "bot_1").
Proof.
  destruct (Game.makeMove 9000 "bot_1" 2 bot_match) as [[r g1] effs] eqn:E.
  assert (Hr : r = Game.IsWin (Some "bot_1") (0, 1, 2)%nat) by (vm_compute in E; congruence).
  subst r. exists g1, effs. split; [reflexivity|].
  exact (proj1 (proj2 (winner_is_mover bot_match g1 9000 "bot_1" 2 _ _ effs
                         bot_match_reachable E))).
Defined.

(** ** Turn allowances *)

Lemma addPlayer_isFirstTurn sid addr bot coin g :
  Game.isFirstTurn (snd (Game.addPlayer sid addr bot coin g)) = Game.isFirstTurn g.
Proof. unfold Game.addPlayer. by destruct (length _ =? 2)%nat. Qed.

(** X3. The eight-second allowance is that of the opening move of a round
    only: a match that starts with its first-turn flag set gets the
    deadline [now + 8000]; every accepted move that leaves the round open
    clears the flag and arms [now + 5000] for the next mover; a move that
    ends the round clears the timer and arms nothing; a rejected move
    leaves timer and deadline as they were. *)
Theorem turn_allowance (now : Z) (sid : string) (position : Z) (g : Game.t) :
  Game.turnDeadlineAt (begin now g)
    = Some (now + (if Game.isFirstTurn g then 8000 else 5000))
  /\ (forall gid bet p1 a1 b1 p2 a2 b2 coin,
        Game.turnDeadlineAt (fresh gid bet p1 a1 b1 p2 a2 b2 coin now) = Some (now + 8000))
  /\ let '(r, g1, _) := Game.makeMove now sid position g in
     match r with
     | Game.Accepted =>
         Game.turnDeadlineAt g1 = Some (now + 5000) /\
         Game.turnTimer g1 = Some (now + 5000) /\ Game.isFirstTurn g1 = false
     | Game.IsWin _ _ | Game.IsDraw _ =>
         Game.turnTimer g1 = None /\ Game.turnDeadlineAt g1 = Game.turnDeadlineAt g
     | Game.Rejected _ => g1 = g
     end.
Proof.
  split; [|split].
  - unfold begin. rewrite startTurnTimer_fst. by destruct g.
  - intros. unfold fresh, begin. rewrite startTurnTimer_fst. cbn.
    by rewrite !addPlayer_isFirstTurn.
  - pose proof (makeMove_cases now sid position g) as Hc.
    destruct (rejection sid position g) as [why|] eqn:E.
    { by rewrite Hc. }
    clear Hc. unfold rejection in E. unfold Game.makeMove. pass_guards.
    destruct (checkWinner _).
    + by destruct g.
    + by destruct g.
    + match goal with
      | |- context [Game.startTurnTimer ?n ?x] =>
          pose proof (startTurnTimer_fst n x) as Hg3;
          destruct (Game.startTurnTimer n x) as [g3 effs]
      end.
      simpl in Hg3. subst g3. by destruct g.
Qed.

(** ** Stale events *)

(** X4. Timer, bot and player events that reach a match which is gone from
    the registry or is not [playing] (waiting, counting down, finished)
    change nothing: the turn timeout and the delayed bot move are ignored
    without a draw from the tape and no bot move is planned. A player's
    move for a registered match that is not playing is answered by a
    single error on the acting socket; for an id under which nothing is
    registered the answer is "Game not found", except that an id naming
    an inherited member of the plain registry object ([constructor],
    [__proto__], ...) makes the handler throw, so that nothing is
    emitted. *)
Theorem stale_events_ignored (now : Z) (gid : string) (s : Server.t)
    (t : nat -> Q) (n : nat) :
  match Obj.get gid (Server.games s) with
  | Some g => Game.status g <> playing
  | None => True
  end ->
  Server.handleTimeout now gid s t n = ((s, []), n)
  /\ (forall bot, Server.makeBotMove now gid bot s t n = ((s, []), n))
  /\ (forall bot move, Server.botPlays now gid bot move s = (s, []))
  /\ (forall socket position,
        match Obj.get gid (Server.games s) with
        | Some g =>
            exists msg,
              Server.onMakeMove now socket gid position s
                = (s, [Emit socket (error msg)]) /\
              (msg = "Not your turn" \/
               msg = (if Status_eqb (Game.status g) finished
                      then "Game already finished" else "Game not started"))
        | None =>
            Server.onMakeMove now socket gid position s
              = (s, if inherited gid then []
                    else [Emit socket (error "Game not found")])
        end).
Proof.
  intros H.
  unfold Server.handleTimeout, Server.makeBotMove, Server.botPlays, Server.onMakeMove.
  destruct (Obj.get gid (Server.games s)) as [g|].
  2:{ repeat split; try done. intros socket position. by destruct (inherited gid). }
  assert (Hs : Status_eqb (Game.status g) playing = false).
  { destruct (Status_eqb _ _) eqn:E; [|done]. by apply Status_eqb_eq in E. }
  rewrite Hs. simpl. repeat split.
  - intros bot. by destruct (Server.activeBots s !! gid).
  - intros socket position.
    destruct (Server.acting_player socket g s) as [pid|]; [|by eauto].
    destruct (_ || _); [by eauto|].
    assert (Hrej : rejection pid position g = Some Game.not_playing).
    { unfold rejection. by rewrite Hs. }
    rewrite (makeMove_rejected now _ _ _ _ Hrej). by eauto.
Qed.

Lemma stale_events_ignored_witness :
  Server.handleTimeout 60000 "game_1000" after_timeout zero_tape 0%nat
    = ((after_timeout, []), 0%nat)
  /\ Server.handleTimeout 60000 "nowhere" after_timeout zero_tape 0%nat
    = ((after_timeout, []), 0%nat)
  /\ Server.onMakeMove 60000 "alice" "nowhere" 4 after_timeout
    = (after_timeout, [Emit "alice" (error "Game not found")])
  /\ Server.onMakeMove 60000 "alice" "constructor" 4 after_timeout
    = (after_timeout, []).
Proof.
  split; [|split; [|split]].
  - refine (proj1 (stale_events_ignored 60000 "game_1000" after_timeout zero_tape 0%nat _)).
    vm_compute. discriminate.
  - refine (proj1 (stale_events_ignored 60000 "nowhere" after_timeout zero_tape 0%nat _)).
    by vm_compute.
  - refine (proj2 (proj2 (proj2 (stale_events_ignored 60000 "nowhere" after_timeout
                                   zero_tape 0%nat _))) "alice" 4).
    by vm_compute.
  - refine (proj2 (proj2 (proj2 (stale_events_ignored 60000 "constructor" after_timeout
                                   zero_tape 0%nat _))) "alice" 4).
    by vm_compute.
Defined.

(** * Further properties of matchmaking *)


Lemma find_some_In {A} (f : A -> bool) l x :
  List.find f l = Some x -> In x l /\ f x = true.
Proof. apply List.find_some. Qed.

(** What [addPlayer] does to a match. *)
Lemma addPlayer_shape sid addr bot coin g :
  let sym := if (length (Obj.keys (Game.players g)) =? 0)%nat then X else O in
  let g' := snd (Game.addPlayer sid addr bot coin g) in
  fst (Game.addPlayer sid addr bot coin g) = sym /\
  Game.players g' = Obj.set sid (mkPlayer sid addr bot sym false) (Game.players g) /\
  Game.betAmount g' = Game.betAmount g /\ Game.id g' = Game.id g /\
  Game.board g' = Game.board g /\
  (if (length (Obj.keys (Game.players g')) =? 2)%nat
   then Game.status g' = ready /\ Game.startingPlayer g' = Game.turn g' /\
        Game.turn g' = nth_error (Obj.keys (Game.players g')) (if coin then 0 else 1)
   else Game.status g' = Game.status g /\ Game.turn g' = Game.turn g /\
        Game.startingPlayer g' = Game.startingPlayer g).
Proof.
  unfold Game.addPlayer. cbn zeta.
  set (ps := Obj.set _ _ _).
  assert (E : Game.players (Game.set_players ps g) = ps) by (by destruct g).
  rewrite E. clearbody ps. clear E.
  destruct (length (Obj.keys ps) =? 2)%nat eqn:El; destruct g;
    unfold Obj.keys in *; cbn -[Nat.eqb]; rewrite El; done.
Qed.

Lemma server_addPlayer_shape sid addr bot g t n :
  exists coin n',
    Server.addPlayer sid addr bot g t n = (Game.addPlayer sid addr bot coin g, n').
Proof.
  unfold Server.addPlayer. destruct (length _ =? 2)%nat; unfold bind, random, ret; eauto.
Qed.


Lemma find_none_all {A} (f : A -> bool) l :
  (forall x, In x l -> f x = false) -> List.find f l = None.
Proof.
  induction l as [|a l IH]; intros H; simpl; [done|].
  rewrite (H a) by (by left). apply IH. intros x Hx. apply H. by right.
Qed.

(** The test of the bot-spawn callback: the socket sits alone in the
    match. *)
Definition alone_in (sock : string) (kg : string * Game.t) : bool :=
  match Obj.get sock (Game.players (snd kg)) with
  | Some _ => (length (Obj.keys (Game.players (snd kg))) =? 1)%nat
  | None => false
  end.

Lemma alone_in_players sock kg :
  alone_in sock kg = true -> exists P, Game.players (snd kg) = [(sock, P)].
Proof.
  unfold alone_in, Obj.keys. destruct kg as [k g]. simpl.
  destruct (Game.players g) as [|[k0 P] [|? ?]]; simpl; try discriminate.
  - destruct (String.eqb_spec k0 sock) as [->|]; [|discriminate]. eauto.
  - by destruct (if String.eqb k0 sock then _ else _).
Qed.

Lemma spawnBot_find sock s :
  List.find (fun '(_, g) =>
               match Obj.get sock (Game.players g) with
               | Some _ => (length (Obj.keys (Game.players g)) =? 1)%nat
               | None => false
               end) (Server.games s)
  = List.find (alone_in sock) (Server.games s).
Proof.
  induction (Server.games s) as [|[k g] l IH]; simpl; [done|].
  unfold alone_in at 1. simpl. by rewrite IH.
Qed.

(** X6. The bot-spawn timer callback. If the waiting socket no longer sits
    alone in any match (a second participant has joined, or the socket is
    gone) the callback does nothing and draws nothing. Otherwise, for the
    first match in which the socket is alone: a session is stored under
    that match's id, created for the human's lightning address and the
    match's wager, with the verdict the scripter returns for them and a
    zero draw counter; the scripter's store is advanced accordingly; the
    automated opponent is seated in the second slot with mark O; the
    match is [ready]; only the human is told [matchFound], with opponent
    type "player"; and the start is scheduled after five seconds. *)
Theorem spawnBot_attaches_session (now : Z) (sock botId : string)
    (botAddress : option string) (s : Server.t) (t : nat -> Q) (n : nat) :
  match List.find (alone_in sock) (Server.games s), Obj.get sock (Server.players s) with
  | Some (gid, g), Some me =>
      botId <> sock ->
      let '((s', effs), _) := Server.spawnBot now sock botId botAddress s t n in
      let verdict := determineOutcome (meta_address me) (Game.betAmount g) (t (S n))
                       (Server.store s) in
      (exists bot,
         Server.activeBots s' !! Game.id g = Some bot /\
         BotPlayer.gameId bot = Game.id g /\
         BotPlayer.opponentAddress bot = meta_address me /\
         BotPlayer.betAmount bot = Game.betAmount g /\
         BotPlayer.shouldWin bot = mustWin (fst verdict) /\
         BotPlayer.drawCount bot = 0%nat) /\
      Server.store s' = snd verdict /\
      (exists g' P,
         Obj.get gid (Server.games s') = Some g' /\
         Game.players g' = [(sock, P); (botId, mkPlayer botId botAddress true O false)] /\
         Game.status g' = ready) /\
      effs = (if match Obj.get sock (Game.players g) with
                 | Some P => isBot P
                 | None => false
                 end
              then [] else [Emit sock (matchFound "player" 5 (now + 5000))])
             ++ [Later 5000 (StartMatch gid)]
  | _, _ => Server.spawnBot now sock botId botAddress s t n = ((s, []), n)
  end.
Proof.
  unfold Server.spawnBot. rewrite spawnBot_find.
  destruct (List.find (alone_in sock) (Server.games s)) as [[gid g]|] eqn:Ef; [|done].
  destruct (Obj.get sock (Server.players s)) as [me|] eqn:Hme; [|done].
  intros Hne.
  apply find_some_In in Ef as [_ Hal].
  destruct (alone_in_players sock (gid, g) Hal) as [P HP]. simpl in HP.
  unfold bind at 1.
  unfold BotPlayer.new, BotPlayer.generateThinkingTime, bind, random, ret.
  destruct (determineOutcome (meta_address me) (Game.betAmount g) (t (S n)) (Server.store s))
    as [d st'] eqn:Ed.
  match goal with
  | |- context [Server.addPlayer botId botAddress true g t ?k] =>
      destruct (server_addPlayer_shape botId botAddress true g t k) as (coin & n' & ->)
  end.
  destruct (addPlayer_shape botId botAddress true coin g) as (_ & Hpl & _ & Hid & _ & Hst).
  cbn zeta in Hpl, Hst.
  set (g' := snd (Game.addPlayer botId botAddress true coin g)) in *.
  assert (Hpl' : Game.players g' = [(sock, P); (botId, mkPlayer botId botAddress true O false)]).
  { rewrite Hpl, HP. simpl.
    destruct (String.eqb_spec sock botId); [congruence | done]. }
  rewrite Hpl' in Hst. simpl in Hst. destruct Hst as (Hready & _).
  simpl. repeat split.
  - eexists. rewrite lookup_insert_eq. split; [reflexivity|]. by simpl.
  - exists g', P. rewrite get_set_same. by repeat split.
  - unfold Server.announce_match. rewrite Hpl', HP. simpl.
    rewrite String.eqb_refl. by destruct (isBot P).
Qed.

Lemma spawnBot_attaches_session_witness :
  "bot_1" <> "alice" /\
  exists bot,
    Server.activeBots after_spawn !! "game_1000" = Some bot /\
    BotPlayer.opponentAddress bot = alice /\
    BotPlayer.betAmount bot = 300 /\
    BotPlayer.shouldWin bot = false.
Proof.
  split; [done|].
  pose proof (spawnBot_attaches_session 16000 "alice" "bot_1" (Some "ace7@speed.app")
                after_join zero_tape 0%nat) as H.
  vm_compute in H.
  assert (Hne : "bot_1" <> "alice") by done.
  destruct (H Hne) as ((bot & Hb & _ & Ha & Hw & Hs & _) & _).
  exists bot. repeat split.
  - exact Hb.
  - exact Ha.
  - exact Hw.
  - exact Hs.
Defined.

(** *** Move selection of any session *)

Lemma pick_filter_available_free board (f : nat -> bool) t n :
  in_range t -> (0 <? length (List.filter f (available board)))%nat = true ->
  exists x, pick (List.filter f (available board)) t n = (Some x, S n)
            /\ free board x /\ f x = true.
Proof.
  intros Ht Hl.
  destruct (pick_In _ t n Ht (length_pos_ne _ Hl)) as (x & -> & Hx).
  apply List.filter_In in Hx as [Hx Hf].
  exists x. repeat split; [by apply available_free | done].
Qed.

Lemma makeNoobMove_free board t n :
  in_range t -> available board <> [] ->
  exists x, fst (makeNoobMove board t n) = Some x /\ free board x.
Proof.
  intros Ht Hne. unfold makeNoobMove. cbv zeta.
  pose (rest := (r2 <- random ;;
                 if Qltb r2 (6 # 10) then pick (available board)
                 else s <- getStrategicMove board ;; or_move s (pick (available board)))).
  fold rest.
  assert (Hrest : forall k, exists x, fst (rest t k) = Some x /\ free board x).
  { intros k. unfold rest, bind, random.
    destruct (Qltb (t k) (6 # 10)).
    - apply pick_available_free; auto.
    - pose proof (getStrategicMove_free board t (S k) Ht) as Hs.
      destruct (getStrategicMove board t (S k)) as [s n1]. simpl in Hs.
      apply or_move_free; [done|]. apply pick_available_free; auto. }
  clearbody rest. unfold bind at 1. unfold random at 1.
  destruct (Qltb (t n) (5 # 10)); [|apply Hrest].
  destruct (evaluateBoard board) as [w|]; [|apply Hrest].
  match goal with |- context [pick ?l] => destruct (0 <? length l)%nat eqn:El end;
    [|apply Hrest].
  destruct (pick_filter_available_free board _ t (S n) Ht El) as (x & -> & Hx & _).
  eauto.
Qed.

(** The loop of [makeSillyMistake] stops at the first line on which X has
    an open pair, whenever some other free cell exists. *)
Lemma silly_scan_first board avail ls c :
  first_critical X board ls = Some c ->
  (0 <? length (List.filter (fun m => negb (m =? c)%nat) avail))%nat = true ->
  silly_scan board avail ls = pick (List.filter (fun m => negb (m =? c)%nat) avail).
Proof.
  induction ls as [|l ls IH]; simpl; [discriminate|].
  destruct (critical_cell X board l) as [j|]; [|done].
  intros [= ->] Hl. by rewrite Hl.
Qed.

Lemma silly_scan_free board ls t n :
  in_range t -> available board <> [] ->
  exists x, fst (silly_scan board (available board) ls t n) = Some x /\ free board x.
Proof.
  intros Ht Hne. induction ls as [|l ls IH]; simpl.
  { by apply pick_available_free. }
  destruct (critical_cell X board l) as [j|]; [|done].
  match goal with |- context [pick ?l] => destruct (0 <? length l)%nat eqn:El end; [|done].
  destruct (pick_filter_available_free board _ t n Ht El) as (x & -> & Hx & _).
  eauto.
Qed.

Lemma checkPotentialDraw_fields board b :
  let '(isDraw, b1) := BotPlayer.checkPotentialDraw board b in
  isDraw = (5 <=? length (List.filter (fun c => negb (is_null c)) board))%nat /\
  BotPlayer.drawCount b1 = ((if isDraw then 1 else 0) + BotPlayer.drawCount b)%nat /\
  BotPlayer.set_drawCount (BotPlayer.drawCount b) b1 = b.
Proof.
  unfold BotPlayer.checkPotentialDraw.
  destruct (5 <=? _)%nat; destruct b; by repeat split.
Qed.

(** The cases of [getNextMove] for any session. *)
Lemma getNextMove_cases (board : list cell) (b : BotPlayer.t)
    (t : nat -> Q) (n : nat) :
  in_range t ->
  let '((mv, b'), n') := BotPlayer.getNextMove board b t n in
  if (length (available board) =? 0)%nat
  then mv = None /\ b' = b /\ n' = n /\ forall i, ~ free board i
  else (exists x, mv = Some x /\ free board x)
       /\ BotPlayer.set_drawCount (BotPlayer.drawCount b) b' = b
       /\ BotPlayer.drawCount b' =
            ((if (5 <=? length (List.filter (fun c => negb (is_null c)) board))%nat
              then 1 else 0) + BotPlayer.drawCount b)%nat.
Proof.
  intros Ht.
  destruct (BotPlayer.getNextMove board b t n) as [[mv b'] n'] eqn:E.
  unfold BotPlayer.getNextMove in E.
  destruct (length (available board) =? 0)%nat eqn:El.
  { injection E as <- <- <-. repeat split.
    intros i Hi. apply free_available in Hi.
    destruct (available board); [done | discriminate]. }
  pose proof (available_ne board El) as Hne.
  pose proof (checkPotentialDraw_fields board b) as Hf.
  destruct (BotPlayer.checkPotentialDraw board b) as [isDraw b1].
  destruct Hf as (Hd & Hc & Hb). rewrite <- Hd.
  assert (Hgoal : b' = b1 /\ exists x, mv = Some x /\ free board x);
    [|destruct Hgoal as [-> ?]; by repeat split].
  destruct (isDraw && _).
  - destruct (BotPlayer.shouldWin b1).
    + unfold bind in E.
      pose proof (getStrategicMove_free board t n Ht) as Hs.
      destruct (getStrategicMove board t n) as [s n1]. simpl in Hs.
      destruct (or_move_free board s (ret (nth_error (available board) 0)) t n1 Hs)
        as (x & Hx & Hfree).
      { destruct (available board) as [|a l] eqn:Ea; [done|]. simpl.
        exists a. split; [done|]. apply available_free. rewrite Ea. by left. }
      destruct (or_move s _ t n1) as [m n2]. simpl in *.
      injection E as <- <- <-. eauto.
    + unfold bind in E.
      destruct (silly_scan_free board lines t n Ht Hne) as (x & Hx & Hfree).
      unfold makeSillyMistake in E.
      destruct (silly_scan board (available board) lines t n) as [m n2]. simpl in *.
      injection E as <- <- <-. eauto.
  - assert (Hstrat : forall k m n2,
               (let '(s, n1) := getStrategicMove board t k in
                let '(m, n2) := or_move s (pick (available board)) t n1 in
                (m, n2)) = (m, n2) ->
               exists x, m = Some x /\ free board x).
    { intros k m n2 Hk.
      pose proof (getStrategicMove_free board t k Ht) as Hs.
      destruct (getStrategicMove board t k) as [s n1]. simpl in Hs.
      destruct (or_move_free board s (pick (available board)) t n1 Hs
                  (pick_available_free board t n1 Ht Hne)) as (x & Hx & Hfree).
      destruct (or_move s _ t n1) as [m0 n3]. simpl in *.
      injection Hk as <- <-. eauto. }
    destruct (BotPlayer.shouldWin b1); unfold bind, random in E.
    + destruct (Qltb (t n) (9 # 10)).
      * destruct (getStrategicMove board t (S n)) as [s n1] eqn:Es.
        destruct (or_move s (pick (available board)) t n1) as [m n2] eqn:Em.
        simpl in E. injection E as <- <- <-. split; [done|].
        apply (Hstrat (S n) m n2). by rewrite Es, Em.
      * destruct (pick_available_free board t (S n) Ht Hne) as (x & Hx & Hfree).
        destruct (pick (available board) t (S n)) as [m n2]. simpl in *.
        injection E as <- <- <-. eauto.
    + destruct (Qltb (t n) (4 # 10)).
      * destruct (getStrategicMove board t (S n)) as [s n1] eqn:Es.
        destruct (or_move s (pick (available board)) t n1) as [m n2] eqn:Em.
        simpl in E. injection E as <- <- <-. split; [done|].
        apply (Hstrat (S n) m n2). by rewrite Es, Em.
      * destruct (makeNoobMove_free board t (S n) Ht Hne) as (x & Hx & Hfree).
        destruct (makeNoobMove board t (S n)) as [m n2]. simpl in *.
        injection E as <- <- <-. eauto.
Qed.

(** X7. [getNextMove] for every session, must-win or must-lose, in every
    mode: on a board without a free cell it answers [null], draws nothing
    and leaves the session as it is; on a board with a free cell, with
    draws in [0,1), it answers with a free cell, and the session changes
    in its call counter only, which goes up by one exactly when at least
    five cells of the board are filled (whether or not any match has been
    drawn). *)
Theorem getNextMove_any_session (board : list cell) (b : BotPlayer.t)
    (t : nat -> Q) (n : nat) :
  in_range t ->
  ((forall i, ~ free board i) ->
     BotPlayer.getNextMove board b t n = ((None, b), n)) /\
  ((exists i, free board i) ->
     exists x b' n',
       BotPlayer.getNextMove board b t n = ((Some x, b'), n') /\
       free board x /\
       b' = BotPlayer.set_drawCount
              (if (5 <=? length (List.filter (fun c => negb (is_null c)) board))%nat
               then S (BotPlayer.drawCount b) else BotPlayer.drawCount b) b).
Proof.
  intros Ht.
  pose proof (getNextMove_cases board b t n Ht) as H.
  destruct (BotPlayer.getNextMove board b t n) as [[mv b'] n'].
  destruct (length (available board) =? 0)%nat eqn:El.
  - destruct H as (-> & -> & -> & Hno). split; [done|].
    intros (i & Hi). by destruct (Hno i).
  - destruct H as ((x & -> & Hx) & Hb & Hc). split.
    + intros Hno. by destruct (Hno x).
    + intros _. exists x, b', n'. do 2 (split; [done|]).
      set (k := (5 <=? length (List.filter (fun c => negb (is_null c)) board))%nat) in *.
      clearbody k. destruct b as [? ? ? ? ? ? dc0 ?], b' as [? ? ? ? ? ? dc ?].
      cbn in Hb, Hc |- *. injection Hb as <- <- <- <- <- <- <-. rewrite Hc.
      by destruct k.
Qed.

Lemma getNextMove_any_session_witness :
  let board := [Mark X; Mark X; Empty; Mark O; Empty; Empty; Empty; Mark O; Mark X] in
  let bot := BotPlayer.mk "game_1" 50 alice [] 2000 false 1 2 in
  in_range zero_tape /\
  exists x b',
    fst (BotPlayer.getNextMove board bot zero_tape 0%nat) = (Some x, b') /\
    free board x /\ BotPlayer.drawCount b' = 2%nat.
Proof.
  intros board bot. split; [apply zero_tape_in_range|].
  destruct (getNextMove_any_session board bot zero_tape 0%nat zero_tape_in_range)
    as [_ H].
  destruct H as (x & b' & n' & Hmv & Hx & Hb).
  { exists 2%nat. reflexivity. }
  exists x, b'. rewrite Hmv. repeat split; [exact Hx|].
  rewrite Hb. reflexivity.
Defined.

(** A threat stays a threat when another free cell is filled. *)
Lemma threat_other_cell m board l c x v :
  threat m board l c -> free board x -> x <> c ->
  threat m (array_set board x v) l c.
Proof.
  destruct l as [[a b] d]. unfold threat, free, mono. simpl.
  intros (Hin & Hc & Ha & Hb & Hd) Hx Hne.
  assert (Hcell : forall j, cell_at (array_set board c (Mark m)) j = Mark m ->
                            cell_at (array_set (array_set board x v) c (Mark m)) j = Mark m).
  { intros j Hj. destruct (Nat.eq_dec c j) as [->|Hcj].
    - apply cell_at_array_set.
    - rewrite cell_at_array_set_ne in Hj by done.
      rewrite cell_at_array_set_ne by done.
      rewrite cell_at_array_set_ne; [done|]. intros ->. congruence. }
  repeat split; auto.
  rewrite cell_at_array_set_ne; done.
Qed.

(** X8. A must-lose session in forced mode (at least five cells filled,
    call counter at its threshold) deliberately fails to block: if X has
    an open pair and [c] is the blocking cell of the first such line, and
    some other cell is free, the session answers with a free cell other
    than [c], so that the same line is still open for X after the
    session's O has been placed. *)
Theorem forced_loss_leaves_threat (board : list cell) (b : BotPlayer.t)
    (t : nat -> Q) (n : nat) (c : nat) :
  in_range t ->
  BotPlayer.shouldWin b = false ->
  forced board b = true ->
  first_critical X board lines = Some c ->
  (exists i, free board i /\ i <> c) ->
  exists x l,
    fst (fst (BotPlayer.getNextMove board b t n)) = Some x /\
    free board x /\ x <> c /\
    In l lines /\ threat X board l c /\
    threat X (array_set board x (Mark O)) l c.
Proof.
  intros Ht Hw Hforced Hc (i & Hi & Hic).
  destruct (first_critical_some X board lines c (fun _ H => H) Hc) as (l & Hl & Hth).
  assert (Hav : In i (available board)) by by apply free_available.
  assert (Hnb : (0 <? length (List.filter (fun m => negb (m =? c)%nat)
                                 (available board)))%nat = true).
  { assert (Hin : In i (List.filter (fun m => negb (m =? c)%nat) (available board))).
    { apply List.filter_In. split; [done|]. apply negb_true_iff. by apply Nat.eqb_neq. }
    destruct (List.filter _ _); [destruct Hin | done]. }
  unfold BotPlayer.getNextMove.
  destruct (length (available board) =? 0)%nat eqn:El.
  { destruct (available board); [destruct Hav | discriminate]. }
  unfold forced in Hforced. apply andb_true_iff in Hforced as [H5 Hmax].
  unfold BotPlayer.checkPotentialDraw. rewrite H5. cbn -[Nat.leb lines].
  rewrite Hmax, Hw. cbn -[lines].
  unfold bind, makeSillyMistake. rewrite (silly_scan_first board _ lines c Hc Hnb).
  destruct (pick_filter_available_free board _ t n Ht Hnb) as (x & -> & Hx & Hxc).
  exists x, l. cbn -[lines].
  apply negb_true_iff, Nat.eqb_neq in Hxc.
  do 5 (split; [done|]). by apply threat_other_cell.
Qed.

Lemma forced_loss_leaves_threat_witness :
  let board := [Mark X; Mark X; Empty; Mark O; Empty; Empty; Empty; Mark O; Mark X] in
  let bot := BotPlayer.mk "game_1" 50 alice [] 2000 false 1 2 in
  in_range zero_tape /\ forced board bot = true /\
  first_critical X board lines = Some 2%nat /\
  exists x, fst (fst (BotPlayer.getNextMove board bot zero_tape 0%nat)) = Some x /\
            free board x /\ x <> 2%nat /\
            threat X (array_set board x (Mark O)) (0, 1, 2)%nat 2.
Proof.
  intros board bot.
  assert (Hother : exists i, free board i /\ i <> 2%nat) by (exists 4%nat; by split).
  destruct (forced_loss_leaves_threat board bot zero_tape 0%nat 2%nat
              zero_tape_in_range eq_refl eq_refl eq_refl Hother)
    as (x & l & Hx & Hf & Hne & _ & _ & _).
  repeat split; [apply zero_tape_in_range|].
  exists x. repeat split; [exact Hx | exact Hf | exact Hne | | | ..].
  all: injection Hx as <-; vm_compute; auto.
Defined.

(** *** Ranges of the random quantities *)

(** [Math.floor(r * k)] for a draw [r] of [0,1) and an integer [k >= 0]. *)
Lemma floor_scaled (r : Q) (k : Z) :
  (0 <= r)%Q -> (r <= 1)%Q -> 0 <= k ->
  0 <= Qfloor (r * inject_Z k) <= k.
Proof.
  intros H0 H1 Hk.
  assert (Hk' : (0 <= inject_Z k)%Q).
  { change 0%Q with (inject_Z 0). by rewrite <- Zle_Qle. }
  split.
  - change 0 with (Qfloor (inject_Z 0)) at 1. apply Qfloor_resp_le.
    by apply Qmult_le_0_compat.
  - rewrite <- (Qfloor_Z k) at 2. apply Qfloor_resp_le.
    rewrite <- (Qmult_1_l (inject_Z k)) at 2. by apply Qmult_le_compat_r.
Qed.

Lemma floor_scaled_lt (r : Q) (k : Z) :
  (0 <= r)%Q -> (r < 1)%Q -> 0 < k ->
  0 <= Qfloor (r * inject_Z k) < k.
Proof.
  intros H0 H1 Hk. split.
  - apply floor_scaled; [done | by apply Qlt_le_weak | lia].
  - rewrite Zlt_Qlt. eapply Qle_lt_trans; [apply Qfloor_le|].
    rewrite <- (Qmult_1_l (inject_Z k)) at 2. apply Qmult_lt_compat_r; [|done].
    change 0%Q with (inject_Z 0). by rewrite <- Zlt_Qlt.
Qed.

(** [getRandomBotSpawnDelay()] *)
Definition getRandomBotSpawnDelay : Rand Z :=
  r <- random ;; ret (Qfloor (r * 12000) + 13000).

(** X9. The session constructor: the think time lies in [2000, 4999]
    milliseconds; the threshold of the call counter is 3 or 4 for a
    must-win session and 2 to 5 for a must-lose one; the counter starts at
    0 and the move history empty; the session records the match id, wager
    and address it was made for; and two or three draws are consumed. The
    waiting time before an automated opponent is attached,
    [getRandomBotSpawnDelay], lies in [13000, 24999] milliseconds. *)
Theorem session_constructor_ranges (gid : string) (bet : Z) (addr : option string)
    (st : Store) (t : nat -> Q) (n : nat) :
  in_range t ->
  (let '((b, _), n') := BotPlayer.new gid bet addr st t n in
   2000 <= BotPlayer.thinkingTime b <= 4999 /\
   (if BotPlayer.shouldWin b
    then (3 <= BotPlayer.maxDrawsBeforeEnd b <= 4)%nat
    else (2 <= BotPlayer.maxDrawsBeforeEnd b <= 5)%nat) /\
   BotPlayer.drawCount b = 0%nat /\
   BotPlayer.moveHistory b = [] /\
   BotPlayer.gameId b = gid /\ BotPlayer.betAmount b = bet /\
   BotPlayer.opponentAddress b = addr /\
   (n + 2 <= n' <= n + 3)%nat) /\
  (let '(delay, n') := getRandomBotSpawnDelay t n in
   13000 <= delay <= 24999 /\ n' = S n).
Proof.
  intros Ht. split.
  - unfold BotPlayer.new, BotPlayer.generateThinkingTime, bind, random, ret.
    destruct (determineOutcome addr bet (t (S n)) st) as [d st'].
    destruct (Ht n) as [Hn0 Hn1].
    pose proof (floor_scaled_lt (t n) 3000 Hn0 Hn1 ltac:(lia)) as Hthink.
    change (inject_Z 3000) with 3000%Q in Hthink.
    set (n1 := match via d with unlogged => S (S n) | _ => S n end).
    destruct (Ht n1) as [H0 H1].
    pose proof (floor_scaled_lt (t n1) 2 H0 H1 ltac:(lia)) as H2.
    pose proof (floor_scaled_lt (t n1) 4 H0 H1 ltac:(lia)) as H4.
    change (inject_Z 2) with 2%Q in H2. change (inject_Z 4) with 4%Q in H4.
    cbn [BotPlayer.thinkingTime BotPlayer.shouldWin BotPlayer.maxDrawsBeforeEnd
         BotPlayer.drawCount BotPlayer.moveHistory BotPlayer.gameId
         BotPlayer.betAmount BotPlayer.opponentAddress].
    split; [lia|]. split; [destruct (mustWin d); lia|].
    do 5 (split; [done|]). subst n1. destruct (via d); lia.
  - unfold getRandomBotSpawnDelay, bind, random, ret.
    destruct (Ht n) as [Hn0 Hn1].
    pose proof (floor_scaled_lt (t n) 12000 Hn0 Hn1 ltac:(lia)) as Hd.
    change (inject_Z 12000) with 12000%Q in Hd. split; [lia | done].
Qed.

Lemma session_constructor_ranges_witness :
  in_range zero_tape /\
  2000 <= BotPlayer.thinkingTime
            (fst (fst (BotPlayer.new "game_1" 300 alice empty_store zero_tape 0%nat)))
       <= 4999 /\
  13000 <= fst (getRandomBotSpawnDelay zero_tape 0%nat) <= 24999.
Proof.
  pose proof (session_constructor_ranges "game_1" 300 alice empty_store zero_tape 0%nat
                zero_tape_in_range) as [H1 H2].
  split; [apply zero_tape_in_range|].
  destruct (BotPlayer.new "game_1" 300 alice empty_store zero_tape 0%nat) as [[b st'] n'].
  destruct (getRandomBotSpawnDelay zero_tape 0%nat) as [delay n2].
  split; [exact (proj1 H1) | exact (proj1 H2)].
Defined.

(** X10. [makeBotMove] on a playing match with a session and a free cell,
    with draws in [0,1): exactly one delayed placement is scheduled, on a
    cell that is free now; the delay lies in [250, 2500] milliseconds and
    is stored as the session's think time; whenever at least 1650 ms of
    the turn remain, the placement fires at least 1400 ms before the turn
    deadline. The match itself is not touched until the callback runs. *)
Theorem makeBotMove_schedules_in_time (now : Z) (gid botId : string) (s : Server.t)
    (t : nat -> Q) (n : nat) (game : Game.t) (bot : BotPlayer.t) :
  in_range t ->
  Obj.get gid (Server.games s) = Some game ->
  Server.activeBots s !! gid = Some bot ->
  Game.status game = playing ->
  (exists i, free (Game.board game) i) ->
  let '((s', effs), _) := Server.makeBotMove now gid botId s t n in
  exists mv delay bot',
    effs = [Later delay (BotPlays gid botId mv)] /\
    free (Game.board game) mv /\
    250 <= delay <= 2500 /\
    (forall d, Game.turnDeadlineAt game = Some d -> now + 1650 <= d ->
               now + delay + 1400 <= d) /\
    Server.games s' = Server.games s /\
    Server.activeBots s' !! gid = Some bot' /\
    BotPlayer.thinkingTime bot' = delay.
Proof.
  intros Ht Hg Hb Hst (i & Hi).
  unfold Server.makeBotMove. rewrite Hg, Hb, Hst. cbn [Status_eqb negb].
  unfold bind at 1.
  pose proof (getNextMove_cases (Game.board game) bot t n Ht) as Hmv.
  destruct (BotPlayer.getNextMove (Game.board game) bot t n) as [[mv b1] n1].
  destruct (length (available (Game.board game)) =? 0)%nat.
  { destruct Hmv as (_ & _ & _ & Hno). by destruct (Hno i). }
  destruct Hmv as ((x & -> & Hx) & _).
  unfold bind, random, ret.
  destruct (Ht n1) as [Ha0 Ha1]. destruct (Ht (S n1)) as [Hb0 Hb1].
  assert (Hr0 : (0 <= t n1 * t (S n1))%Q) by by apply Qmult_le_0_compat.
  assert (Hr1 : (t n1 * t (S n1) <= 1)%Q).
  { apply Qle_trans with (1 * t (S n1))%Q.
    - apply Qmult_le_compat_r; [by apply Qlt_le_weak | done].
    - rewrite Qmult_1_l. by apply Qlt_le_weak. }
  remember (match Game.turnDeadlineAt game with
            | Some d => Z.max 250 (d - now - 1400)
            | None => 2500
            end) as hardMax eqn:Hh.
  remember (Z.min hardMax 2500) as maxDelay eqn:Hmax.
  remember (Z.min 450 maxDelay) as minDelay eqn:Hmin.
  remember (Z.max 0 (maxDelay - minDelay)) as span eqn:Hspan.
  pose proof (floor_scaled (t n1 * t (S n1)) span Hr0 Hr1 ltac:(lia)) as Hfl.
  remember (Qfloor (t n1 * t (S n1) * inject_Z span)) as fl eqn:Hfloor.
  assert (Hhard : 250 <= hardMax).
  { destruct (Game.turnDeadlineAt game); lia. }
  eexists x, (minDelay + fl), _. split; [reflexivity|]. split; [done|].
  split; [lia|]. split.
  - intros d Hd Hleft. rewrite Hd in Hh. lia.
  - split; [done|]. cbn. rewrite lookup_insert_eq. by split.
Qed.

Lemma makeBotMove_schedules_in_time_witness :
  in_range zero_tape /\
  exists mv delay,
    snd (fst (Server.makeBotMove 21000 "game_1000" "bot_1" after_start zero_tape 0%nat))
    = [Later delay (BotPlays "game_1000" "bot_1" mv)] /\
    250 <= delay <= 2500.
Proof.
  split; [apply zero_tape_in_range|].
  destruct (Obj.get "game_1000" (Server.games after_start)) as [game|] eqn:Hg;
    [|vm_compute in Hg; discriminate].
  destruct (Server.activeBots after_start !! "game_1000") as [bot|] eqn:Hb;
    [|vm_compute in Hb; discriminate].
  assert (Hst : Game.status game = playing).
  { vm_compute in Hg. by injection Hg as <-. }
  assert (Hfree : exists i, free (Game.board game) i).
  { exists 0%nat. vm_compute in Hg. by injection Hg as <-. }
  pose proof (makeBotMove_schedules_in_time 21000 "game_1000" "bot_1" after_start
                zero_tape 0%nat game bot zero_tape_in_range Hg Hb Hst Hfree) as H.
  destruct (Server.makeBotMove 21000 "game_1000" "bot_1" after_start zero_tape 0%nat)
    as [[s' effs] n'].
  destruct H as (mv & delay & bot' & -> & _ & Hd & _).
  exists mv, delay. by split.
Defined.

Lemma filter_free_pos board l :
  (0 <? length (List.filter (fun i => is_null (cell_at board i)) l))%nat = true <->
  exists i, In i l /\ free board i.
Proof.
  split.
  - intros H. apply length_pos_ne in H.
    destruct (List.filter _ l) as [|x r] eqn:E; [done|].
    assert (Hx : In x (List.filter (fun i => is_null (cell_at board i)) l)).
    { rewrite E. by left. }
    apply List.filter_In in Hx as [Hx Hn]. exists x. split; [done|].
    by apply is_null_free.
  - intros (i & Hi & Hf).
    assert (Hx : In i (List.filter (fun i => is_null (cell_at board i)) l)).
    { apply List.filter_In. split; [done|]. by apply is_null_free. }
    destruct (List.filter _ l); [destruct Hx | done].
Qed.

Lemma pick_filter_free board l t n :
  in_range t ->
  (0 <? length (List.filter (fun i => is_null (cell_at board i)) l))%nat = true ->
  exists x, pick (List.filter (fun i => is_null (cell_at board i)) l) t n = (Some x, S n)
            /\ In x l /\ free board x.
Proof.
  intros Ht Hl.
  destruct (pick_In _ t n Ht (length_pos_ne _ Hl)) as (x & -> & Hx).
  apply List.filter_In in Hx as [Hx Hf].
  exists x. repeat split; [done | by apply is_null_free].
Qed.

(** X11. The order of preference of [getStrategicMove], with draws in
    [0,1): the cell found by [evaluateBoard] if there is one; otherwise
    the centre if it is free; otherwise a free corner if there is one;
    otherwise a free edge if there is one. It answers [null] exactly when
    none of the nine cells is free. *)
Theorem getStrategicMove_priority (board : list cell) (t : nat -> Q) (n : nat) :
  in_range t ->
  let mv := fst (getStrategicMove board t n) in
  (forall c, evaluateBoard board = Some c -> mv = Some c) /\
  (evaluateBoard board = None ->
     (free board 4 -> mv = Some 4%nat) /\
     (~ free board 4 -> (exists i, In i [0; 2; 6; 8]%nat /\ free board i) ->
        exists x, mv = Some x /\ In x [0; 2; 6; 8]%nat /\ free board x) /\
     (~ free board 4 -> (forall i, In i [0; 2; 6; 8]%nat -> ~ free board i) ->
        (exists i, In i [1; 3; 5; 7]%nat /\ free board i) ->
        exists x, mv = Some x /\ In x [1; 3; 5; 7]%nat /\ free board x)) /\
  (mv = None <-> forall i, (i < 9)%nat -> ~ free board i).
Proof.
  intros Ht mv. subst mv. unfold getStrategicMove.
  destruct (evaluateBoard board) as [c|] eqn:Ec.
  { split; [by intros ? [= <-]|]. split; [discriminate|]. simpl.
    split; [discriminate|]. intros Hno.
    pose proof (evaluateBoard_free board c Ec) as Hfree.
    pose proof (evaluateBoard_spec board) as Hspec. rewrite Ec in Hspec.
    assert (Hlt : (c < 9)%nat).
    { assert (Hin : exists l, In l lines /\ In c (Game.line_cells l)).
      { destruct Hspec as [(l & Hl & Hc & _)|(_ & l & Hl & Hc & _)]; eauto. }
      destruct Hin as (l & Hl & Hc). revert Hc. simpl in Hl.
      repeat (destruct Hl as [<-|Hl]; [simpl; lia|]). destruct Hl. }
    by destruct (Hno c Hlt). }
  split; [discriminate|].
  destruct (is_null (cell_at board 4)) eqn:E4.
  { apply is_null_free in E4. simpl. split.
    - intros _. repeat split; try done.
    - split; [discriminate|]. intros Hno. destruct (Hno 4%nat); [lia | done]. }
  assert (H4 : ~ free board 4).
  { intros H. apply is_null_free in H. congruence. }
  destruct (0 <? length (List.filter _ [0; 2; 6; 8]%nat))%nat eqn:Ecor.
  { destruct (pick_filter_free board _ t n Ht Ecor) as (x & -> & Hx & Hf). simpl.
    split.
    - intros _. split; [done|]. split; [eauto|].
      intros _ Hno _. by destruct (Hno x Hx).
    - split; [discriminate|]. intros Hno. destruct (Hno x); [|done].
      simpl in Hx. lia. }
  assert (Hcor : forall i, In i [0; 2; 6; 8]%nat -> ~ free board i).
  { intros i Hi Hf.
    assert (H : (0 <? length (List.filter (fun i => is_null (cell_at board i))
                                [0; 2; 6; 8]%nat))%nat = true)
      by (apply filter_free_pos; eauto).
    congruence. }
  destruct (0 <? length (List.filter _ [1; 3; 5; 7]%nat))%nat eqn:Eed.
  { destruct (pick_filter_free board _ t n Ht Eed) as (x & -> & Hx & Hf). simpl.
    split.
    - intros _. split; [done|]. split.
      + intros _ (i & Hi & Hfi). by destruct (Hcor i Hi).
      + eauto.
    - split; [discriminate|]. intros Hno. destruct (Hno x); [|done].
      simpl in Hx. lia. }
  assert (Hed : forall i, In i [1; 3; 5; 7]%nat -> ~ free board i).
  { intros i Hi Hf.
    assert (H : (0 <? length (List.filter (fun i => is_null (cell_at board i))
                                [1; 3; 5; 7]%nat))%nat = true)
      by (apply filter_free_pos; eauto).
    congruence. }
  simpl. split.
  - intros _. split; [done|]. split.
    + intros _ (i & Hi & Hfi). by destruct (Hcor i Hi).
    + intros _ _ (i & Hi & Hfi). by destruct (Hed i Hi).
  - split; [|done]. intros _ i Hi.
    do 9 (destruct i as [|i]; [first [exact H4 | apply Hcor; simpl; tauto
                                     | apply Hed; simpl; tauto]|]).
    lia.
Qed.

Lemma getStrategicMove_priority_witness :
  let board := [Mark X; Empty; Empty; Empty; Mark O; Empty; Empty; Empty; Empty] in
  in_range zero_tape /\
  exists x, fst (getStrategicMove board zero_tape 0%nat) = Some x /\
            In x [0; 2; 6; 8]%nat /\ free board x.
Proof.
  intros board. split; [apply zero_tape_in_range|].
  destruct (getStrategicMove_priority board zero_tape 0%nat zero_tape_in_range)
    as (_ & H & _).
  destruct (H eq_refl) as (_ & Hcorner & _).
  apply Hcorner.
  - unfold free. simpl. discriminate.
  - exists 2%nat. split; [simpl; tauto | reflexivity].
Defined.

(** *** Leaving a match: [resign] and [disconnect] *)

(** [Object.keys(game.players).find(id => id !== socket.id)] *)
Definition other_key (sock : string) (game : Game.t) : option string :=
  List.find (fun i => negb (String.eqb i sock)) (Obj.keys (Game.players game)).

(** [socket.on('resign', ({ gameId }) => ...)] *)
Definition onResign (sock gid : string) (s : Server.t) : Server.t * list effect :=
  match Obj.get gid (Server.games s) with
  | None => (s, [])
  | Some game =>
      if negb (Status_eqb (Game.status game) playing) then (s, [])
      else Server.handleGameEnd gid (other_key sock game) s
  end.

(** [waitingQueue.splice(waitingQueue.findIndex(...), 1)] *)
Fixpoint remove_first (sock : string) (q : list string) : list string :=
  match q with
  | [] => []
  | h :: r => if String.eqb h sock then r else h :: remove_first sock r
  end.

(** [socket.on('disconnect', () => ...)]. Clearing the spawn timer takes
    the socket out of [botSpawnTimers]. *)
Definition onDisconnect (sock : string) (s : Server.t) : Server.t * list effect :=
  let s1 := Server.set_waitingQueue (remove_first sock (Server.waitingQueue s)) s in
  let s2 := Server.set_botSpawnTimers
              (List.filter (fun k => negb (String.eqb k sock)) (Server.botSpawnTimers s1))
              s1 in
  let game := List.find (fun g => match Obj.get sock (Game.players g) with
                                  | Some _ => true
                                  | None => false
                                  end) (Obj.values (Server.games s2)) in
  let '(s3, effs) :=
    match game with
    | Some g =>
        if Status_eqb (Game.status g) playing
        then Server.handleGameEnd (Game.id g) (other_key sock g) s2
        else (s2, [])
    | None => (s2, [])
    end in
  (Server.set_players (Obj.del sock (Server.players s3)) s3, effs).

(** What [handleGameEnd] settles for winner [w] seated as [W]: for an
    automated winner only the platform fee is sent; the wager of a human
    winner is paid out through the first connected socket among those
    registered, in registry order, under the winner's lightning address,
    and through the winner's own seat if there is none (or no address). *)
Definition settlement (gid : string) (game : Game.t) (w : string) (W : Player)
    (s : Server.t) : effect :=
  if isBot W then PlatformFee (Game.betAmount game * 2 * 5 / 100) gid
  else PayoutVia (if truthy (lightningAddress W)
                  then Server.sockets_of (lightningAddress W) s else [])
         (Some w) (Game.betAmount game) gid (lightningAddress W).

Definition is_gameEnd (e : effect) : Prop :=
  exists k msg ws wl, e = Emit k (gameEnd msg ws wl false).

Lemma handleGameEnd_seated gid w W s game :
  Obj.get gid (Server.games s) = Some game ->
  Obj.get w (Game.players game) = Some W ->
  exists announce,
    Server.handleGameEnd gid (Some w) s
    = (Server.set_games
         (Obj.set gid (Game.clearTurnTimer (Game.set_status finished game))
            (Server.games s)) s,
       announce ++ [settlement gid game w W s; Later 30000 (Evict gid)]) /\
    Forall is_gameEnd announce /\
    In (Emit w (gameEnd "You win!" (Some (symbol W)) (Game.winLine game) false)) announce.
Proof.
  intros Hg Hw. unfold Server.handleGameEnd. rewrite Hg.
  cbn [Game.clearTurnTimer Game.set_turnTimer Game.set_status Game.players
       Game.winLine Game.betAmount].
  rewrite Hw. cbn [fmap option_fmap option_map].
  eexists. split; [|split].
  - f_equal. f_equal. unfold settlement. by destruct (isBot W).
  - apply List.Forall_forall. intros e He.
    apply in_flat_map in He as ([pid p] & _ & He).
    destruct He as [<-|He].
    + unfold is_gameEnd. eauto.
    + destruct (truthy (lightningAddress p)); [|destruct He].
      apply in_map_iff in He as (k & <- & _). unfold is_gameEnd. eauto.
  - apply in_flat_map. exists (w, W). split.
    + clear -Hw. induction (Game.players game) as [|[k v] l IH]; simpl in *; [done|].
      destruct (String.eqb_spec k w) as [->|].
      * injection Hw as ->. by left.
      * right. by apply IH.
    + left. by destruct (symbol W).
Qed.

Lemma other_key_two sock game p1 p2 P1 P2 :
  Game.players game = [(p1, P1); (p2, P2)] -> p1 <> p2 ->
  let w := if String.eqb p1 sock then p2 else p1 in
  let W := if String.eqb p1 sock then P2 else P1 in
  other_key sock game = Some w /\ Obj.get w (Game.players game) = Some W.
Proof.
  intros Hp Hne. unfold other_key, Obj.keys. rewrite Hp. simpl.
  destruct (String.eqb_spec p1 sock) as [->|Hs]; simpl.
  - destruct (String.eqb_spec p2 sock) as [->|]; [done|]. simpl.
    destruct (String.eqb_spec sock p2) as [->|]; [done|].
    by rewrite String.eqb_refl.
  - by rewrite String.eqb_refl.
Qed.

(** The outcome shared by [resign] and [disconnect] on a match. *)
Definition forfeited (gid : string) (game : Game.t) (w : string) (W : Player)
    (s s' : Server.t) (effs : list effect) : Prop :=
  Obj.get gid (Server.games s')
    = Some (Game.clearTurnTimer (Game.set_status finished game)) /\
  (exists announce,
     effs = announce ++ [settlement gid game w W s; Later 30000 (Evict gid)] /\
     Forall is_gameEnd announce /\
     In (Emit w (gameEnd "You win!" (Some (symbol W)) (Game.winLine game) false))
        announce) /\
  Server.activeBots s' = Server.activeBots s /\
  Server.store s' = Server.store s.

Lemma handleGameEnd_forfeited gid w W s game :
  Obj.get gid (Server.games s) = Some game ->
  Obj.get w (Game.players game) = Some W ->
  forfeited gid game w W s (fst (Server.handleGameEnd gid (Some w) s))
            (snd (Server.handleGameEnd gid (Some w) s)).
Proof.
  intros Hg Hw.
  destruct (handleGameEnd_seated gid w W s game Hg Hw) as (announce & -> & Hall & Hin).
  unfold forfeited. simpl. rewrite get_set_same. split; [done|]. split; [|done].
  exists announce. by repeat split.
Qed.

(** X12. [resign] on a playing match with two seats: the match is
    finished at once (status [finished], turn timer cleared, board and
    seats untouched) and the win goes to the first seat that is not the
    resigning socket, that is, to the opponent when a participant resigns
    and to the first seat when the message comes from a socket that is not
    seated in the match (the handler does not check). Every notification
    is a [gameEnd], the winner is told "You win!", the settlement is the
    platform fee for an automated winner and for a human winner the
    payout of the wager, made through the first connected socket
    registered under the winner's lightning address (the winner's seat
    if none is connected), the match is evicted after 30 seconds, and the
    bot session and the scripter's store stay as they are. *)
Theorem resign_forfeits (sock gid : string) (s : Server.t) (game : Game.t)
    (p1 p2 : string) (P1 P2 : Player) :
  Obj.get gid (Server.games s) = Some game ->
  Game.status game = playing ->
  Game.players game = [(p1, P1); (p2, P2)] ->
  p1 <> p2 ->
  let w := if String.eqb p1 sock then p2 else p1 in
  let W := if String.eqb p1 sock then P2 else P1 in
  let '(s', effs) := onResign sock gid s in
  forfeited gid game w W s s' effs /\ Server.players s' = Server.players s.
Proof.
  intros Hg Hst Hp Hne w W.
  destruct (other_key_two sock game p1 p2 P1 P2 Hp Hne) as [Hk HW].
  fold w in Hk, HW. fold W in HW.
  unfold onResign. rewrite Hg, Hst. cbn [Status_eqb negb]. rewrite Hk.
  pose proof (handleGameEnd_forfeited gid w W s game Hg HW) as Hf.
  destruct (Server.handleGameEnd gid (Some w) s) as [s' effs] eqn:E.
  split; [exact Hf|].
  unfold Server.handleGameEnd in E. rewrite Hg in E. by injection E as <- <-.
Qed.

Lemma resign_forfeits_witness :
  exists game,
    Obj.get "game_1000" (Server.games after_start) = Some game /\
    Game.status game = playing /\
    (exists announce,
       snd (onResign "alice" "game_1000" after_start)
       = announce ++ [PlatformFee 30 "game_1000"; Later 30000 (Evict "game_1000")]) /\
    (exists announce,
       snd (onResign "mallory" "game_1000" after_start)
       = announce ++ [PayoutVia ["alice"] (Some "alice") 300 "game_1000" alice;
                      Later 30000 (Evict "game_1000")]).
Proof.
  destruct (Obj.get "game_1000" (Server.games after_start)) as [game|] eqn:Hg;
    [|vm_compute in Hg; discriminate].
  exists game. split; [done|].
  assert (Hgame : Obj.get "game_1000" (Server.games after_start) = Some game) by exact Hg.
  vm_compute in Hg. injection Hg as Hg.
  assert (Hst : Game.status game = playing) by by rewrite <- Hg.
  split; [done|].
  assert (Hp : Game.players game
               = [("alice", mkPlayer "alice" alice false X false);
                  ("bot_1", mkPlayer "bot_1" (Some "ace7@speed.app") true O false)])
    by by rewrite <- Hg.
  assert (Hne : "alice" <> "bot_1") by done.
  split.
  - pose proof (resign_forfeits "alice" "game_1000" after_start game "alice" "bot_1"
                  _ _ Hgame Hst Hp Hne) as H.
    destruct (onResign "alice" "game_1000" after_start) as [s' effs].
    destruct H as [(_ & (announce & -> & _) & _) _].
    exists announce. simpl. f_equal. f_equal. unfold settlement. simpl.
    by rewrite <- Hg.
  - pose proof (resign_forfeits "mallory" "game_1000" after_start game "alice" "bot_1"
                  _ _ Hgame Hst Hp Hne) as H.
    destruct (onResign "mallory" "game_1000" after_start) as [s' effs].
    destruct H as [(_ & (announce & -> & _) & _) _].
    exists announce. simpl. f_equal. f_equal. unfold settlement. simpl.
    by rewrite <- Hg.
Defined.

Lemma remove_filter_notin sock (l : list string) :
  ~ In sock (List.filter (fun k => negb (String.eqb k sock)) l).
Proof.
  intros H. apply List.filter_In in H as [_ H]. by rewrite String.eqb_refl in H.
Qed.

Lemma handleGameEnd_registries gid w s :
  let s' := fst (Server.handleGameEnd gid w s) in
  Server.players s' = Server.players s /\
  Server.waitingQueue s' = Server.waitingQueue s /\
  Server.botSpawnTimers s' = Server.botSpawnTimers s /\
  Server.activeBots s' = Server.activeBots s.
Proof.
  unfold Server.handleGameEnd. by destruct (Obj.get gid (Server.games s)).
Qed.

(** The first match of the registry that seats [sock]. *)
Definition seat_of (sock : string) (s : Server.t) : option Game.t :=
  List.find (fun g => match Obj.get sock (Game.players g) with
                      | Some _ => true
                      | None => false
                      end) (Obj.values (Server.games s)).

(** X13. [disconnect]: the socket leaves the [players] registry, the
    waiting queue (its first entry) and the pending spawn timers; bot
    sessions are untouched. If the first match of the registry that seats
    the socket is playing (with two seats, registered under its own id),
    that match is forfeited to the other seat exactly as by [resign]
    (the departing socket is still in the registry when the payout socket
    is looked for, but no longer connected); the socket stays seated in
    the finished match. If that first match is not
    playing, or no match seats the socket, no match is changed and
    nothing is emitted (a playing match further down the registry is not
    looked at). *)
Theorem disconnect_forfeits (sock : string) (s : Server.t) :
  let '(s', effs) := onDisconnect sock s in
  Server.players s' = Obj.del sock (Server.players s) /\
  Server.waitingQueue s' = remove_first sock (Server.waitingQueue s) /\
  ~ In sock (Server.botSpawnTimers s') /\
  Server.activeBots s' = Server.activeBots s /\
  match seat_of sock s with
  | Some game =>
      if Status_eqb (Game.status game) playing
      then forall p1 p2 P1 P2,
             Game.players game = [(p1, P1); (p2, P2)] -> p1 <> p2 ->
             Obj.get (Game.id game) (Server.games s) = Some game ->
             let w := if String.eqb p1 sock then p2 else p1 in
             let W := if String.eqb p1 sock then P2 else P1 in
             forfeited (Game.id game) game w W s s' effs /\
             exists g', Obj.get (Game.id game) (Server.games s') = Some g' /\
                        is_Some (Obj.get sock (Game.players g'))
      else Server.games s' = Server.games s /\ effs = []
  | None => Server.games s' = Server.games s /\ effs = []
  end.
Proof.
  unfold onDisconnect.
  set (s2 := Server.set_botSpawnTimers _ (Server.set_waitingQueue _ s)).
  change (List.find _ (Obj.values (Server.games s2))) with (seat_of sock s).
  assert (Hbase : forall s3 e,
             (s3 = s2 /\ e = []) \/ (exists g w, (s3, e) = Server.handleGameEnd g w s2) ->
             Server.players (Server.set_players (Obj.del sock (Server.players s3)) s3)
               = Obj.del sock (Server.players s) /\
             Server.waitingQueue (Server.set_players (Obj.del sock (Server.players s3)) s3)
               = remove_first sock (Server.waitingQueue s) /\
             ~ In sock (Server.botSpawnTimers
                          (Server.set_players (Obj.del sock (Server.players s3)) s3)) /\
             Server.activeBots (Server.set_players (Obj.del sock (Server.players s3)) s3)
               = Server.activeBots s).
  { intros s3 e [[-> _]|(g & w & E)].
    - simpl. repeat split. apply remove_filter_notin.
    - pose proof (handleGameEnd_registries g w s2) as (H1 & H2 & H3 & H4).
      rewrite <- E in H1, H2, H3, H4. simpl in *.
      rewrite H1, H2, H3, H4. repeat split. apply remove_filter_notin. }
  destruct (seat_of sock s) as [game|] eqn:Eseat.
  2:{ destruct (Hbase s2 []) as (? & ? & ? & ?); [by left|]. by repeat split. }
  destruct (Status_eqb (Game.status game) playing) eqn:Est.
  2:{ destruct (Hbase s2 []) as (? & ? & ? & ?); [by left|]. by repeat split. }
  destruct (Server.handleGameEnd (Game.id game) (other_key sock game) s2)
    as [s3 effs] eqn:E.
  destruct (Hbase s3 effs) as (? & ? & ? & ?); [right; eauto|].
  do 4 (split; [done|]).
  intros p1 p2 P1 P2 Hp Hne Hg.
  destruct (other_key_two sock game p1 p2 P1 P2 Hp Hne) as [Hk HW].
  set (w := if String.eqb p1 sock then p2 else p1) in *.
  set (W := if String.eqb p1 sock then P2 else P1) in *.
  rewrite Hk in E.
  assert (Hg2 : Obj.get (Game.id game) (Server.games s2) = Some game) by exact Hg.
  pose proof (handleGameEnd_forfeited (Game.id game) w W s2 game Hg2 HW) as Hf.
  rewrite E in Hf. simpl in Hf.
  destruct Hf as (Hgame & Hann & Hbots & Hstore).
  split; [by repeat split|].
  eexists. split; [exact Hgame|]. simpl.
  apply find_some in Eseat as [_ Hs]. destruct (Obj.get sock (Game.players game)); eauto.
  discriminate.
Qed.

Lemma disconnect_forfeits_witness :
  exists announce,
    snd (onDisconnect "alice" after_start)
    = announce ++ [PlatformFee 30 "game_1000"; Later 30000 (Evict "game_1000")].
Proof.
  pose proof (disconnect_forfeits "alice" after_start) as H.
  destruct (onDisconnect "alice" after_start) as [s' effs].
  destruct H as (_ & _ & _ & _ & H).
  destruct (seat_of "alice" after_start) as [game|] eqn:Es;
    [|vm_compute in Es; discriminate].
  vm_compute in Es. injection Es as Es. subst game.
  cbn [Game.status Status_eqb] in H.
  assert (Hne : "alice" <> "bot_1") by done.
  destruct (H "alice" "bot_1" _ _ eq_refl Hne eq_refl)
    as [(_ & (announce & -> & _) & _) _].
  exists announce. reflexivity.
Defined.

(** *** Counters of the scripter *)

(** The store after a sequence of decisions. *)
Definition store_after (reqs : list request) (st : Store) : Store :=
  fold_left (fun st q => snd (determineOutcome (req_address q) (req_bet q)
                                (req_random q) st)) reqs st.

(** What the two maps record about address [a]. *)
Definition counters_ok (a : string) (st : Store) : Prop :=
  match playerHistory st !! a with
  | None => betHistory st !! a = None
  | Some h =>
      gamesPlayed h = (patternIndex50 h + patternIndex300 h)%nat /\
      match betHistory st !! a with
      | None => patternIndex300 h = 0%nat
      | Some bi =>
          consecutiveSameBet bi = 0%nat /\
          (1 <= gameCount bi)%nat /\
          (gameCount bi = patternIndex300 h
           \/ (gameCount bi = S (patternIndex300 h) /\ (2 <= gameCount bi)%nat))
      end
  end.

Lemma determineOutcome_counters a addr bet r st :
  counters_ok a st -> counters_ok a (snd (determineOutcome addr bet r st)).
Proof.
  intros H. unfold determineOutcome.
  destruct addr as [a'|]; [|done].
  destruct (String.eqb a' ""); [done|].
  destruct (decide (a' = a)) as [->|Hne].
  - unfold counters_ok in *.
    destruct (playerHistory st !! a) as [h|] eqn:Eh; cbn zeta.
    + rewrite Eh. cbn [default from_option id].
      destruct (bet =? 50).
      { cbn. rewrite lookup_insert_eq. cbn. destruct H as [H1 H2].
        split; [lia|]. exact H2. }
      destruct (300 <=? bet); [|cbn; by rewrite Eh].
      destruct H as [H1 H2].
      destruct (betHistory st !! a) as [bi|] eqn:Eb.
      * rewrite Eb. cbn [default from_option id].
        destruct H2 as (Hc & Hpos & Hcnt).
        match goal with
        | |- context [if ?c then _ else _] => destruct c eqn:Eov
        end.
        -- apply andb_true_iff in Eov as [_ Eone]. apply Nat.eqb_eq in Eone.
           cbn. rewrite Eh, lookup_insert_eq. cbn. split; [done|]. lia.
        -- cbn. rewrite !lookup_insert_eq. cbn. split; [lia|]. lia.
      * rewrite lookup_insert_eq. cbn [default from_option id lastBet andb].
        cbn. rewrite !lookup_insert_eq. cbn. split; [lia|]. lia.
    + rewrite lookup_insert_eq. cbn [default from_option id].
      destruct (bet =? 50).
      { cbn. rewrite lookup_insert_eq. cbn. by rewrite H. }
      destruct (300 <=? bet).
      * rewrite H, lookup_insert_eq. cbn. rewrite !lookup_insert_eq. cbn. lia.
      * cbn. rewrite lookup_insert_eq. cbn. by rewrite H.
  - assert (Hph : forall (m : gmap string History) v,
               (match m !! a' with Some _ => m | None => <[a' := v]> m end) !! a = m !! a).
    { intros m v. destruct (m !! a'); [done | by rewrite lookup_insert_ne]. }
    assert (Hbh : forall (m : gmap string BetInfo) v,
               (match m !! a' with Some _ => m | None => <[a' := v]> m end) !! a = m !! a).
    { intros m v. destruct (m !! a'); [done | by rewrite lookup_insert_ne]. }
    unfold counters_ok in *. cbn zeta.
    destruct (bet =? 50).
    { cbn. by rewrite lookup_insert_ne, Hph. }
    destruct (300 <=? bet); [|cbn; by rewrite Hph].
    match goal with
    | |- context [if ?c then _ else _] => destruct c
    end; cbn; rewrite ?lookup_insert_ne, ?Hph, ?Hbh by done; exact H.
Qed.

(** X14. Counters of the scripter, after any sequence of decisions from
    the initial store and for every address: [gamesPlayed] is the sum of
    the two script cursors (so decisions at wagers outside the two tiers
    and rematch overrides are not counted); a [betHistory] record exists
    only beside a [playerHistory] record, has counted at least one
    decision, never touches [consecutiveSameBet], and its [gameCount] is
    the 300-plus cursor or one more (the one override); without a
    [betHistory] record the 300-plus cursor is still 0. *)
Theorem scripter_counters (reqs : list request) (a : string) :
  counters_ok a (store_after reqs empty_store).
Proof.
  unfold store_after.
  assert (H0 : counters_ok a empty_store) by done.
  revert H0. generalize empty_store.
  induction reqs as [|q reqs IH]; intros st Hst; simpl; [done|].
  apply IH. by apply determineOutcome_counters.
Qed.

(** *** From the lobby to a running match *)

Lemma set_set_same {V} k (v v' : V) o : Obj.set k v (Obj.set k v' o) = Obj.set k v o.
Proof.
  induction o as [|[k0 v0] o IH]; simpl.
  - by rewrite String.eqb_refl.
  - destruct (String.eqb k0 k) eqn:E; simpl.
    + by rewrite String.eqb_refl.
    + by rewrite E, IH.
Qed.

Lemma find_set_new {V} (f : string * V -> bool) k v o :
  (forall k0 v0, In (k0, v0) o -> k0 <> k -> f (k0, v0) = false) ->
  f (k, v) = true ->
  List.find f (Obj.set k v o) = Some (k, v).
Proof.
  intros Hold Hnew. induction o as [|[k0 v0] o IH]; simpl.
  - by rewrite Hnew.
  - destruct (String.eqb_spec k0 k) as [->|Hk]; simpl.
    + by rewrite Hnew.
    + rewrite (Hold k0 v0) by (by left || done).
      apply IH. intros k1 v1 Hin. apply Hold. by right.
Qed.

Lemma first_join now_id bet sid addr bot coin :
  snd (Game.addPlayer sid addr bot coin (Game.new now_id bet))
  = snd (Game.addPlayer sid addr bot true (Game.new now_id bet)).
Proof. reflexivity. Qed.

Lemma server_first_join gid bet sid addr t n :
  Server.addPlayer sid addr false (Game.new gid bet) t n
  = (Game.addPlayer sid addr false true (Game.new gid bet), n).
Proof. reflexivity. Qed.

Lemma first_payment now newId a d ma s t n :
  Obj.get a (Server.players s) = Some ma ->
  List.find (Server.one_slot_at (meta_bet ma)) (Server.games s) = None ->
  Server.onPaymentConfirmed now newId a d s t n
  = ((Server.mk
        (Obj.set newId
           (snd (Game.addPlayer a (meta_address ma) false true
                   (Game.new newId (meta_bet ma)))) (Server.games s))
        (Obj.set a (mkMeta (meta_address ma) (meta_bet ma) true (meta_isBot ma)
                      (meta_game ma)) (Server.players s))
        (Server.activeBots s) (a :: Server.botSpawnTimers s)
        (Server.waitingQueue s) (Server.store s),
      [Emit a waitingForOpponent; Later d (SpawnBot a)]), n).
Proof.
  intros Ha Hnone. unfold Server.onPaymentConfirmed. rewrite Ha.
  cbn [Server.games Server.set_players]. rewrite Hnone.
  unfold bind. rewrite server_first_join. cbn [snd].
  change (length (Obj.keys (Game.players
            (snd (Game.addPlayer a (meta_address ma) false true
                    (Game.new newId (meta_bet ma)))))) =? 2)%nat with false.
  unfold ret. cbn [Server.games Server.set_games Server.set_botSpawnTimers
                   Server.players Server.activeBots Server.botSpawnTimers
                   Server.waitingQueue Server.store].
  by rewrite set_set_same.
Qed.




(** X16. The way into play against the automated opponent. A registered
    socket pays while no match of its wager is waiting and it sits alone
    in no match; the spawn timer fires; the countdown elapses. Then the
    match under the new id is exactly a fresh match of the human (X) and
    the automated opponent (O), hence a reachable state; the session
    stored under the same id carries the scripter's verdict for the
    human's address; and the automated opponent is nudged after 500 ms
    exactly when the coin gave it the first turn. *)
Theorem bot_match_is_fresh (now1 now2 now3 : Z) (newId a botId : string)
    (botAddress : option string) (d1 : Z) (ma : Meta) (s : Server.t)
    (t : nat -> Q) (n : nat) :
  a <> botId ->
  Obj.get a (Server.players s) = Some ma ->
  List.find (Server.one_slot_at (meta_bet ma)) (Server.games s) = None ->
  List.find (alone_in a) (Server.games s) = None ->
  let '((s1, _), n1) := Server.onPaymentConfirmed now1 newId a d1 s t n in
  let '((s2, e2), _) := Server.spawnBot now2 a botId botAddress s1 t n1 in
  let '(s3, e3) := Server.startMatch now3 newId s2 in
  e2 = [Emit a (matchFound "player" 5 (now2 + 5000)); Later 5000 (StartMatch newId)] /\
  exists coin bot,
    let g := fresh newId (meta_bet ma) a (meta_address ma) false
               botId botAddress true coin now3 in
    Obj.get newId (Server.games s3) = Some g /\
    reachable g /\
    Server.activeBots s3 !! newId = Some bot /\
    BotPlayer.shouldWin bot
      = mustWin (fst (determineOutcome (meta_address ma) (meta_bet ma) (t (S n))
                        (Server.store s))) /\
    Game.turn g = Some (if coin then a else botId) /\
    (In (Later 500 (BotKick newId botId)) e3 <-> coin = false).
Proof.
  intros Hab Ha Hnone Halone.
  rewrite (first_payment now1 newId a d1 ma s t n Ha Hnone).
  set (g1 := snd (Game.addPlayer a (meta_address ma) false true
                    (Game.new newId (meta_bet ma)))).
  unfold Server.spawnBot. rewrite spawnBot_find.
  cbn [Server.games Server.players].
  rewrite (find_set_new (alone_in a) newId g1).
  2:{ intros k0 v0 Hin _. by apply (find_none _ _ Halone (k0, v0)). }
  2:{ unfold alone_in, g1, Game.addPlayer, Game.new. cbn. by rewrite String.eqb_refl. }
  rewrite get_set_same.
  unfold bind at 1.
  unfold BotPlayer.new, BotPlayer.generateThinkingTime, bind, random, ret.
  change (Game.betAmount g1) with (meta_bet ma).
  change (Game.id g1) with newId.
  cbn [meta_address Server.store].
  destruct (determineOutcome (meta_address ma) (meta_bet ma) (t (S n)) (Server.store s))
    as [d st'] eqn:Ed.
  match goal with
  | |- context [Server.addPlayer botId botAddress true g1 t ?k] =>
      destruct (server_addPlayer_shape botId botAddress true g1 t k) as (coin & n' & ->)
  end.
  set (g2 := snd (Game.addPlayer botId botAddress true coin g1)).
  assert (Hne : (a =? botId)%string = false) by by apply String.eqb_neq.
  assert (Hp2 : Game.players g2
                = [(a, mkPlayer a (meta_address ma) false X false);
                   (botId, mkPlayer botId botAddress true O false)]).
  { unfold g2, g1, Game.addPlayer, Game.new. cbn. by rewrite Hne. }
  cbn [snd]. fold g2.
  unfold Server.announce_match. rewrite Hp2. cbn [flat_map isBot app].
  unfold Server.startMatch.
  cbn [Server.games Server.set_games Server.set_players Server.set_botSpawnTimers
       Server.set_store Server.set_activeBots].
  rewrite set_set_same, get_set_same.
  destruct (Game.startTurnTimer now3 (Game.set_status playing g2)) as [g3 effs] eqn:Estart.
  split; [done|].
  exists coin. eexists. cbn zeta.
  assert (Hfresh : g3 = fresh newId (meta_bet ma) a (meta_address ma) false
                          botId botAddress true coin now3).
  { unfold fresh, begin. rewrite first_join. fold g1. fold g2. by rewrite Estart. }
  rewrite <- Hfresh.
  cbn [Server.games Server.set_games Server.set_players Server.set_botSpawnTimers
       Server.set_store Server.set_activeBots Server.activeBots].
  rewrite get_set_same, lookup_insert_eq.
  split; [done|]. split; [rewrite Hfresh; by constructor|].
  split; [reflexivity|]. split; [done|].
  assert (Hturn : Game.turn g3 = Some (if coin then a else botId)).
  { rewrite Hfresh. unfold fresh, begin. rewrite startTurnTimer_fst.
    unfold Game.addPlayer, Game.new. cbn. rewrite Hne. cbn. by destruct coin. }
  split; [exact Hturn|].
  assert (Hpl : Game.players g3 = Game.players g2).
  { rewrite Hfresh. unfold fresh, begin. rewrite startTurnTimer_fst. reflexivity. }
  assert (Heffs : forall e, In e effs -> e <> Later 500 (BotKick newId botId)).
  { intros e He. unfold Game.startTurnTimer in Estart.
    injection Estart as _ <-. clear -He.
    apply in_app_or in He as [He|He].
    - apply in_flat_map in He as ([pid p] & _ & He).
      destruct (isBot p); [destruct He|]. destruct He as [<-|[]]. discriminate.
    - destruct (Game.turn _); [|destruct He].
      destruct (Game.turn_is_bot _); [|destruct He].
      destruct He as [<-|[]]. discriminate. }
  unfold Game.turn_is_bot. rewrite Hturn, Hpl, Hp2. cbn [Obj.get].
  cbn [flat_map isBot app].
  destruct coin.
  - rewrite String.eqb_refl. cbn [isBot]. split; [|done].
    intros Hin. apply in_app_or in Hin as [Hin|Hin].
    + by destruct (Heffs _ Hin).
    + destruct Hin as [Hin|[]]. discriminate.
  - rewrite Hne, String.eqb_refl. cbn [isBot]. split; [done|]. intros _.
    apply in_or_app. right. simpl. tauto.
Qed.

Lemma bot_match_is_fresh_witness :
  exists g, Obj.get "game_1000" (Server.games after_start) = Some g /\ reachable g.
Proof.
  assert (Hne : "alice" <> "bot_1") by done.
  pose proof (bot_match_is_fresh 1000 16000 21000 "game_1000" "alice" "bot_1"
                (Some "ace7@speed.app") 15000 (mkMeta alice 300 false false None)
                lobby zero_tape 0%nat Hne eq_refl eq_refl eq_refl) as H.
  vm_compute in H.
  destruct H as (_ & coin & bot & Hg & Hr & _).
  eexists. split; [exact Hg | exact Hr].
Defined.

(** * Streaks ([streaksAndLeaderboards.js]) *)

Module StreakSystem.

(** [this.playerStreaks = new Map()] *)
Definition init : gmap string Z := ∅.

(** [calculateBonus(streak)] *)
Definition calculateBonus (streak : Z) : Z :=
  if 5 <=? streak then 50
  else if 3 <=? streak then 25
  else if 2 <=? streak then 10
  else 0.

(** [getStreak(playerId)]: [this.playerStreaks.get(playerId) || 0] *)
Definition getStreak (playerId : string) (m : gmap string Z) : Z := default 0 (m !! playerId).

(** [updateStreak(playerId, won)], returning [{ streak, bonus }]. *)
Definition updateStreak (playerId : string) (won : bool) (m : gmap string Z) : (Z * Z) * gmap string Z :=
  let currentStreak := default 0 (m !! playerId) in
  if won then
    let newStreak := if 0 <=? currentStreak then currentStreak + 1 else 1 in
    ((newStreak, calculateBonus newStreak), <[playerId := newStreak]> m)
  else
    let newStreak := if currentStreak <=? 0 then currentStreak - 1 else -1 in
    ((newStreak, 0), <[playerId := newStreak]> m).

(** A sequence of results, oldest first, each for one player. *)
Definition record_all (events : list (string * bool)) (m : gmap string Z) : gmap string Z :=
  fold_left (fun m '(p, won) => snd (updateStreak p won m)) events m.

End StreakSystem.

(** The length of the run of [b] at the head of [l]. *)
Fixpoint run (b : bool) (l : list bool) : nat :=
  match l with
  | x :: r => if Bool.eqb x b then S (run b r) else 0%nat
  | [] => 0%nat
  end.

(** The run at the end of a player's results, oldest first: positive for
    wins, negative for losses, 0 without results. *)
Definition trailing_run (results : list bool) : Z :=
  match rev results with
  | [] => 0
  | true :: r => Z.of_nat (S (run true r))
  | false :: r => - Z.of_nat (S (run false r))
  end.

Definition results_of (p : string) (events : list (string * bool)) : list bool :=
  map snd (List.filter (fun e => String.eqb (fst e) p) events).

Lemma trailing_run_snoc results won :
  trailing_run (results ++ [won])
  = if won
    then (if 0 <=? trailing_run results then trailing_run results + 1 else 1)
    else (if trailing_run results <=? 0 then trailing_run results - 1 else -1).
Proof.
  unfold trailing_run. rewrite rev_app_distr. simpl.
  destruct (rev results) as [|[|] r]; destruct won; simpl run;
    repeat match goal with
           | |- context [?a <=? ?b] => destruct (Z.leb_spec a b)
           end; lia.
Qed.

Lemma record_all_snoc events p won m :
  StreakSystem.record_all (events ++ [(p, won)]) m
  = snd (StreakSystem.updateStreak p won (StreakSystem.record_all events m)).
Proof. unfold StreakSystem.record_all. by rewrite fold_left_app. Qed.

Lemma results_of_snoc p events q won :
  results_of p (events ++ [(q, won)])
  = results_of p events ++ (if String.eqb q p then [won] else []).
Proof.
  unfold results_of. rewrite List.filter_app, map_app. simpl.
  by destruct (String.eqb q p).
Qed.

Lemma streak_is_trailing_run events p :
  StreakSystem.getStreak p (StreakSystem.record_all events StreakSystem.init)
  = trailing_run (results_of p events).
Proof.
  induction events as [|[q won] events IH] using rev_ind; [done|].
  rewrite record_all_snoc, results_of_snoc.
  set (m := StreakSystem.record_all events StreakSystem.init) in *.
  unfold StreakSystem.getStreak in *. unfold StreakSystem.updateStreak.
  destruct (String.eqb_spec q p) as [->|Hne].
  - rewrite trailing_run_snoc, <- IH.
    destruct won; cbn [snd]; rewrite lookup_insert_eq; reflexivity.
  - rewrite app_nil_r, <- IH.
    destruct won; cbn [snd]; rewrite lookup_insert_ne by done; reflexivity.
Qed.

(** X17. The streak system. After any sequence of recorded results, for
    any players in any interleaving, a player's streak is the signed
    length of the run at the end of that player's own results: [+k] after
    [k] wins in a row, [-k] after [k] losses in a row, 0 without results.
    The value returned by [updateStreak] is the new streak, with the
    bonus of [calculateBonus] on a win and no bonus on a loss; the bonus
    is 0, 10, 25 or 50, never decreases as the streak grows, and is
    positive exactly from a streak of 2. *)
Theorem streak_tracks_trailing_run (events : list (string * bool)) (p : string)
    (won : bool) :
  let m := StreakSystem.record_all events StreakSystem.init in
  let '((streak, bonus), m') := StreakSystem.updateStreak p won m in
  StreakSystem.getStreak p m = trailing_run (results_of p events) /\
  streak = trailing_run (results_of p events ++ [won]) /\
  StreakSystem.getStreak p m' = streak /\
  (forall q, q <> p -> StreakSystem.getStreak q m' = StreakSystem.getStreak q m) /\
  bonus = (if won then StreakSystem.calculateBonus streak else 0) /\
  (forall a b, a <= b -> StreakSystem.calculateBonus a <= StreakSystem.calculateBonus b) /\
  (forall a, In (StreakSystem.calculateBonus a) [0; 10; 25; 50] /\
             (0 < StreakSystem.calculateBonus a <-> 2 <= a)).
Proof.
  intros m.
  pose proof (streak_is_trailing_run events p) as Hm. fold m in Hm.
  pose proof (streak_is_trailing_run (events ++ [(p, won)]) p) as Hm'.
  rewrite record_all_snoc, results_of_snoc, String.eqb_refl in Hm'. fold m in Hm'.
  destruct (StreakSystem.updateStreak p won m) as [[streak bonus] m'] eqn:E.
  simpl in Hm'.
  assert (Hs : StreakSystem.getStreak p m' = streak /\
               bonus = (if won then StreakSystem.calculateBonus streak else 0) /\
               forall q, q <> p -> StreakSystem.getStreak q m' = StreakSystem.getStreak q m).
  { unfold StreakSystem.updateStreak in E. unfold StreakSystem.getStreak.
    destruct won; injection E as <- <- <-; rewrite lookup_insert_eq;
      (repeat split; [done..|]); intros q Hq; by rewrite lookup_insert_ne. }
  destruct Hs as (Hs1 & Hs2 & Hs3).
  split; [done|]. split; [by rewrite <- Hm', Hs1|]. split; [done|].
  split; [done|]. split; [done|].
  unfold StreakSystem.calculateBonus. split.
  - intros a b Hab.
    repeat match goal with
           | |- context [?x <=? ?y] => destruct (Z.leb_spec x y)
           end; lia.
  - intros a.
    repeat match goal with
           | |- context [?x <=? ?y] => destruct (Z.leb_spec x y)
           end; simpl; split; try tauto; lia.
Qed.

(** * Achievements ([achievements.js]) *)

(** The table [achievements]: id and reward. *)
Definition achievements : list (string * Z) :=
  [("first_win", 10); ("streak_3", 50); ("streak_5", 100);
   ("big_better", 25); ("mystery_opener", 15)].

Module AchievementSystem.

(** What [checkAchievement] returns when it is not [null]. *)
Record award := mkAward {
  achievement : string;
  reward : Z;
  newTotal : Z
}.

(** [this.playerAchievements = new Map()], player to [Set] of ids. *)
Definition init : gmap string (gset string) := ∅.

(** [achievements.find(a => a.id === achievementId)] *)
Definition find_achievement (achievementId : string) : option (string * Z) :=
  List.find (fun a => String.eqb (fst a) achievementId) achievements.

(** [checkAchievement(playerId, achievementId, data = {})]; [total] is
    [data.newTotal]. *)
Definition checkAchievement (playerId achievementId : string) (total : option Z)
    (m : gmap string (gset string)) : option award * gmap string (gset string) :=
  let m1 := match m !! playerId with
            | Some _ => m
            | None => <[playerId := ∅]> m
            end in
  let playerAchievs := default ∅ (m1 !! playerId) in
  if decide (achievementId ∈ playerAchievs) then (None, m1)
  else
    match find_achievement achievementId with
    | None => (None, m1)
    | Some a =>
        (Some (mkAward (fst a) (snd a) (default 0 total)),
         <[playerId := {[achievementId]} ∪ playerAchievs]> m1)
    end.

(** A sequence of checks; returns the awards made, oldest first, each with
    its player. *)
Fixpoint check_all (calls : list (string * string * option Z))
    (m : gmap string (gset string)) : list (string * award) :=
  match calls with
  | [] => []
  | (p, a, total) :: rest =>
      let '(r, m') := checkAchievement p a total m in
      match r with
      | Some w => (p, w) :: check_all rest m'
      | None => check_all rest m'
      end
  end.

End AchievementSystem.

(** The awards made to player [p]. *)
Definition awards_of (p : string) (l : list (string * AchievementSystem.award))
  : list AchievementSystem.award :=
  map snd (List.filter (fun e => String.eqb (fst e) p) l).

Definition total_reward (l : list AchievementSystem.award) : Z :=
  fold_right Z.add 0 (map AchievementSystem.reward l).

Definition reward_of (a : string) : Z :=
  match AchievementSystem.find_achievement a with
  | Some e => snd e
  | None => 0
  end.

Definition sum_rewards (ids : list string) : Z :=
  fold_right Z.add 0 (map reward_of ids).

Lemma reward_of_nonneg a : 0 <= reward_of a.
Proof.
  unfold reward_of, AchievementSystem.find_achievement, achievements.
  cbn [List.find fst].
  repeat (destruct (String.eqb _ a); [cbn [snd]; lia|]). lia.
Qed.

Lemma sum_rewards_nonneg l : 0 <= sum_rewards l.
Proof.
  induction l as [|a l IH]; [done|].
  pose proof (reward_of_nonneg a). unfold sum_rewards in *. simpl. lia.
Qed.

Lemma sum_rewards_submseteq l k : l ⊆+ k -> sum_rewards l <= sum_rewards k.
Proof.
  unfold sum_rewards. induction 1 as [|x l k _ IH|x y l|x l k _ IH|l k j _ IH1 _ IH2];
    simpl; try lia.
  pose proof (reward_of_nonneg x). lia.
Qed.

Lemma find_achievement_known a e :
  AchievementSystem.find_achievement a = Some e ->
  fst e = a /\ a ∈ map fst achievements /\ snd e = reward_of a.
Proof.
  intros H. unfold reward_of. rewrite H. split; [|split; [|done]].
  - apply List.find_some in H as [_ H]. by apply String.eqb_eq in H.
  - apply List.find_some in H as [Hin H]. apply String.eqb_eq in H. subst a.
    apply list_elem_of_In. by apply in_map.
Qed.

(** What the awards already made to [p] and the player's set have to do
    with each other. *)
Definition granted_ok (p : string) (m : gmap string (gset string))
    (ids : list string) : Prop :=
  NoDup ids /\ forall a, a ∈ ids -> a ∈ default ∅ (m !! p).

Lemma check_all_awards p calls m :
  let ids := map AchievementSystem.achievement
               (awards_of p (AchievementSystem.check_all calls m)) in
  NoDup ids /\
  (forall a, a ∈ ids -> (a ∉ default ∅ (m !! p)) /\ a ∈ map fst achievements) /\
  Forall (fun w => AchievementSystem.reward w = reward_of (AchievementSystem.achievement w))
         (awards_of p (AchievementSystem.check_all calls m)).
Proof.
  revert m. induction calls as [|[[q a] total] calls IH]; intros m; simpl.
  { split; [constructor|]. split; [|constructor]. intros a Ha. by apply elem_of_nil in Ha. }
  unfold AchievementSystem.checkAchievement.
  set (m1 := match m !! q with Some _ => m | None => <[q := ∅]> m end).
  assert (Hm1 : default ∅ (m1 !! p) = default ∅ (m !! p)).
  { unfold m1. destruct (m !! q) eqn:Eq; [done|].
    destruct (decide (q = p)) as [->|Hne].
    - by rewrite lookup_insert_eq, Eq.
    - by rewrite lookup_insert_ne. }
  destruct (decide (a ∈ default ∅ (m1 !! q))) as [Hin|Hnin].
  { specialize (IH m1). cbn zeta in IH. rewrite Hm1 in IH. exact IH. }
  destruct (AchievementSystem.find_achievement a) as [e|] eqn:Ef.
  2:{ specialize (IH m1). cbn zeta in IH. rewrite Hm1 in IH. exact IH. }
  destruct (find_achievement_known a e Ef) as (He & Hknown & Hrew).
  set (m2 := <[q := {[a]} ∪ default ∅ (m1 !! q)]> m1).
  specialize (IH m2). cbn zeta in IH. destruct IH as (Hnd & Hfresh & Hall).
  unfold awards_of in *. simpl.
  destruct (String.eqb_spec q p) as [->|Hne]; simpl.
  - assert (Hm2 : default ∅ (m2 !! p) = {[a]} ∪ default ∅ (m !! p)).
    { unfold m2. by rewrite lookup_insert_eq, Hm1. }
    rewrite Hm2 in Hfresh. rewrite Hm1 in Hnin. rewrite He.
    split; [|split].
    + constructor; [|done]. intros Ha. apply Hfresh in Ha as [Ha _].
      apply Ha. apply elem_of_union. left. by apply elem_of_singleton.
    + intros b Hb. apply elem_of_cons in Hb as [->|Hb]; [done|].
      apply Hfresh in Hb as [Hb ?]. split; [|done].
      intros Hin. apply Hb. apply elem_of_union. by right.
    + constructor; [|done]. exact Hrew.
  - assert (Hm2 : default ∅ (m2 !! p) = default ∅ (m !! p)).
    { unfold m2. by rewrite lookup_insert_ne, Hm1. }
    rewrite Hm2 in Hfresh. done.
Qed.

Lemma total_reward_sum l :
  Forall (fun w => AchievementSystem.reward w = reward_of (AchievementSystem.achievement w)) l ->
  total_reward l = sum_rewards (map AchievementSystem.achievement l).
Proof.
  unfold total_reward, sum_rewards. induction 1 as [|w l Hw _ IH]; simpl; [done|].
  by rewrite Hw, IH.
Qed.

(** X18. The achievement system, over any sequence of checks from the
    initial state and for every player: no achievement is awarded twice to
    the same player; every award is an entry of the table with the
    table's reward; and the rewards awarded to one player add up to at
    most 200, the sum of the table. An id outside the table is never
    awarded. *)
Theorem achievements_awarded_once (calls : list (string * string * option Z))
    (p : string) :
  let awards := awards_of p (AchievementSystem.check_all calls AchievementSystem.init) in
  NoDup (map AchievementSystem.achievement awards) /\
  Forall (fun w => In (AchievementSystem.achievement w, AchievementSystem.reward w)
                      achievements) awards /\
  0 <= total_reward awards <= 200.
Proof.
  intros awards.
  destruct (check_all_awards p calls AchievementSystem.init) as (Hnd & Hknown & Hrew).
  fold awards in Hnd, Hknown, Hrew.
  split; [done|]. split.
  - apply List.Forall_forall. intros w Hw.
    assert (Hid : AchievementSystem.achievement w ∈ map AchievementSystem.achievement awards).
    { apply list_elem_of_In. by apply in_map. }
    apply Hknown in Hid as [_ Hid].
    rewrite List.Forall_forall in Hrew. rewrite (Hrew w Hw).
    revert Hid. generalize (AchievementSystem.achievement w). intros a Ha.
    apply list_elem_of_In in Ha. simpl in Ha.
    repeat (destruct Ha as [<-|Ha]; [vm_compute; tauto|]). destruct Ha.
  - rewrite (total_reward_sum awards Hrew). split.
    + apply sum_rewards_nonneg.
    + change 200 with (sum_rewards (map fst achievements)).
      apply sum_rewards_submseteq. apply NoDup_submseteq; [done|].
      intros a Ha. by apply Hknown in Ha as [_ Ha].
Qed.

(** * Mystery boxes ([MysteryBoxManager]) *)

Inductive box_type := BRONZE | SILVER | GOLD.

(** [BOX_TYPES[type].satReward] and [.rarity] *)
Definition satReward (ty : box_type) : Z * Z :=
  match ty with
  | BRONZE => (5, 15)
  | SILVER => (20, 50)
  | GOLD => (75, 150)
  end.

Definition rarity (ty : box_type) : Q :=
  match ty with
  | BRONZE => 6 # 10
  | SILVER => 3 # 10
  | GOLD => 1 # 10
  end.

Record Box := mkBox {
  box_id : string;
  box_kind : box_type;
  box_reason : string;
  awardedAt : Z;
  opened : bool;
  box_reward : option Z;
  openedAt : option Z
}.

Section MysteryBoxManager.

(** The text of [`box_${Date.now()}_${Math.random().toString(36).substr(2, 9)}`]. *)
Variable box_name : Z -> Q -> string.

(** [awardBox(playerId, reason)] at time [now]. *)
Definition awardBox (now : Z) (playerId reason : string) (m : gmap string (list Box))
  : Rand (Box * gmap string (list Box)) :=
  rand <- random ;;
  let boxType := if Qltb rand (1 # 10) then GOLD
                 else if Qltb rand (4 # 10) then SILVER
                 else BRONZE in
  suffix <- random ;;
  let box := mkBox (box_name now suffix) boxType reason now false None None in
  ret (box, <[playerId := default [] (m !! playerId) ++ [box]]> m).

(** [boxes.find(b => b.id === boxId && !b.opened)], as an index. *)
Fixpoint find_closed (boxId : string) (boxes : list Box) : option nat :=
  match boxes with
  | [] => None
  | b :: r =>
      if String.eqb (box_id b) boxId && negb (opened b) then Some 0%nat
      else S <$> find_closed boxId r
  end.

(** [openBox(playerId, boxId)] at time [now]; the box found is updated in
    place, in the player's array. *)
Definition openBox (now : Z) (playerId boxId : string) (m : gmap string (list Box))
  : Rand (option (Box * Z) * gmap string (list Box)) :=
  let boxes := default [] (m !! playerId) in
  match find_closed boxId boxes with
  | None => ret (None, m)
  | Some i =>
      match boxes !! i with
      | None => ret (None, m)
      | Some box =>
          r <- random ;;
          let '(lo, hi) := satReward (box_kind box) in
          let reward := Qfloor (r * inject_Z (hi - lo + 1)) + lo in
          let box' := mkBox (box_id box) (box_kind box) (box_reason box) (awardedAt box)
                        true (Some reward) (Some now) in
          ret (Some (box', reward), <[playerId := <[i := box']> boxes]> m)
      end
  end.

(** [getPlayerBoxes(playerId)] *)
Definition getPlayerBoxes (playerId : string) (m : gmap string (list Box)) : list Box :=
  default [] (m !! playerId).

(** The boxes of a list still closed. *)
Definition closed (boxes : list Box) : nat :=
  length (List.filter (fun b => negb (opened b)) boxes).

Lemma find_closed_some boxId boxes i :
  find_closed boxId boxes = Some i ->
  exists b, boxes !! i = Some b /\ box_id b = boxId /\ opened b = false.
Proof.
  revert i. induction boxes as [|b r IH]; intros i; simpl; [discriminate|].
  destruct (String.eqb_spec (box_id b) boxId) as [Hb|Hb]; simpl.
  - destruct (opened b) eqn:Eo; simpl.
    + destruct (find_closed boxId r) as [j|]; [|discriminate].
      intros [= <-]. by apply IH.
    + intros [= <-]. exists b. by repeat split.
  - destruct (find_closed boxId r) as [j|]; [|discriminate].
    intros [= <-]. by apply IH.
Qed.

Lemma find_closed_none boxId boxes :
  find_closed boxId boxes = None ->
  forall b, In b boxes -> box_id b = boxId -> opened b = true.
Proof.
  induction boxes as [|b r IH]; simpl; [intros _ ? []|].
  destruct (String.eqb_spec (box_id b) boxId) as [Hb|Hb]; simpl.
  - destruct (opened b) eqn:Eo; simpl; [|discriminate].
    destruct (find_closed boxId r); [discriminate|].
    intros _ b' [<-|Hin] Hid; [done | by apply IH].
  - destruct (find_closed boxId r); [discriminate|].
    intros _ b' [<-|Hin] Hid; [done | by apply IH].
Qed.

Lemma closed_insert boxes i b b' :
  boxes !! i = Some b -> opened b = false -> opened b' = true ->
  S (closed (<[i := b']> boxes)) = closed boxes.
Proof.
  unfold closed. revert i. induction boxes as [|x r IH]; intros [|i]; simpl; try done.
  - intros [= ->] -> ->. done.
  - intros Hi Hb Hb'. destruct (opened x); simpl; [by apply IH|].
    f_equal. by apply IH.
Qed.

(** X19. Mystery boxes. [awardBox] appends one closed box of the drawn
    kind to the player's boxes: GOLD for a draw below the rarity of GOLD,
    SILVER for a draw in the next interval, as long as the rarity of
    SILVER, BRONZE otherwise. [openBox] for an id that names no closed box
    of the player returns [null], changes nothing and draws nothing (in
    particular when every box of that id is already open). Otherwise,
    with draws in [0,1), it opens the first closed box of that id: the
    reward lies within the range of the box's kind, is stored in the box,
    the player has one closed box fewer, as many boxes as before, and the
    other players' boxes are untouched. *)
Theorem mystery_box_opened_once (now : Z) (playerId boxId reason : string)
    (m : gmap string (list Box)) (t : nat -> Q) (n : nat) :
  in_range t ->
  (let '((box, m'), n') := awardBox now playerId reason m t n in
   getPlayerBoxes playerId m' = getPlayerBoxes playerId m ++ [box] /\
   opened box = false /\ box_reward box = None /\
   (box_kind box = GOLD <-> (t n < rarity GOLD)%Q) /\
   (box_kind box = SILVER <->
      (rarity GOLD <= t n)%Q /\ (t n < rarity GOLD + rarity SILVER)%Q) /\
   n' = S (S n)) /\
  (let '((r, m'), n') := openBox now playerId boxId m t n in
   match r with
   | None =>
       m' = m /\ n' = n /\
       forall b, In b (getPlayerBoxes playerId m) -> box_id b = boxId -> opened b = true
   | Some (box, reward) =>
       box_id box = boxId /\ opened box = true /\ box_reward box = Some reward /\
       fst (satReward (box_kind box)) <= reward <= snd (satReward (box_kind box)) /\
       In box (getPlayerBoxes playerId m') /\
       S (closed (getPlayerBoxes playerId m')) = closed (getPlayerBoxes playerId m) /\
       length (getPlayerBoxes playerId m') = length (getPlayerBoxes playerId m) /\
       (forall q, q <> playerId -> getPlayerBoxes q m' = getPlayerBoxes q m) /\
       n' = S n
   end).
Proof.
  intros Ht. split.
  - unfold awardBox, bind, random, ret, getPlayerBoxes. rewrite lookup_insert_eq.
    split; [done|]. split; [done|]. split; [done|].
    unfold Qltb, rarity. cbn [box_kind].
    destruct (Qle_bool (1 # 10) (t n)) eqn:E1; cbn [negb].
    + apply Qle_bool_iff in E1.
      destruct (Qle_bool (4 # 10) (t n)) eqn:E2; cbn [negb].
      * apply Qle_bool_iff in E2. split; [|split; [|done]].
        -- split; [discriminate|]. intros H. by apply Qlt_not_le in H.
        -- split; [discriminate|]. intros [_ H].
           apply Qlt_not_le in H. destruct H.
           eapply Qle_trans; [|exact E2]. by vm_compute.
      * split; [|split; [|done]].
        -- split; [discriminate|]. intros H. by apply Qlt_not_le in H.
        -- split; [|done]. intros _. split; [done|].
           apply Qnot_le_lt. intros H.
           assert (H' : (4 # 10 <= t n)%Q).
           { eapply Qle_trans; [|exact H]. by vm_compute. }
           apply Qle_bool_iff in H'. congruence.
    + split; [|split; [|done]].
      * split; [|done]. intros _. apply Qnot_le_lt. intros H.
        apply Qle_bool_iff in H. congruence.
      * split; [discriminate|]. intros [H _]. apply Qle_bool_iff in H. congruence.
  - unfold openBox, getPlayerBoxes.
    set (boxes := default [] (m !! playerId)).
    destruct (find_closed boxId boxes) as [i|] eqn:Ef.
    2:{ unfold ret. repeat split. by apply find_closed_none. }
    destruct (find_closed_some boxId boxes i Ef) as (b & Hb & Hid & Hop).
    rewrite Hb. unfold bind, random, ret.
    destruct (satReward (box_kind b)) as [lo hi] eqn:Er.
    rewrite lookup_insert_eq. cbn [default from_option id box_id opened box_reward
                                   box_kind fst snd].
    rewrite Er. cbn [fst snd].
    assert (Hrange : 0 < hi - lo + 1).
    { destruct (box_kind b); injection Er as <- <-; lia. }
    destruct (Ht n) as [H0 H1].
    pose proof (floor_scaled_lt (t n) (hi - lo + 1) H0 H1 Hrange) as Hfl.
    split; [done|]. split; [done|]. split; [done|]. split; [lia|].
    split.
    { apply list_elem_of_In. eapply list_elem_of_lookup_2.
      apply list_lookup_insert_eq. by eapply lookup_lt_Some. }
    split; [by apply (closed_insert boxes i b)|].
    split; [by rewrite length_insert|].
    split; [|done]. intros q Hq. by rewrite lookup_insert_ne.
Qed.

End MysteryBoxManager.

Lemma mystery_box_opened_once_witness :
  let m : gmap string (list Box) :=
    {["alice" := [mkBox "box_1" BRONZE "game_win" 50 false None None]]} in
  in_range zero_tape /\
  exists box reward m' n',
    openBox 100 "alice" "box_1" m zero_tape 0%nat = ((Some (box, reward), m'), n') /\
    5 <= reward <= 15.
Proof.
  intros m. split; [apply zero_tape_in_range|].
  destruct (mystery_box_opened_once (fun _ _ => "box_1") 100 "alice" "box_1" "game_win"
              m zero_tape 0%nat zero_tape_in_range) as [_ H].
  destruct (openBox 100 "alice" "box_1" m zero_tape 0%nat) as [[r m'] n'] eqn:E.
  vm_compute in E. injection E as <- <- <-.
  destruct H as (_ & _ & _ & Hr & _).
  eexists _, _, _, _. split; [reflexivity | exact Hr].
Defined.

(** * Speed rounds ([SpeedRoundManager]) *)

Module SpeedRoundManager.

Record speedGame := mkSpeedGame {
  timeLimit : Z;      (* seconds *)
  startTime : Z;      (* milliseconds *)
  moves : list Z
}.

(** [createSpeedGame(gameId, timeLimit = 10)] at time [now]. *)
Definition createSpeedGame (now : Z) (gameId : string) (limit : option Z)
    (m : gmap string speedGame) : gmap string speedGame :=
  <[gameId := mkSpeedGame (default 10 limit) now []]> m.

(** [getTimeLeft(gameId)] at time [now]. *)
Definition getTimeLeft (now : Z) (gameId : string) (m : gmap string speedGame) : Z :=
  match m !! gameId with
  | None => 0
  | Some speedGame =>
      let elapsed := now - startTime speedGame in
      Z.max 0 (timeLimit speedGame * 1000 - elapsed)
  end.

End SpeedRoundManager.

(** X20. The clock of a speed round. For a game nobody created the time
    left is 0. For a game created at [start] with a limit of [limit]
    seconds (10 by default), whatever was registered under that id
    before: the time left is never negative, is the whole limit at the
    start, never exceeds the limit from the start on, never grows as time
    passes, and is 0 exactly from [limit] seconds after the start on
    (at once, for a limit that is not positive). Creating a game does not
    touch the clock of any other game. *)
Theorem speed_round_clock (start : Z) (gameId : string) (limit : option Z)
    (m : gmap string SpeedRoundManager.speedGame) :
  let m' := SpeedRoundManager.createSpeedGame start gameId limit m in
  let lim := default 10 limit in
  (forall now, SpeedRoundManager.getTimeLeft now gameId ∅ = 0) /\
  (forall now, 0 <= SpeedRoundManager.getTimeLeft now gameId m') /\
  SpeedRoundManager.getTimeLeft start gameId m' = Z.max 0 (lim * 1000) /\
  (forall now, start <= now ->
     SpeedRoundManager.getTimeLeft now gameId m' <= Z.max 0 (lim * 1000)) /\
  (forall now now', now <= now' ->
     SpeedRoundManager.getTimeLeft now' gameId m'
     <= SpeedRoundManager.getTimeLeft now gameId m') /\
  (forall now, SpeedRoundManager.getTimeLeft now gameId m' = 0
               <-> start + lim * 1000 <= now) /\
  (forall now other, other <> gameId ->
     SpeedRoundManager.getTimeLeft now other m'
     = SpeedRoundManager.getTimeLeft now other m).
Proof.
  intros m' lim. unfold SpeedRoundManager.getTimeLeft.
  subst m'. unfold SpeedRoundManager.createSpeedGame.
  rewrite lookup_insert_eq. cbn [SpeedRoundManager.timeLimit SpeedRoundManager.startTime].
  fold lim.
  split; [intros now; by rewrite lookup_empty|].
  split; [intros now; lia|].
  split; [f_equal; lia|].
  split; [intros now Hnow; lia|].
  split; [intros now now' Hle; lia|].
  split; [intros now; lia|].
  intros now other Hne. by rewrite lookup_insert_ne.
Qed.
